(** * EOXS log automation: the HTTP wrapper and the automation run

    A shallow embedding of the Express server (the [/automate] and
    [/status/:jobId] handlers, the in-memory job store and the mutation of
    [process.env]) and of the Playwright automation class (its constructor,
    [updateTicketDetailsFromEnv], [run], [openTicketByTitle] and the selector
    chains of [login]).

    Conventions.
    - A string is the sequence of bytes of its UTF-8 encoding.
    - [process.env] is a finite map from names to strings. An assignment
      [process.env[key] = value] is [env_set]: [setenv] on C strings while
      [process.env] is the object Node started with, a property assignment
      on a plain object once the handler has replaced it by a snapshot.
    - A request body is a JavaScript object produced by a body parser: an
      association list of own enumerable properties in [Object.keys] order.
    - Asynchronous code is a state-and-exception monad: [Throw e] is a
      rejected promise or a thrown [Error] whose [message] is [e].
    - Playwright, the clock and the uuid generator are an interface
      ([Outside]) over an abstract world: nothing is assumed about what the
      browser or the remote site do. *)

From Stdlib Require Import ZArith String Ascii List.
From Stdlib Require QArith.
From stdpp Require Import base option list strings gmap pretty.

Open Scope string_scope.

(** ** Completions and the state-and-exception monad *)

Definition exn := string.

Inductive completion (A : Type) : Type :=
| Normal (a : A)
| Throw (e : exn).
Arguments Normal {A} a.
Arguments Throw {A} e.

Definition M (S A : Type) : Type := S -> completion A * S.

Definition ret {S A} (a : A) : M S A := fun s => (Normal a, s).

Definition throw {S A} (e : exn) : M S A := fun s => (Throw e, s).

Definition bind {S A B} (c : M S A) (k : A -> M S B) : M S B :=
  fun s => match c s with
           | (Normal a, s1) => k a s1
           | (Throw e, s1) => (Throw e, s1)
           end.

(** [try { body } catch (error) { handler }] *)
Definition try_catch {S A} (body : M S A) (handler : exn -> M S A) : M S A :=
  fun s => match body s with
           | (Normal a, s1) => (Normal a, s1)
           | (Throw e, s1) => handler e s1
           end.

(** [try { body } finally { fin }]: a [fin] that throws replaces the
    completion of [body], one that completes normally keeps it. *)
Definition try_finally {S A} (body : M S A) (fin : M S unit) : M S A :=
  fun s => match body s with
           | (c, s1) => match fin s1 with
                        | (Normal _, s2) => (c, s2)
                        | (Throw e, s2) => (Throw e, s2)
                        end
           end.

Definition get {S} : M S S := fun s => (Normal s, s).
Definition gets {S A} (f : S -> A) : M S A := fun s => (Normal (f s), s).
Definition modify {S} (f : S -> S) : M S unit := fun s => (Normal tt, f s).

Declare Scope js_scope.
Delimit Scope js_scope with js.
Notation "'let!' x ':=' c 'in' k" := (bind c (fun x => k))
  (at level 10, x name, c at level 100, k at level 200, only parsing) : js_scope.
Notation "'do!' c 'in' k" := (bind c (fun _ => k))
  (at level 10, c at level 100, k at level 200, only parsing) : js_scope.
Open Scope js_scope.

(** [array.forEach(f)] for a callback that may throw. *)
Fixpoint forEach {S A} (l : list A) (f : A -> M S unit) : M S unit :=
  match l with
  | [] => ret tt
  | x :: rest => do! f x in forEach rest f
  end.

(** ** JavaScript values of a parsed request body *)

Section Values.
(** Numbers are IEEE doubles; only their string form is ever used. *)
Context {number : Type}.
Variable Number_toString : number -> string.

#[warnings="-register-all"]
Inductive value : Type :=
| VUndefined
| VNull
| VBool (b : bool)
| VNum (n : number)
| VStr (s : string)
| VArr (elems : list value)
| VObj (props : list (string * value)).

Definition object := list (string * value).

(** [o[key]]: the own property, [undefined] when there is none. *)
Fixpoint obj_get (o : object) (key : string) : value :=
  match o with
  | [] => VUndefined
  | (k, v) :: rest => if String.eqb k key then v else obj_get rest key
  end.

Definition Object_keys (o : object) : list string := map fst o.

Definition hasOwn (o : object) (key : string) : bool :=
  existsb (fun kv => String.eqb (fst kv) key) o.

Definition is_nullish (v : value) : bool :=
  match v with
  | VUndefined | VNull => true
  | _ => false
  end.

(** [a ?? b] *)
Definition nullish_coalesce (a b : value) : value :=
  if is_nullish a then b else a.

(** [String(v)]. [None] is the [TypeError] of [ToPrimitive]: body data holds
    no function, so an object with an own [toString] property has no callable
    [toString], and [Object.prototype.valueOf] returns the object itself.
    An array is joined with commas, [null] and [undefined] elements giving
    the empty string. *)
Fixpoint js_String (v : value) : option string :=
  match v with
  | VUndefined => Some "undefined"
  | VNull => Some "null"
  | VBool true => Some "true"
  | VBool false => Some "false"
  | VNum n => Some (Number_toString n)
  | VStr s => Some s
  | VArr elems =>
      (fix join (l : list value) : option string :=
         match l with
         | [] => Some ""
         | x :: rest =>
             let sx := if is_nullish x then Some "" else js_String x in
             match rest with
             | [] => sx
             | _ :: _ =>
                 match sx, join rest with
                 | Some a, Some b => Some (a ++ "," ++ b)
                 | _, _ => None
                 end
             end
         end) elems
  | VObj props =>
      if hasOwn props "toString" then None else Some "[object Object]"
  end.

Definition TypeError_toPrimitive : exn :=
  "Cannot convert object to primitive value".

Definition String_ {S} (v : value) : M S string :=
  match js_String v with
  | Some s => ret s
  | None => throw TypeError_toPrimitive
  end.
End Values.

Arguments value : clear implicits.
Arguments object : clear implicits.

(** ** [process.env] and truthiness of its entries *)

Abbreviation Env := (gmap string string).

(** [c] occurs in [s]. *)
Fixpoint occurs (c : ascii) (s : string) : bool :=
  match s with
  | EmptyString => false
  | String c' rest => Ascii.eqb c' c || occurs c rest
  end.

(** A string as the C library reads it: up to its first NUL. *)
Fixpoint c_string (s : string) : string :=
  match s with
  | EmptyString => EmptyString
  | String c rest => if Ascii.eqb c Ascii.zero then EmptyString else String c (c_string rest)
  end.

(** The name under which [process.env[key] = value] stores, if it stores,
    and what it stores. While [process.env] is the object Node started
    with ([native]), the assignment is [setenv] on the C strings of the key
    and of the value; [setenv] refuses an empty name and a name with [=]
    (the server runs on Linux), and Node ignores the refusal. Once
    [process.env] is a plain object, every key and value is kept as it is. *)
Definition env_key (native : bool) (key : string) : option string :=
  if native then
    let name := c_string key in
    if String.eqb name "" || occurs "=" name then None else Some name
  else Some key.

Definition env_value (native : bool) (value : string) : string :=
  if native then c_string value else value.

(** [env[key] = value]. On a plain object that has no own property
    [__proto__], an assignment to that key goes to the setter inherited
    from [Object.prototype], which ignores a string. *)
Definition env_set (native : bool) (key value : string) (env : Env) : Env :=
  match env_key native key with
  | Some name =>
      if negb native && String.eqb name "__proto__" && bool_decide (env !! name = None)
      then env
      else <[name := env_value native value]> env
  | None => env
  end.

(** An entry of [process.env] used as a condition: [undefined] and the empty
    string are falsy. *)
Definition truthy (v : option string) : bool :=
  match v with
  | Some s => negb (String.eqb s "")
  | None => false
  end.

(** [a || b] on entries of [process.env]. *)
Definition js_or (a b : option string) : option string :=
  if truthy a then a else b.

(** [a || s] where [s] is a string. *)
Definition js_or_str (a : option string) (s : string) : string :=
  match js_or a (Some s) with
  | Some r => r
  | None => s
  end.

(** ** The automation class *)

Record TicketDetails : Type := {
  title : string;
  customer : string;
  assignedTo : string;
  description : string;
  logNote : string
}.

(** [CONFIG.ticketDetails] as the module is loaded. *)
Definition CONFIG_ticketDetails : TicketDetails := {|
  title := "Sample";
  customer := "Discount Pipe & Steel";
  assignedTo := "Sahaj Katiyar";
  description := "";
  logNote := "Email received from customer"
|}.

Definition set_title (s : string) (c : TicketDetails) : TicketDetails :=
  {| title := s; customer := customer c; assignedTo := assignedTo c;
     description := description c; logNote := logNote c |}.

Definition set_customer (s : string) (c : TicketDetails) : TicketDetails :=
  {| title := title c; customer := s; assignedTo := assignedTo c;
     description := description c; logNote := logNote c |}.

Definition set_description (s : string) (c : TicketDetails) : TicketDetails :=
  {| title := title c; customer := customer c; assignedTo := assignedTo c;
     description := s; logNote := logNote c |}.

Definition set_logNote (s : string) (c : TicketDetails) : TicketDetails :=
  {| title := title c; customer := customer c; assignedTo := assignedTo c;
     description := description c; logNote := s |}.

(** [if (v) { ... v ... }] *)
Definition when_truthy (v : option string)
    (f : string -> TicketDetails -> TicketDetails) (c : TicketDetails) : TicketDetails :=
  match v with
  | Some s => if truthy (Some s) then f s c else c
  | None => c
  end.

Definition updateTicketDetailsFromEnv (env : Env) (c : TicketDetails) : TicketDetails :=
  let c := when_truthy (env !! "EMAIL_SUBJECT") set_title c in
  let c := when_truthy (env !! "EMAIL_CUSTOMER") set_customer c in
  let c := when_truthy (env !! "EMAIL_BODY")
             (fun s c => set_logNote s (set_description s c)) c in
  let c := when_truthy (env !! "TICKET_TITLE") set_title c in
  when_truthy (js_or (env !! "LOG_NOTE") (env !! "EMAIL_SUBJECT")) set_logNote c.

(** [Boolean(process.env.TICKET_TITLE &&
             (process.env.LOG_NOTE || process.env.EMAIL_SUBJECT))] *)
Definition logNoteOnlyMode (env : Env) : bool :=
  truthy (env !! "TICKET_TITLE")
  && truthy (js_or (env !! "LOG_NOTE") (env !! "EMAIL_SUBJECT")).

(** What [run] resolves to: [{ success: true, ticketId }] or
    [{ success: false, error }]. *)
Inductive RunResult : Type :=
| Succeeded (ticketId : option string)
| Failed (error : exn).

Definition success (r : RunResult) : bool :=
  match r with
  | Succeeded _ => true
  | Failed _ => false
  end.

(** [s.split(sep)] for a one-character separator. *)
Fixpoint split_on (sep : ascii) (s : string) : list string :=
  match s with
  | EmptyString => [EmptyString]
  | String c rest =>
      if Ascii.eqb c sep then EmptyString :: split_on sep rest
      else match split_on sep rest with
           | [] => [String c EmptyString]
           | hd :: tl => String c hd :: tl
           end
  end.

(** [process.argv.find(arg => arg.startsWith('--subject='))?.split('=')[1]] *)
Definition subject_arg (argv : list string) : option string :=
  match List.find (String.prefix "--subject=") argv with
  | Some arg => nth_error (split_on "="%char arg) 1
  | None => None
  end.

(** [s.includes(sub)] *)
Fixpoint includes (s sub : string) : bool :=
  String.prefix sub s
  || match s with
     | EmptyString => false
     | String _ rest => includes rest sub
     end.

(** The double-quote character of the selectors. *)
Definition dq : string :=
  String (Ascii false true false false false true false false) EmptyString.

(** ** Playwright locators and the outside world *)

(** [page.locator(sel)], [l.first()], [l.locator(sel)] build a description
    of elements without touching the page; [l.all()] yields locators too. *)
Inductive Locator : Type :=
| page_locator (selector : string)
| locator_first (l : Locator)
| locator_locator (l : Locator) (selector : string)
| locator_nth (l : Locator) (i : nat).

(** How [init] ends: it rethrows what it catches, and [this.browser] is
    assigned as soon as [chromium.launch] has resolved. *)
Inductive init_outcome : Type :=
| InitOk
| InitThrewBeforeLaunch (e : exn)
| InitThrewAfterLaunch (e : exn).

(** What a selector chain did with one pattern: the [if] was not taken, the
    body ran to its [break], or the [catch] took over. *)
Inductive attempt : Type :=
| NotVisible
| Acted
| Caught (e : exn).

(** The methods of the class that [run] calls and whose boolean result it
    tests or reports. *)
Inductive Step : Type :=
| Login
| NavigateToProjects
| OpenTicketByTitle
| ClickCreate
| FillTicketForm
| SubmitTicket
| ClickOnCreatedTicket
| EditTicketDetails
| AddLogNote.

(** The calls an automation makes, in the order it makes them, with what
    was answered where the code branches on it. [Call_step s ok] is the
    return of step [s] with result [ok]. *)
Inductive Call : Type :=
| Call_init
| Call_step (s : Step) (ok : bool)
| Call_openTicketByTitle (searchTitle : string)
| Call_closePopupWithDiscard
| Call_captureScreenshot (name : string)
| Call_waitForTimeout (ms : Z) (answer : completion unit)
| Call_browser_close (answer : completion unit)
| Call_all (l : Locator) (answer : completion (list Locator))
| Call_isVisible (l : Locator) (answer : completion bool)
| Call_textContent (l : Locator) (answer : completion (option string))
| Call_scrollIntoViewIfNeeded (l : Locator) (answer : completion unit)
| Call_focus (l : Locator) (answer : completion unit)
| Call_fill (l : Locator) (text : string) (answer : completion unit)
| Call_type (l : Locator) (text : string) (answer : completion unit)
| Call_click (l : Locator) (answer : completion unit)
| Chain_attempt (selector : string) (a : attempt).

(** What the automation talks to. The methods of the class that drive the
    page through a whole step are wrapped in [try]/[catch] and return a
    boolean, so they cannot throw; [init], the calls on the page and
    [browser.close] can. *)
Class Outside (World : Type) : Type := {
  Date_now : World -> Z * World;
  uuidv4 : World -> string * World;
  String_toLowerCase : string -> string;
  JSON_stringify : string -> string;
  (* Playwright *)
  page_waitForTimeout : Z -> M World unit;
  browser_close : M World unit;
  locator_all : Locator -> M World (list Locator);
  locator_isVisible : Locator -> M World bool;
  locator_textContent : Locator -> M World (option string);
  locator_scrollIntoViewIfNeeded : Locator -> M World unit;
  locator_focus : Locator -> M World unit;
  locator_fill : Locator -> string -> M World unit;
  locator_type : Locator -> string -> M World unit;
  locator_click : Locator -> M World unit;
  (* methods of the class *)
  init : World -> init_outcome * World;
  login : World -> bool * World;
  navigateToProjects : World -> bool * World;
  clickCreate : World -> bool * World;
  fillTicketForm : TicketDetails -> World -> bool * World;
  (** the second component is the assignment to [this.ticketId], if any *)
  submitTicket : World -> (bool * option (option string)) * World;
  closePopupWithDiscard : World -> bool * World;
  clickOnCreatedTicket : TicketDetails -> World -> bool * World;
  editTicketDetails : TicketDetails -> World -> bool * World;
  addLogNote : TicketDetails -> World -> bool * World;
  captureScreenshot : string -> World -> World
}.

Section Automation.
Context {World : Type} `{Outside World}.

(** An automation object at work: the world it acts on, the fields of
    [this] that [run] reads, the module's [CONFIG.ticketDetails] and the
    calls made so far. *)
Record Automation : Type := {
  world : World;
  this_browser : bool;
  this_ticketId : option string;
  CONFIG : TicketDetails;
  calls : list Call
}.

Definition set_world (w : World) (a : Automation) : Automation :=
  {| world := w; this_browser := this_browser a; this_ticketId := this_ticketId a;
     CONFIG := CONFIG a; calls := calls a |}.

Definition set_browser (b : bool) (a : Automation) : Automation :=
  {| world := world a; this_browser := b; this_ticketId := this_ticketId a;
     CONFIG := CONFIG a; calls := calls a |}.

Definition set_ticketId (t : option string) (a : Automation) : Automation :=
  {| world := world a; this_browser := this_browser a; this_ticketId := t;
     CONFIG := CONFIG a; calls := calls a |}.

Definition set_CONFIG (c : TicketDetails) (a : Automation) : Automation :=
  {| world := world a; this_browser := this_browser a; this_ticketId := this_ticketId a;
     CONFIG := c; calls := calls a |}.

Definition record_call (c : Call) (a : Automation) : Automation :=
  {| world := world a; this_browser := this_browser a; this_ticketId := this_ticketId a;
     CONFIG := CONFIG a; calls := calls a ++ [c] |}.

(** [new EOXSPlaywrightAutomationWithLog()] *)
Definition constructor (env : Env) (config : TicketDetails) (w : World) : Automation :=
  {| world := w; this_browser := false; this_ticketId := None;
     CONFIG := updateTicketDetailsFromEnv env config; calls := [] |}.

(** A call of a method that returns without throwing; [c] records what
    it returned. *)
Definition call {A} (c : A -> Call) (f : World -> A * World) : M Automation A :=
  fun a => match f (world a) with
           | (r, w) => (Normal r, set_world w (record_call (c r) a))
           end.

(** A call of one of the steps. *)
Definition step (s : Step) (f : World -> bool * World) : M Automation bool :=
  call (Call_step s) f.

(** A call on the page, which may throw; [c] records its answer. *)
Definition page_call {A} (c : completion A -> Call) (f : M World A) : M Automation A :=
  fun a => match f (world a) with
           | (r, w) => (r, set_world w (record_call (c r) a))
           end.

Definition waitForTimeout (ms : Z) : M Automation unit :=
  page_call (Call_waitForTimeout ms) (page_waitForTimeout ms).

Definition all (l : Locator) : M Automation (list Locator) :=
  page_call (Call_all l) (locator_all l).

Definition isVisible (l : Locator) : M Automation bool :=
  page_call (Call_isVisible l) (locator_isVisible l).

Definition textContent (l : Locator) : M Automation (option string) :=
  page_call (Call_textContent l) (locator_textContent l).

Definition scrollIntoViewIfNeeded (l : Locator) : M Automation unit :=
  page_call (Call_scrollIntoViewIfNeeded l) (locator_scrollIntoViewIfNeeded l).

Definition focus (l : Locator) : M Automation unit :=
  page_call (Call_focus l) (locator_focus l).

Definition fill (l : Locator) (text : string) : M Automation unit :=
  page_call (Call_fill l text) (locator_fill l text).

Definition type (l : Locator) (text : string) : M Automation unit :=
  page_call (Call_type l text) (locator_type l text).

Definition click (l : Locator) : M Automation unit :=
  page_call (Call_click l) (locator_click l).

Definition call_init : M Automation unit :=
  fun a => match init (world a) with
           | (InitOk, w) => (Normal tt, set_browser true (set_world w (record_call Call_init a)))
           | (InitThrewBeforeLaunch e, w) => (Throw e, set_world w (record_call Call_init a))
           | (InitThrewAfterLaunch e, w) =>
               (Throw e, set_browser true (set_world w (record_call Call_init a)))
           end.

Definition call_submitTicket : M Automation bool :=
  let! r := call (fun r => Call_step SubmitTicket (fst r)) submitTicket in
  match r with
  | (ok, Some t) => do! modify (set_ticketId t) in ret ok
  | (ok, None) => ret ok
  end.

Definition call_captureScreenshot (name : string) : M Automation unit :=
  call (fun _ => Call_captureScreenshot name) (fun w => (tt, captureScreenshot name w)).

(** *** Helpers of the class *)

Definition clearAndType (selector text : string) : M Automation unit :=
  try_catch
    (let element := locator_first (page_locator selector) in
     do! scrollIntoViewIfNeeded element in
     do! focus element in
     do! fill element "" in
     type element text)
    (fun error => throw error).

Definition clickElement (selector : string) : M Automation bool :=
  try_catch
    (let element := locator_first (page_locator selector) in
     do! scrollIntoViewIfNeeded element in
     do! click element in
     ret true)
    (fun _ => ret false).

Definition updateDescriptionFromEmail (emailSubject : string) : M Automation unit :=
  modify (fun a => set_CONFIG (set_description emailSubject (CONFIG a)) a).

(** *** Selector chains of [login]

    [for (const selector of selectors) {
       try { if (await this.page.locator(selector).first().isVisible(..)) {
               await action(selector); flag = true; break; } }
       catch (error) { continue; } }]

    The result is the flag. *)
Fixpoint selector_chain (action : string -> M Automation unit) (selectors : list string)
    : M Automation bool :=
  match selectors with
  | [] => ret false
  | selector :: rest =>
      let! a :=
        try_catch
          (let! visible := isVisible (locator_first (page_locator selector)) in
           if visible then do! action selector in ret Acted else ret NotVisible)
          (fun error => ret (Caught error)) in
      do! modify (record_call (Chain_attempt selector a)) in
      match a with
      | Acted => ret true
      | _ => selector_chain action rest
      end
  end.

Definition CONFIG_selectors_emailInput : string :=
  "#loginRegisterPopup input#login, #loginRegisterPopup input[name=" ++ dq ++ "login" ++ dq
  ++ "], input#login, input[name=" ++ dq ++ "login" ++ dq ++ "], input[type=" ++ dq ++ "email"
  ++ dq ++ "], input[name=" ++ dq ++ "email" ++ dq ++ "], input[placeholder*=" ++ dq ++ "email"
  ++ dq ++ " i]".

Definition emailSelectors : list string :=
  [ "input#login";
    "input[name=" ++ dq ++ "login" ++ dq ++ "]";
    "input[type=" ++ dq ++ "email" ++ dq ++ "]";
    "input[name=" ++ dq ++ "email" ++ dq ++ "]";
    CONFIG_selectors_emailInput ].

Definition CONFIG_selectors_passwordInput : string :=
  "#loginRegisterPopup input#password, input#password, input[type=" ++ dq ++ "password" ++ dq
  ++ "], input[name=" ++ dq ++ "password" ++ dq ++ "]".

Definition passwordSelectors : list string :=
  [ "input#password";
    "input[type=" ++ dq ++ "password" ++ dq ++ "]";
    "input[name=" ++ dq ++ "password" ++ dq ++ "]";
    CONFIG_selectors_passwordInput ].

(** [login], the block that fills the email field: it throws when the
    chain leaves [emailFilled] false. *)
Definition login_fillEmail (email : string) : M Automation unit :=
  let! emailFilled := selector_chain (fun selector => clearAndType selector email) emailSelectors in
  if negb emailFilled then throw "Could not find or fill email field" else ret tt.

Definition login_fillPassword (password : string) : M Automation unit :=
  let! passwordFilled :=
    selector_chain (fun selector => clearAndType selector password) passwordSelectors in
  if negb passwordFilled then throw "Could not find or fill password field" else ret tt.

(** *** [openTicketByTitle] *)

Definition openTicketByTitle_selectors (searchTitle : string) : list string :=
  [ ".o_kanban_record:has(:text(" ++ dq ++ searchTitle ++ dq ++ "))";
    ".kanban-card:has(:text(" ++ dq ++ searchTitle ++ dq ++ "))";
    ".task-card:has(:text(" ++ dq ++ searchTitle ++ dq ++ "))";
    ".card:has(:text(" ++ dq ++ searchTitle ++ dq ++ "))";
    "xpath=//div[contains(@class,'o_kanban_record')][.//text()[contains(., "
      ++ JSON_stringify searchTitle ++ ")]]";
    "text=" ++ searchTitle ].

(** The block run on a candidate whose text contains the title: click it,
    wait for the detail view, click once more if the form is not shown. *)
Definition openTicket_open (candidate : Locator) : M Automation bool :=
  do! scrollIntoViewIfNeeded candidate in
  do! click candidate in
  do! waitForTimeout 3000 in
  let! inDetail :=
    try_catch (isVisible (locator_first (page_locator ".o_form_view")))
              (fun _ => ret false) in
  do! (if negb inDetail
       then try_catch
              (do! click (locator_first
                            (locator_locator candidate
                               "a, .oe_kanban_global_click, .o_kanban_record")) in
               waitForTimeout 2000)
              (fun _ => ret tt)
       else ret tt) in
  ret true.

(** The inner loop over the candidates of one selector; [true] is the
    [return true] of the function, [false] the end of the loop. *)
Fixpoint openTicket_candidates (searchTitle : string) (candidates : list Locator)
    : M Automation bool :=
  match candidates with
  | [] => ret false
  | candidate :: rest =>
      let! content := textContent candidate in
      let text := default "" content in
      if String.eqb text "" then openTicket_candidates searchTitle rest
      else if includes (String_toLowerCase text) (String_toLowerCase searchTitle)
      then openTicket_open candidate
      else openTicket_candidates searchTitle rest
  end.

Fixpoint openTicket_selectors (searchTitle : string) (selectors : list string)
    : M Automation bool :=
  match selectors with
  | [] => ret false
  | selector :: rest =>
      let! found :=
        try_catch
          (let! candidates := all (page_locator selector) in
           if Nat.eqb (length candidates) 0 then ret false
           else openTicket_candidates searchTitle candidates)
          (fun _ => ret false) in
      if found then ret true else openTicket_selectors searchTitle rest
  end.

Definition openTicketByTitle (searchTitle : string) : M Automation bool :=
  do! modify (record_call (Call_openTicketByTitle searchTitle)) in
  let! opened :=
    try_catch
      (do! waitForTimeout 2000 in
       openTicket_selectors searchTitle (openTicketByTitle_selectors searchTitle))
      (fun _ => ret false) in
  do! modify (record_call (Call_step OpenTicketByTitle opened)) in
  ret opened.

(** *** [run] *)

(** The log-note-only branch of the [try] block. *)
Definition run_logNoteOnly : M Automation RunResult :=
  let! config := gets CONFIG in
  let! opened := openTicketByTitle (title config) in
  if negb opened then
    let! config := gets CONFIG in
    throw ("Ticket not found: " ++ title config)
  else
  do! call_captureScreenshot "after_open_existing_ticket" in
  let! config := gets CONFIG in
  let! added := step AddLogNote (addLogNote config) in
  if negb added then throw "Failed to add log note" else
  do! call_captureScreenshot "after_log_note" in
  ret (Succeeded None).

(** The default flow: create the ticket, edit it and add the log note. *)
Definition run_default : M Automation RunResult :=
  let! createSuccess := step ClickCreate clickCreate in
  if negb createSuccess then throw "Failed to click Create" else
  do! call_captureScreenshot "after_create" in
  let! config := gets CONFIG in
  let! formSuccess := step FillTicketForm (fillTicketForm config) in
  if negb formSuccess then throw "Failed to fill ticket form" else
  do! call_captureScreenshot "after_form_fill" in
  let! submitSuccess := call_submitTicket in
  if negb submitSuccess then throw "Failed to submit ticket" else
  do! call_captureScreenshot "after_submit" in
  let! _ := call (fun _ => Call_closePopupWithDiscard) closePopupWithDiscard in
  do! waitForTimeout 3000 in
  let! config := gets CONFIG in
  let! ticketClickSuccess := step ClickOnCreatedTicket (clickOnCreatedTicket config) in
  if negb ticketClickSuccess then throw "Failed to click on created ticket" else
  let! config := gets CONFIG in
  let! editSuccess := step EditTicketDetails (editTicketDetails config) in
  do! call_captureScreenshot "after_ticket_edit" in
  let! config := gets CONFIG in
  let! logNoteSuccess := step AddLogNote (addLogNote config) in
  do! call_captureScreenshot "after_log_note" in
  let! ticketId := gets this_ticketId in
  if truthy ticketId then ret (Succeeded ticketId) else ret (Succeeded None).

(** The [try] block. [process.env] and [process.argv] are read after
    [init] has resolved. *)
Definition run_try (env : Env) (argv : list string) : M Automation RunResult :=
  do! call_init in
  let emailSubject := js_or (env !! "EMAIL_SUBJECT") (subject_arg argv) in
  do! match emailSubject with
      | Some s => if truthy emailSubject then updateDescriptionFromEmail s else ret tt
      | None => ret tt
      end in
  let! config := gets CONFIG in
  let providedTicketTitle := js_or_str (env !! "TICKET_TITLE") (title config) in
  let providedLogNote :=
    js_or_str (js_or (env !! "LOG_NOTE") (env !! "EMAIL_SUBJECT")) (logNote config) in
  do! (if logNoteOnlyMode env
       then modify (fun a =>
              set_CONFIG (set_logNote providedLogNote
                            (set_title providedTicketTitle (CONFIG a))) a)
       else ret tt) in
  let! loginSuccess := step Login login in
  if negb loginSuccess then throw "Login failed" else
  do! call_captureScreenshot "after_login" in
  let! projectsSuccess := step NavigateToProjects navigateToProjects in
  if negb projectsSuccess
  then throw "Failed to navigate to Projects and select Test Support" else
  do! call_captureScreenshot "after_test_support_selection" in
  if logNoteOnlyMode env then run_logNoteOnly else run_default.

(** [async run() { try { ... } catch (error) { ... } finally { ... } }] *)
Definition run (env : Env) (argv : list string) : M Automation RunResult :=
  try_finally
    (try_catch (run_try env argv)
       (fun error =>
          do! call_captureScreenshot "error" in
          ret (Failed error)))
    (let! browser := gets this_browser in
     if browser
     then page_call Call_browser_close browser_close
     else ret tt).

End Automation.

Arguments Automation World : clear implicits.

(** ** [closePopupWithDiscard], call by call *)

(** The keyboard of the page. *)
Class Keyboard (World : Type) : Type := {
  keyboard_press : string -> M World unit
}.

Section ClosePopup.
Context {World : Type} `{Outside World} `{Keyboard World}.

(** A call on the page that the log of calls does not record. *)
Definition on_page {A} (f : M World A) : M (Automation World) A :=
  fun a => match f (world a) with
           | (r, w) => (r, set_world w a)
           end.

Definition discardSelectors : list string :=
  [ "text=Discard";
    "button[data-dismiss=" ++ dq ++ "modal" ++ dq ++ "]";
    ".modal-footer button";
    "text=Cancel";
    "text=Close" ].

(** The loop over the selectors; [true] is the [return true] of the
    function, [false] the end of the loop. The result of [clickElement]
    is not looked at. *)
Fixpoint discard_loop (selectors : list string) : M (Automation World) bool :=
  match selectors with
  | [] => ret false
  | selector :: rest =>
      let! returned :=
        try_catch
          (let! visible := isVisible (locator_first (page_locator selector)) in
           if visible
           then let! _ := clickElement selector in
                do! waitForTimeout 1000 in
                ret true
           else ret false)
          (fun _ => ret false) in
      if returned then ret true else discard_loop rest
  end.

(** The body of [closePopupWithDiscard]:
    [try { for (..) { .. }
           try { await this.page.keyboard.press('Escape'); .. return true; }
           catch (error) { return false; } }
     catch (error) { return false; }].
    [run] reaches the method through the outside world; this is what it
    does on the page. *)
Definition closePopupWithDiscard_body : M (Automation World) bool :=
  try_catch
    (let! returned := discard_loop discardSelectors in
     if returned then ret true
     else try_catch
            (do! on_page (keyboard_press "Escape") in
             do! waitForTimeout 1000 in
             ret true)
            (fun _ => ret false))
    (fun _ => ret false).

End ClosePopup.

(** ** The server *)

(** A job record of the in-memory store. [createdAt] and [completedAt] are
    instants in milliseconds since the epoch, which [toISOString] renders
    and [new Date(..)] reads back; [None] is [null]. *)
Record Job : Type := {
  id : string;
  status : string;
  createdAt : Z;
  result : option RunResult;
  completedAt : option Z
}.

Inductive ResponseBody : Type :=
(** [{ accepted: true, message: 'Automation started', jobId, statusUrl, timestamp }] *)
| Body_accepted (jobId statusUrl : string) (timestamp : Z)
(** [{ success, data, timestamp }] *)
| Body_finished (success : bool) (data : RunResult) (timestamp : Z)
(** [{ success: false, error, timestamp }] *)
| Body_error (error : exn) (timestamp : Z)
(** [{ success: false, error: 'Job not found', jobId }] *)
| Body_notFound (jobId : string)
(** [{ jobId, status, result, createdAt, completedAt, duration }] *)
| Body_status (jobId status : string) (result : option RunResult)
    (createdAt : Z) (completedAt : option Z) (duration : option QArith_base.Q).

Record Response : Type := {
  statusCode : Z;
  json : ResponseBody
}.

(** The [success] and [error] fields of a response body, when it has them. *)
Definition body_success (b : ResponseBody) : option bool :=
  match b with
  | Body_finished ok _ _ => Some ok
  | Body_error _ _ => Some false
  | Body_notFound _ => Some false
  | Body_accepted _ _ _ | Body_status _ _ _ _ _ _ => None
  end.

Definition body_error (b : ResponseBody) : option string :=
  match b with
  | Body_error e _ => Some e
  | Body_notFound _ => Some "Job not found"
  | _ => None
  end.

(** What a handler does that can be observed, in order.
    [Ev_env_assign key value] is the statement [process.env[key] = value]
    with the key and the string it was executed with; what it stores is
    [env_set]. *)
Inductive Event : Type :=
| Ev_env_assign (key value : string)
| Ev_env_restore (originalEnv : Env)
| Ev_new (env : Env)
| Ev_run (env : Env) (calls : list Call) (outcome : completion RunResult)
| Ev_jobs_set (jobId : string) (job : Job)
| Ev_background (jobId : string)
| Ev_respond (r : Response).

Section Server.
Context {World : Type} `{Outside World}.
Context {number : Type}.
Variable Number_toString : number -> string.

(** The process: [process.env] and whether it is still the object Node
    started with (it is until the handler assigns a snapshot, a plain
    object, to it), [process.argv], the automation module's
    [CONFIG.ticketDetails], the world outside, the job objects (by address),
    the [jobs] map from job id to job object, and the background closures
    that still await their [run()], each with its job object and its
    automation object. *)
Record Server : Type := {
  process_env : Env;
  env_native : bool;
  process_argv : list string;
  config : TicketDetails;
  outside : World;
  heap : list Job;
  jobs : gmap string nat;
  background : list (nat * Automation World);
  events : list Event
}.

Definition set_process_env (e : Env) (s : Server) : Server :=
  {| process_env := e; env_native := env_native s;
     process_argv := process_argv s; config := config s;
     outside := outside s; heap := heap s; jobs := jobs s;
     background := background s; events := events s |}.

Definition set_config (c : TicketDetails) (s : Server) : Server :=
  {| process_env := process_env s; env_native := env_native s;
     process_argv := process_argv s; config := c;
     outside := outside s; heap := heap s; jobs := jobs s;
     background := background s; events := events s |}.

Definition set_outside (w : World) (s : Server) : Server :=
  {| process_env := process_env s; env_native := env_native s;
     process_argv := process_argv s; config := config s;
     outside := w; heap := heap s; jobs := jobs s;
     background := background s; events := events s |}.

Definition set_heap (h : list Job) (s : Server) : Server :=
  {| process_env := process_env s; env_native := env_native s;
     process_argv := process_argv s; config := config s;
     outside := outside s; heap := h; jobs := jobs s;
     background := background s; events := events s |}.

Definition set_jobs (j : gmap string nat) (s : Server) : Server :=
  {| process_env := process_env s; env_native := env_native s;
     process_argv := process_argv s; config := config s;
     outside := outside s; heap := heap s; jobs := j;
     background := background s; events := events s |}.

Definition set_background (b : list (nat * Automation World)) (s : Server) : Server :=
  {| process_env := process_env s; env_native := env_native s;
     process_argv := process_argv s; config := config s;
     outside := outside s; heap := heap s; jobs := jobs s;
     background := b; events := events s |}.

Definition emit (e : Event) (s : Server) : Server :=
  {| process_env := process_env s; env_native := env_native s;
     process_argv := process_argv s; config := config s;
     outside := outside s; heap := heap s; jobs := jobs s;
     background := background s; events := events s ++ [e] |}.

(** [new Date().toISOString()] *)
Definition now : M Server Z :=
  fun s => match Date_now (outside s) with
           | (t, w) => (Normal t, set_outside w s)
           end.

Definition new_uuid : M Server string :=
  fun s => match uuidv4 (outside s) with
           | (u, w) => (Normal u, set_outside w s)
           end.

(** [process.env[key] = value] *)
Definition env_assign (key value : string) : M Server unit :=
  modify (fun s => emit (Ev_env_assign key value)
                     (set_process_env (env_set (env_native s) key value (process_env s)) s)).

(** [process.env = originalEnv]: from now on [process.env] is the snapshot,
    a plain object. *)
Definition env_restore (originalEnv : Env) : M Server unit :=
  modify (fun s => emit (Ev_env_restore originalEnv)
                     {| process_env := originalEnv; env_native := false;
                        process_argv := process_argv s; config := config s;
                        outside := outside s; heap := heap s; jobs := jobs s;
                        background := background s; events := events s |}).

(** [res.status(code).json(body)] *)
Definition respond (code : Z) (b : ResponseBody) : M Server unit :=
  modify (emit (Ev_respond {| statusCode := code; json := b |})).

(** [new EOXSPlaywrightAutomationWithLog()]: the constructor rewrites the
    module's [CONFIG.ticketDetails] from [process.env]. *)
Definition new_automation : M Server (Automation World) :=
  fun s =>
    let a := constructor (process_env s) (config s) (outside s) in
    (Normal a, emit (Ev_new (process_env s)) (set_config (CONFIG a) s)).

(** [await automation.run()]: the object keeps its own fields, the world
    and [CONFIG] are the process's. *)
Definition await_run (automation : Automation World) : M Server RunResult :=
  fun s =>
    let a := set_world (outside s) (set_CONFIG (config s) automation) in
    match run (process_env s) (process_argv s) a with
    | (c, a') =>
        (c, emit (Ev_run (process_env s) (calls a') c)
              (set_outside (world a') (set_config (CONFIG a') s)))
    end.

(** [jobs.get(jobId)] *)
Definition jobs_get (jobId : string) (s : Server) : option Job :=
  match jobs s !! jobId with
  | Some l => heap s !! l
  | None => None
  end.

(** [const job = {...}; jobs.set(jobId, job)]; the address of the new
    object is returned. *)
Definition jobs_set_new (jobId : string) (job : Job) : M Server nat :=
  fun s =>
    let l := length (heap s) in
    (Normal l, emit (Ev_jobs_set jobId job)
                 (set_jobs (<[jobId := l]> (jobs s)) (set_heap (heap s ++ [job]) s))).

(** The async closure of the background branch up to its [await]: the
    automation object is constructed and its [run()] is pending. *)
Definition start_background (jobId : string) (l : nat) : M Server unit :=
  let! automationBg := new_automation in
  modify (fun s => emit (Ev_background jobId)
                     (set_background (background s ++ [(l, automationBg)]) s)).

(** [GET /status/:jobId] *)
Definition get_status (jobId : string) : M Server unit :=
  let! job := gets (jobs_get jobId) in
  match job with
  | None => respond 404 (Body_notFound jobId)
  | Some job =>
      respond 200
        (Body_status jobId (status job) (result job) (createdAt job) (completedAt job)
           match completedAt job with
           | Some completed => Some (QArith_base.Qmake (completed - createdAt job) 1000)
           | None => None
           end)
  end.

(** The callback of [Object.keys(req.body).forEach]. *)
Definition set_from_body (body : object number) (key : string) : M Server unit :=
  if negb (is_nullish (obj_get body key))
  then let! s := String_ Number_toString (obj_get body key) in env_assign key s
  else ret tt.

(** [if (process.env.NODE_ENV === 'production') process.env.HEADLESS = 'true'] *)
Definition ensure_headless : M Server unit :=
  let! env := gets process_env in
  if decide (env !! "NODE_ENV" = Some "production")
  then env_assign "HEADLESS" "true"
  else ret tt.

(** [String(req.body.waitForResponse ?? 'true') === 'true'] *)
Definition waitForResponse (body : object number) : M Server bool :=
  let! s := String_ Number_toString
              (nullish_coalesce (obj_get body "waitForResponse") (VStr "true")) in
  ret (String.eqb s "true").

(** The statements of the [try] block of [POST /automate]. *)
Definition automate_try (body : object number) : M Server unit :=
  let! originalEnv := gets process_env in
  do! forEach (Object_keys body) (set_from_body body) in
  do! ensure_headless in
  let! waitForResponse := waitForResponse body in
  if negb waitForResponse then
    let! jobId := new_uuid in
    let! created := now in
    let job := {| id := jobId; status := "running"; createdAt := created;
                  result := None; completedAt := None |} in
    let! l := jobs_set_new jobId job in
    do! start_background jobId l in
    let! timestamp := now in
    respond 202 (Body_accepted jobId ("/status/" ++ jobId) timestamp)
  else
    let! automation := new_automation in
    let! result := await_run automation in
    do! env_restore originalEnv in
    let! timestamp := now in
    respond 200 (Body_finished (success result) result timestamp).

(** [POST /automate]. In the [catch] block [originalEnv] is not in scope
    (it is a [const] of the [try] block), so [typeof originalEnv] is
    ['undefined'] and the guarded assignment to [process.env] is skipped. *)
Definition automate (body : object number) : M Server unit :=
  try_catch (automate_try body)
    (fun error =>
       let! timestamp := now in
       respond 500 (Body_error error timestamp)).

(** [job.status = st; job.result = r; job.completedAt = t] on the job
    object at address [l]. *)
Definition settle_job (st : string) (r : RunResult) (t : Z) (j : Job) : Job :=
  {| id := id j; status := st; createdAt := createdAt j;
     result := Some r; completedAt := Some t |}.

(** The rest of the async closure, once [run()] has settled:
    [try { const result = await automationBg.run(); job.status = 'completed'; ... }
     catch (error) { job.status = 'failed'; ... }] *)
Definition finish_background (l : nat) (automationBg : Automation World) : M Server unit :=
  try_catch
    (let! result := await_run automationBg in
     let! completed := now in
     modify (fun s => set_heap (alter (settle_job "completed" result completed) l (heap s)) s))
    (fun error =>
       let! completed := now in
       modify (fun s =>
         set_heap (alter (settle_job "failed" (Failed error) completed) l (heap s)) s)).

(** The event loop resumes the [i]-th pending closure. *)
Definition resume_background (i : nat) : M Server unit :=
  let! pending := gets background in
  match pending !! i with
  | Some (l, automationBg) =>
      do! modify (fun s => set_background (delete i (background s)) s) in
      finish_background l automationBg
  | None => ret tt
  end.

End Server.

Arguments Server World : clear implicits.

(** ** A scripted world

    A world whose answers are fixed in advance, to run the model on
    concrete requests and pages. Only the clock moves. *)

Record Script : Type := {
  script_clock : Z;
  script_uuid : string;
  script_init : init_outcome;
  script_step : Step -> bool;
  script_ticketId : option (option string);
  script_wait : completion unit;
  script_close : completion unit;
  script_all : Locator -> completion (list Locator);
  script_visible : Locator -> completion bool;
  script_text : Locator -> completion (option string);
  script_fill : Locator -> completion unit;
  script_click : Locator -> completion unit
}.

Definition tick (w : Script) : Script :=
  {| script_clock := script_clock w + 1; script_uuid := script_uuid w;
     script_init := script_init w; script_step := script_step w;
     script_ticketId := script_ticketId w; script_wait := script_wait w;
     script_close := script_close w; script_all := script_all w;
     script_visible := script_visible w; script_text := script_text w;
     script_fill := script_fill w; script_click := script_click w |}.

#[export] Instance Script_Outside : Outside Script := {|
  Date_now w := (script_clock w, tick w);
  uuidv4 w := (script_uuid w, w);
  String_toLowerCase s := s;
  JSON_stringify s := dq ++ s ++ dq;
  page_waitForTimeout _ w := (script_wait w, w);
  browser_close w := (script_close w, w);
  locator_all l w := (script_all w l, w);
  locator_isVisible l w := (script_visible w l, w);
  locator_textContent l w := (script_text w l, w);
  locator_scrollIntoViewIfNeeded _ w := (Normal tt, w);
  locator_focus _ w := (Normal tt, w);
  locator_fill l _ w := (script_fill w l, w);
  locator_type _ _ w := (Normal tt, w);
  locator_click l w := (script_click w l, w);
  init w := (script_init w, w);
  login w := (script_step w Login, w);
  navigateToProjects w := (script_step w NavigateToProjects, w);
  clickCreate w := (script_step w ClickCreate, w);
  fillTicketForm _ w := (script_step w FillTicketForm, w);
  submitTicket w := ((script_step w SubmitTicket, script_ticketId w), w);
  closePopupWithDiscard w := (true, w);
  clickOnCreatedTicket _ w := (script_step w ClickOnCreatedTicket, w);
  editTicketDetails _ w := (script_step w EditTicketDetails, w);
  addLogNote _ w := (script_step w AddLogNote, w);
  captureScreenshot _ w := w
|}.

(** Pressing a key on the scripted page always completes. *)
#[export] Instance Script_Keyboard : Keyboard Script := {|
  keyboard_press _ w := (Normal tt, w)
|}.

(** A page on which every step succeeds and nothing throws. *)
Definition calm : Script := {|
  script_clock := 1000;
  script_uuid := "3b241101-e2bb-4255-8caf-4136c566a962";
  script_init := InitOk;
  script_step := fun _ => true;
  script_ticketId := None;
  script_wait := Normal tt;
  script_close := Normal tt;
  script_all := fun _ => Normal [];
  script_visible := fun _ => Normal false;
  script_text := fun _ => Normal None;
  script_fill := fun _ => Normal tt;
  script_click := fun _ => Normal tt
|}.

(** A freshly started server. *)
Definition boot {World : Type} (env : Env) (argv : list string) (w : World) : Server World := {|
  process_env := env;
  env_native := true;
  process_argv := argv;
  config := CONFIG_ticketDetails;
  outside := w;
  heap := [];
  jobs := ∅;
  background := [];
  events := []
|}.

(** The scripted world prints integers only. *)
Definition show_Z (z : Z) : string := pretty z.


(** ** What the statements below are phrased with *)

Section Vocabulary.
Context {World : Type} `{Outside World}.
Context {number : Type}.
Variable Number_toString : number -> string.

(** The events a handler appended, given the states before and after. *)
Definition emitted (s s' : Server World) : list Event :=
  drop (length (events s)) (events s').

(** The calls an automation appended. *)
Definition called (a a' : Automation World) : list Call :=
  drop (length (calls a)) (calls a').

(** The assignments [Object.keys(req.body).forEach(...)] performs on the
    keys [keys], in order, and whether it gets through all of them. *)
Fixpoint assignments (body : object number) (keys : list string)
    : list (string * string) * bool :=
  match keys with
  | [] => ([], true)
  | key :: rest =>
      if is_nullish (obj_get body key) then assignments body rest
      else match js_String Number_toString (obj_get body key) with
           | Some str =>
               match assignments body rest with
               | (l, done) => ((key, str) :: l, done)
               end
           | None => ([], false)
           end
  end.

Definition assigns (l : list (string * string)) : list Event :=
  map (fun kv => Ev_env_assign (fst kv) (snd kv)) l.

(** The assignment [ensure_headless] performs, if any. *)
Definition headless_events (env : Env) : list Event :=
  if decide (env !! "NODE_ENV" = Some "production")
  then [Ev_env_assign "HEADLESS" "true"]
  else [].

(** The value of [waitForResponse] in the handler, when [String] does not
    throw. *)
Definition wants_blocking (body : object number) : option bool :=
  match js_String Number_toString
          (nullish_coalesce (obj_get body "waitForResponse") (VStr "true")) with
  | Some str => Some (String.eqb str "true")
  | None => None
  end.

Fixpoint assign_all (l : list (string * string)) (s : Server World) : Server World :=
  match l with
  | [] => s
  | (key, str) :: rest =>
      assign_all rest
        (emit (Ev_env_assign key str)
           (set_process_env (env_set (env_native s) key str (process_env s)) s))
  end.

(** [process.env] after the assignments recorded in a list of events,
    executed on Node's own object ([native]) or on a plain one. *)
Definition replay (native : bool) (evs : list Event) (env : Env) : Env :=
  fold_left (fun e ev => match ev with
                         | Ev_env_assign key str => env_set native key str e
                         | _ => e
                         end) evs env.

Definition responses (evs : list Event) : list Response :=
  omap (fun ev => match ev with Ev_respond r => Some r | _ => None end) evs.

Definition is_restore (ev : Event) : bool :=
  match ev with Ev_env_restore _ => true | _ => false end.

Definition is_run (ev : Event) : bool :=
  match ev with Ev_run _ _ _ => true | _ => false end.

Definition is_new (ev : Event) : bool :=
  match ev with Ev_new _ => true | _ => false end.

(** [String] throws on none of the values the body has under [keys]. *)
Definition printable (body : object number) (keys : list string) : Prop :=
  forall key, key ∈ keys -> is_Some (js_String Number_toString (obj_get body key)).

(** The loop assigns the value the body has under [key], and the
    assignment stores under [name]. *)
Definition stores (native : bool) (body : object number) (key name : string) : Prop :=
  is_nullish (obj_get body key) = false /\ env_key native key = Some name.

(** [req.body.waitForResponse] is [undefined], is [null], or has the string
    form ['true']. *)
Definition flag_absent_or_true (body : object number) : Prop :=
  let v := obj_get body "waitForResponse" in
  v = VUndefined \/ v = VNull \/ js_String Number_toString v = Some "true".

(** After the loop over the body, every key whose value is neither
    [undefined] nor [null] has the string form of that value as its entry
    of [process.env]. *)
Definition body_is_in_env (body : object number) (s : Server World) : Prop :=
  let s1 := snd (forEach (Object_keys body) (set_from_body Number_toString body) s) in
  forall key, key ∈ Object_keys body -> is_nullish (obj_get body key) = false ->
    exists str, js_String Number_toString (obj_get body key) = Some str
                /\ process_env s1 !! key = Some str.

(** The handler awaits [run()] exactly when the flag is absent, [null] or
    ['true'], and answers 202 for every other flag. *)
Definition mode_follows_flag (body : object number) (s : Server World) : Prop :=
  let s' := snd (automate Number_toString body s) in
  ((exists env cs outcome, In (Ev_run env cs outcome) (emitted s s'))
   <-> flag_absent_or_true body)
  /\ (¬ flag_absent_or_true body ->
      exists jobId t,
        responses (emitted s s') =
          [{| statusCode := 202; json := Body_accepted jobId ("/status/" ++ jobId) t |}]).

(** A request whose flag evaluates to background mode is answered 202 with
    the id of a stored job. *)
Definition background_is_accepted (body : object number) (s : Server World) : Prop :=
  let s' := snd (automate Number_toString body s) in
  wants_blocking body = Some false ->
  exists jobId t,
    responses (emitted s s') =
      [{| statusCode := 202; json := Body_accepted jobId ("/status/" ++ jobId) t |}]
    /\ is_Some (jobs_get jobId s').

(** What [POST /automate] does to the process, case by case: the loop
    over the body throws; [run()] rejects on the blocking path; the
    blocking path completes; the background path. *)
Inductive automate_spec (body : object number) (s s' : Server World) : Prop :=
| automate_loop_threw l t
    (Hloop : assignments body (Object_keys body) = (l, false))
    (Htry : fst (automate_try Number_toString body s) = Throw TypeError_toPrimitive)
    (Hev : emitted s s' =
           (assigns l ++ [Ev_respond {| statusCode := 500;
                                        json := Body_error TypeError_toPrimitive t |}])%list)
    (Henv : process_env s' = replay (env_native s) (assigns l) (process_env s))
    (Hnative : env_native s' = env_native s)
    (Hheap : heap s' = heap s) (Hjobs : jobs s' = jobs s)
    (Hbg : background s' = background s)
| automate_run_threw l env' cs e a' t
    (Hloop : assignments body (Object_keys body) = (l, true))
    (Hmode : wants_blocking body = Some true)
    (Htry : fst (automate_try Number_toString body s) = Throw e)
    (Henv' : env' = replay (env_native s)
                      (assigns l ++ headless_events
                                      (replay (env_native s) (assigns l) (process_env s)))
                      (process_env s))
    (Hrun : run env' (process_argv s) (constructor env' (config s) (outside s))
            = (Throw e, a'))
    (Hcalled : cs = calls a')
    (Hev : emitted s s' =
           (assigns l ++ headless_events (replay (env_native s) (assigns l) (process_env s))
            ++ [Ev_new env'; Ev_run env' cs (Throw e);
                Ev_respond {| statusCode := 500; json := Body_error e t |}])%list)
    (Henv : process_env s' = env')
    (Hnative : env_native s' = env_native s)
    (Hheap : heap s' = heap s) (Hjobs : jobs s' = jobs s)
    (Hbg : background s' = background s)
| automate_blocking l env' cs r a' t
    (Hloop : assignments body (Object_keys body) = (l, true))
    (Hmode : wants_blocking body = Some true)
    (Htry : fst (automate_try Number_toString body s) = Normal tt)
    (Henv' : env' = replay (env_native s)
                      (assigns l ++ headless_events
                                      (replay (env_native s) (assigns l) (process_env s)))
                      (process_env s))
    (Hrun : run env' (process_argv s) (constructor env' (config s) (outside s))
            = (Normal r, a'))
    (Hcalled : cs = calls a')
    (Hev : emitted s s' =
           (assigns l ++ headless_events (replay (env_native s) (assigns l) (process_env s))
            ++ [Ev_new env'; Ev_run env' cs (Normal r);
                Ev_env_restore (process_env s);
                Ev_respond {| statusCode := 200;
                              json := Body_finished (success r) r t |}])%list)
    (Henv : process_env s' = process_env s)
    (Hnative : env_native s' = false)
    (Hheap : heap s' = heap s) (Hjobs : jobs s' = jobs s)
    (Hbg : background s' = background s)
| automate_background l env' jobId created job automationBg t w1 w2 w3
    (Hloop : assignments body (Object_keys body) = (l, true))
    (Hmode : wants_blocking body = Some false)
    (Htry : fst (automate_try Number_toString body s) = Normal tt)
    (Hid : uuidv4 (outside s) = (jobId, w1))
    (Hcreated : Date_now w1 = (created, w2))
    (Hauto : automationBg = constructor env' (config s) w2)
    (Ht : Date_now w2 = (t, w3))
    (Hargv : process_argv s' = process_argv s)
    (Hconfig : config s' = CONFIG automationBg)
    (Houtside : outside s' = w3)
    (Henv' : env' = replay (env_native s)
                      (assigns l ++ headless_events
                                      (replay (env_native s) (assigns l) (process_env s)))
                      (process_env s))
    (Hjob : job = {| id := jobId; status := "running"; createdAt := created;
                     result := None; completedAt := None |})
    (Hev : emitted s s' =
           (assigns l ++ headless_events (replay (env_native s) (assigns l) (process_env s))
            ++ [Ev_jobs_set jobId job; Ev_new env'; Ev_background jobId;
                Ev_respond {| statusCode := 202;
                              json := Body_accepted jobId ("/status/" ++ jobId) t |}])%list)
    (Henv : process_env s' = env')
    (Hnative : env_native s' = env_native s)
    (Hheap : heap s' = (heap s ++ [job])%list)
    (Hjobs : jobs s' = <[jobId := length (heap s)]> (jobs s))
    (Hbg : background s' = (background s ++ [(length (heap s), automationBg)])%list).

(** A job record as the store must keep it. *)
Definition job_wf (j : Job) : Prop :=
  In (status j) ["running"; "completed"; "failed"]
  /\ (status j = "running" <-> result j = None)
  /\ (status j = "running" <-> completedAt j = None).

(** What the event loop can do next: handle a request to [/automate] or to
    [/status/:jobId], or resume a background closure whose [run()] has
    settled. *)
Inductive transition : Server World -> Server World -> Prop :=
| transition_automate body s : transition s (snd (automate Number_toString body s))
| transition_status jobId s : transition s (snd (get_status jobId s))
| transition_resume i s : transition s (snd (resume_background i s)).

Definition store_wf (s : Server World) : Prop :=
  (forall l j, heap s !! l = Some j -> job_wf j)
  /\ (forall jobId l, jobs s !! jobId = Some l ->
        exists j, heap s !! l = Some j /\ id j = jobId).

End Vocabulary.

Section AutomationVocabulary.
Context {World : Type} `{Outside World}.
Implicit Types (a : Automation World).

(** [Q] holds of the completion and of the final state of [m] run from [s]. *)
Definition post {S A} (m : M S A) (s : S) (Q : completion A -> S -> Prop) : Prop :=
  Q (fst (m s)) (snd (m s)).

(** The steps among a list of calls, with their results. *)
Definition steps_of (cs : list Call) : list (Step * bool) :=
  omap (fun c => match c with Call_step s ok => Some (s, ok) | _ => None end) cs.

(** The patterns a selector chain went through, with what it did. *)
Definition attempts_of (cs : list Call) : list (string * attempt) :=
  omap (fun c => match c with Chain_attempt sel att => Some (sel, att) | _ => None end) cs.

(** The visibility queries on [page.locator(sel).first()], with their
    answers. *)
Definition queries_of (cs : list Call) : list (string * completion bool) :=
  omap (fun c => match c with
                 | Call_isVisible (locator_first (page_locator sel)) answer => Some (sel, answer)
                 | _ => None
                 end) cs.

(** The calls made on the page or its locators. *)
Definition page_level (c : Call) : bool :=
  match c with
  | Call_waitForTimeout _ _ | Call_all _ _ | Call_isVisible _ _ | Call_textContent _ _
  | Call_scrollIntoViewIfNeeded _ _ | Call_focus _ _ | Call_fill _ _ _ | Call_type _ _ _
  | Call_click _ _ => true
  | _ => false
  end.

(** [a'] is [a] after the calls [cs]: the fields of [this] and [CONFIG]
    are untouched. *)
Definition extends a a' (cs : list Call) : Prop :=
  this_browser a' = this_browser a
  /\ this_ticketId a' = this_ticketId a
  /\ CONFIG a' = CONFIG a
  /\ calls a' = (calls a ++ cs)%list.

(** A computation that only calls the page. *)
Definition page_only {A} (m : M (Automation World) A) : Prop :=
  forall a, exists cs, extends a (snd (m a)) cs /\ forallb page_level cs = true.

(** Among [cs], the text of a candidate was read, it contains the title
    up to case, and the candidate was clicked. *)
Definition opened_evidence (searchTitle : string) (cs : list Call) : Prop :=
  exists candidate text,
    In (Call_textContent candidate (Normal (Some text))) cs
    /\ includes (String_toLowerCase text) (String_toLowerCase searchTitle) = true
    /\ In (Call_click candidate (Normal tt)) cs.

Definition default_sequence : list Step :=
  [Login; NavigateToProjects; ClickCreate; FillTicketForm; SubmitTicket;
   ClickOnCreatedTicket; EditTicketDetails; AddLogNote].

Definition logNote_sequence : list Step :=
  [Login; NavigateToProjects; OpenTicketByTitle; AddLogNote].

(** The steps whose [false] makes [run] throw in the default flow. *)
Definition critical (s : Step) : bool :=
  match s with
  | Login | NavigateToProjects | ClickCreate | FillTicketForm | SubmitTicket
  | ClickOnCreatedTicket => true
  | _ => false
  end.

(** The message of the [Error] thrown when a step returns [false]. *)
Definition failure_message (s : Step) : string :=
  match s with
  | Login => "Login failed"
  | NavigateToProjects => "Failed to navigate to Projects and select Test Support"
  | ClickCreate => "Failed to click Create"
  | FillTicketForm => "Failed to fill ticket form"
  | SubmitTicket => "Failed to submit ticket"
  | ClickOnCreatedTicket => "Failed to click on created ticket"
  | AddLogNote => "Failed to add log note"
  | OpenTicketByTitle | EditTicketDetails => ""
  end.

(** A chain that stops at the first pattern found visible: no query
    follows one answered [true]. *)
Definition stops_at_first_visible_match (cs : list Call) : Prop :=
  forall pre sel post,
    queries_of cs = (pre ++ (sel, Normal true) :: post)%list -> post = [].

(** An environment variable that is set, to whatever value. *)
Definition is_set (env : Env) (name : string) : Prop := is_Some (env !! name).

(** An environment variable that is set to a non-empty string. *)
Definition is_set_nonempty (env : Env) (name : string) : Prop :=
  exists v, env !! name = Some v /\ v <> "".

(** What an attempt of a chain says about the visibility query on its
    pattern: [Acted] and [NotVisible] follow the answers [true] and
    [false]; [Caught e] follows a query that threw [e], or the answer
    [true] and an action that threw [e]. *)
Definition attempt_consistent (qs : list (string * completion bool))
    (p : string * attempt) : Prop :=
  match snd p with
  | Acted => In (fst p, Normal true) qs
  | NotVisible => In (fst p, Normal false) qs
  | Caught e => In (fst p, Throw e) qs \/ In (fst p, Normal true) qs
  end.

(** [run] settles with the result [r]: it resolves to [r], unless
    [browser.close()] throws in the [finally] block, in which case it
    rejects with what [close] threw. *)
Definition settles_with (r : RunResult) (c : completion RunResult) (cs : list Call) : Prop :=
  c = Normal r
  \/ exists e, c = Throw e /\ last cs = Some (Call_browser_close (Throw e)).

(** A run in which a step that must succeed returned [false] resolves to a
    failure result. *)
Definition fails_with_result (env : Env) (argv : list string) a : Prop :=
  forall s, critical s = true ->
    In (s, false) (steps_of (called a (snd (run env argv a)))) ->
    exists e, fst (run env argv a) = Normal (Failed e).

(** [run] turns every failure of its [try] block into a result. *)
Definition resolves_on_failure (env : Env) (argv : list string) a : Prop :=
  forall e, fst (run_try env argv a) = Throw e ->
            fst (run env argv a) = Normal (Failed e).

End AutomationVocabulary.

(** ** Concrete requests, pages and processes *)

(** A page on which [login] reports failure and [browser.close()] throws. *)
Definition login_fails_close_throws : Script := {|
  script_clock := script_clock calm;
  script_uuid := script_uuid calm;
  script_init := InitOk;
  script_step := fun s => match s with Login => false | _ => true end;
  script_ticketId := None;
  script_wait := Normal tt;
  script_close := Throw "Target page, context or browser has been closed";
  script_all := script_all calm;
  script_visible := script_visible calm;
  script_text := script_text calm;
  script_fill := script_fill calm;
  script_click := script_click calm
|}.


(** A login popup whose inputs are all visible and none can be filled. *)
Definition no_input_editable : Script := {|
  script_clock := script_clock calm;
  script_uuid := script_uuid calm;
  script_init := InitOk;
  script_step := script_step calm;
  script_ticketId := None;
  script_wait := Normal tt;
  script_close := Normal tt;
  script_all := script_all calm;
  script_visible := fun _ => Normal true;
  script_text := script_text calm;
  script_fill := fun _ => Throw "locator.fill: Element is not editable";
  script_click := script_click calm
|}.

(** A board with one card, whose text contains the title searched for. *)
Definition board_with_ticket : Script := {|
  script_clock := script_clock calm;
  script_uuid := script_uuid calm;
  script_init := InitOk;
  script_step := script_step calm;
  script_ticketId := None;
  script_wait := Normal tt;
  script_close := Normal tt;
  script_all := fun l => Normal [locator_nth l 0];
  script_visible := fun _ => Normal true;
  script_text := fun _ => Normal (Some "Pump leaks - Discount Pipe & Steel");
  script_fill := script_fill calm;
  script_click := script_click calm
|}.

(** A fresh automation object on a scripted page. *)
Definition fresh (env : Env) (w : Script) : Automation Script :=
  constructor env CONFIG_ticketDetails w.

(** [TICKET_TITLE] set to the empty string, [LOG_NOTE] to a note. *)
Definition env_empty_title : Env :=
  <["LOG_NOTE" := "Customer called back"]> (<["TICKET_TITLE" := ""]> ∅).

Definition env_logNote : Env :=
  <["LOG_NOTE" := "Customer called back"]> (<["TICKET_TITLE" := "Pump leaks"]> ∅).

Definition body_ticket : object Z :=
  [("EMAIL_SUBJECT", VStr "Pump leaks"); ("PRIORITY", VNum 2%Z); ("EMAIL_BODY", VNull)].

Definition body_background : object Z :=
  [("EMAIL_SUBJECT", VStr "Pump leaks"); ("waitForResponse", VBool false)].

(** A body whose second value has an own [toString] property: [String]
    throws on it after the first key has been assigned. *)
Definition body_throwing : object Z :=
  [("EMAIL_SUBJECT", VStr "Pump leaks"); ("EMAIL_BODY", VObj [("toString", VNum 1%Z)])].

(** A page on which [login] reports failure and nothing throws. *)
Definition login_fails : Script := {|
  script_clock := script_clock calm;
  script_uuid := script_uuid calm;
  script_init := InitOk;
  script_step := fun s => match s with Login => false | _ => true end;
  script_ticketId := None;
  script_wait := Normal tt;
  script_close := Normal tt;
  script_all := script_all calm;
  script_visible := script_visible calm;
  script_text := script_text calm;
  script_fill := script_fill calm;
  script_click := script_click calm
|}.

(** [process.env] of a fresh process after the loop over [body_ticket]. *)
Definition env_ticket : Env :=
  <["PRIORITY" := "2"]> (<["EMAIL_SUBJECT" := "Pump leaks"]> ∅).

(** A fresh process, the same after a background request, and after the
    closure of that request has been resumed. *)
Definition server0 : Server Script := boot ∅ [] calm.

Definition server_polling : Server Script :=
  snd (automate show_Z body_background server0).

Definition server_settled : Server Script :=
  snd (resume_background 0 server_polling).

(** The job of that request, once settled. *)
Definition job_settled : Job := {|
  id := script_uuid calm;
  status := "completed";
  createdAt := 1000%Z;
  result := Some (Succeeded None);
  completedAt := Some 1002%Z
|}.

(** A machine on which the browser cannot be launched. *)
Definition launch_fails : Script := {|
  script_clock := script_clock calm;
  script_uuid := script_uuid calm;
  script_init := InitThrewBeforeLaunch "browserType.launch: Executable does not exist";
  script_step := script_step calm;
  script_ticketId := None;
  script_wait := Normal tt;
  script_close := Normal tt;
  script_all := script_all calm;
  script_visible := script_visible calm;
  script_text := script_text calm;
  script_fill := script_fill calm;
  script_click := script_click calm
|}.

(** A subject and a body for a new ticket. *)
Definition env_subject_body : Env :=
  <["EMAIL_BODY" := "The pump in hall 3 leaks since Monday."]>
    (<["EMAIL_SUBJECT" := "Pump leaks"]> ∅).

Definition env_customer : Env := <["EMAIL_CUSTOMER" := "Acme Steel"]> ∅.

Definition body_customer : object Z := [("EMAIL_CUSTOMER", VStr "Acme Steel")].

(** A log note for an existing ticket, sent as a background request, and
    the request without a body that follows it. *)
Definition body_logNote_background : object Z :=
  [("TICKET_TITLE", VStr "Pump leaks"); ("LOG_NOTE", VStr "Customer called back");
   ("waitForResponse", VBool false)].

Definition server_after_logNote : Server Script :=
  snd (automate show_Z body_logNote_background server0).

(** A body with a key that cannot name an environment variable. *)
Definition body_odd_key : object Z :=
  [("TICKET_TITLE", VStr "Pump leaks"); ("A=B", VStr "x")].

(** A body that asks for background mode and holds a value on which
    [String] throws. *)
Definition body_background_throwing : object Z :=
  [("waitForResponse", VBool false); ("EMAIL_BODY", VObj [("toString", VNum 1%Z)])].

(** A body whose flag is an object with an own [toString] property. *)
Definition body_flag_object : object Z :=
  [("waitForResponse", VObj [("toString", VNum 1%Z)])].

(** A popup whose buttons are visible and can be clicked, on a page where
    every wait throws. *)
Definition popup_wait_throws : Script := {|
  script_clock := script_clock calm;
  script_uuid := script_uuid calm;
  script_init := InitOk;
  script_step := script_step calm;
  script_ticketId := None;
  script_wait := Throw "page.waitForTimeout: Target page, context or browser has been closed";
  script_close := Normal tt;
  script_all := script_all calm;
  script_visible := fun _ => Normal true;
  script_text := script_text calm;
  script_fill := script_fill calm;
  script_click := script_click calm
|}.

(** ** What the further statements are phrased with *)

(** The first of the variables [names] that [process.env] holds with a
    non-empty value, [d] when there is none. *)
Fixpoint first_truthy (env : Env) (names : list string) (d : string) : string :=
  match names with
  | [] => d
  | name :: rest =>
      match env !! name with
      | Some s => if String.eqb s "" then first_truthy env rest d else s
      | None => first_truthy env rest d
      end
  end.

(** [browser.close()] was called. *)
Definition is_close (c : Call) : bool :=
  match c with Call_browser_close _ => true | _ => false end.

(** The selectors clicked through [page.locator(sel).first()]. *)
Definition clicks_of (cs : list Call) : list string :=
  omap (fun c => match c with
                 | Call_click (locator_first (page_locator sel)) _ => Some sel
                 | _ => None
                 end) cs.

(** The last call is [page.waitForTimeout(1000)], and it completed. *)
Definition waited_a_second (cs : list Call) : Prop :=
  last cs = Some (Call_waitForTimeout 1000 (Normal tt)).

(** A popup whose buttons are visible and cannot be clicked. *)
Definition discard_not_clickable : Script := {|
  script_clock := script_clock calm;
  script_uuid := script_uuid calm;
  script_init := InitOk;
  script_step := script_step calm;
  script_ticketId := None;
  script_wait := Normal tt;
  script_close := Normal tt;
  script_all := script_all calm;
  script_visible := fun _ => Normal true;
  script_text := script_text calm;
  script_fill := script_fill calm;
  script_click := fun _ => Throw "locator.click: Timeout 30000ms exceeded"
|}.

Section ValueVocabulary.
Context {number : Type}.
Variable Number_toString : number -> string.

(** The values [String] throws on: an object with an own [toString]
    property, or an array that holds such a value. *)
Inductive unprintable : value number -> Prop :=
| unprintable_object props :
    hasOwn props "toString" = true -> unprintable (VObj props)
| unprintable_array elems x :
    In x elems -> unprintable x -> unprintable (VArr elems).

(** [String] on an array, as a function of its elements. *)
Definition join_elems (elems : list (value number)) : option string :=
  js_String Number_toString (VArr elems).

End ValueVocabulary.

Section PendingVocabulary.
Context {World : Type} `{Outside World}.

(** Every pending closure holds the address of a job object that is still
    ['running'], and no two closures hold the same address. *)
Definition pending_wf (s : Server World) : Prop :=
  (forall l automationBg, (l, automationBg) ∈ background s ->
     exists j, heap s !! l = Some j /\ status j = "running")
  /\ NoDup (map fst (background s)).

(** Every job object that is still ['running'] is held by a pending
    closure. *)
Definition running_wf (s : Server World) : Prop :=
  forall l j, heap s !! l = Some j -> status j = "running" ->
    exists automationBg, (l, automationBg) ∈ background s.

End PendingVocabulary.

(** ** The loop over the request body *)

Section BodyLoop.
Context {World : Type} `{Outside World}.
Context {number : Type}.
Variable Number_toString : number -> string.
Implicit Types (s : Server World) (body : object number).

Lemma forEach_set_from_body body keys s :
  forEach keys (set_from_body Number_toString body) s =
  (if snd (assignments Number_toString body keys)
   then Normal tt else Throw TypeError_toPrimitive,
   assign_all (fst (assignments Number_toString body keys)) s).
Proof.
  revert s. induction keys as [|key rest IH]; intros s; [reflexivity|].
  cbn [forEach assignments]. unfold bind, set_from_body at 1.
  destruct (is_nullish (obj_get body key)); cbn [negb].
  - unfold ret. apply IH.
  - unfold String_, bind.
    destruct (js_String Number_toString (obj_get body key)) as [str|]; [|reflexivity].
    unfold ret, env_assign, modify. rewrite IH.
    destruct (assignments Number_toString body rest) as [l done]. reflexivity.
Qed.

Lemma assign_all_frame l s :
  process_argv (assign_all l s) = process_argv s
  /\ config (assign_all l s) = config s
  /\ outside (assign_all l s) = outside s
  /\ heap (assign_all l s) = heap s
  /\ jobs (assign_all l s) = jobs s
  /\ background (assign_all l s) = background s.
Proof.
  revert s. induction l as [|[key str] rest IH]; intros s; [done|].
  cbn [assign_all]. destruct (IH (emit (Ev_env_assign key str)
    (set_process_env (env_set (env_native s) key str (process_env s)) s))) as (?&?&?&?&?&?).
  repeat split; assumption.
Qed.

Lemma assign_all_native l s : env_native (assign_all l s) = env_native s.
Proof.
  revert s. induction l as [|[key str] rest IH]; intros s; [done|].
  cbn [assign_all]. by rewrite IH.
Qed.

Lemma assign_all_events l s :
  events (assign_all l s) = (events s ++ assigns l)%list.
Proof.
  revert s. induction l as [|[key str] rest IH]; intros s; unfold assigns; cbn [assign_all map].
  - by rewrite app_nil_r.
  - rewrite IH. cbn. by rewrite <- app_assoc.
Qed.

Lemma assign_all_env l s :
  process_env (assign_all l s) =
  replay (env_native s) (assigns l) (process_env s).
Proof.
  revert s. induction l as [|[key str] rest IH]; intros s; unfold assigns;
    cbn [assign_all map]; [done|].
  rewrite IH. reflexivity.
Qed.

Lemma emitted_app s s' evs : events s' = (events s ++ evs)%list -> emitted s s' = evs.
Proof. intros Hev. unfold emitted. rewrite Hev. by rewrite drop_app_length. Qed.

Lemma replay_app native evs1 evs2 (env : Env) :
  replay native (evs1 ++ evs2) env = replay native evs2 (replay native evs1 env).
Proof. unfold replay. by rewrite fold_left_app. Qed.

Lemma replay_assign native key str (env : Env) :
  replay native [Ev_env_assign key str] env = env_set native key str env.
Proof. reflexivity. Qed.

(** An assignment touches the entry of the name it stores under, and no
    other. *)
Lemma env_set_other native key value (env : Env) name :
  env_key native key <> Some name ->
  env_set native key value env !! name = env !! name.
Proof.
  unfold env_set. destruct (env_key native key) as [n|]; [|done]. intros Hne.
  destruct (_ && _); [done|]. rewrite lookup_insert_ne; [done|congruence].
Qed.

Lemma env_set_same native key value (env : Env) name :
  env_key native key = Some name -> (native = false -> name <> "__proto__") ->
  env_set native key value env !! name = Some (env_value native value).
Proof.
  unfold env_set. intros -> Hproto. destruct native; cbn [negb andb].
  - by rewrite lookup_insert_eq.
  - destruct (String.eqb_spec name "__proto__") as [Heq|_]; [by destruct Hproto|].
    cbn [andb]. by rewrite lookup_insert_eq.
Qed.

Lemma replay_assigns_other native l (env : Env) name :
  (forall key str, In (key, str) l -> env_key native key <> Some name) ->
  replay native (assigns l) env !! name = env !! name.
Proof.
  revert env. induction l as [|[key str] rest IH]; intros env Hl; [done|].
  unfold assigns. cbn [map replay fold_left fst snd].
  change (fold_left _ ?a ?b) with (replay native a b).
  change (map _ rest) with (assigns rest).
  rewrite IH by (intros k v Hin; apply (Hl k v); by right).
  apply env_set_other. apply (Hl key str). by left.
Qed.

(** When every assignment that stores under [name] assigns [str], and
    there is one, the entry of [name] ends up as what is stored for [str]. *)
Lemma replay_assigns_writer native l (env : Env) name str :
  (forall k v, In (k, v) l -> env_key native k = Some name -> v = str) ->
  (exists k, In (k, str) l /\ env_key native k = Some name) ->
  (native = false -> name <> "__proto__") ->
  replay native (assigns l) env !! name = Some (env_value native str).
Proof.
  intros Hall Hex Hproto. revert Hall Hex.
  induction l as [|[k v] l IH] using rev_ind; intros Hall (k0 & Hin & Hk0); [done|].
  unfold assigns. rewrite map_app, replay_app. cbn [map fst snd]. rewrite replay_assign.
  change (map _ l) with (assigns l).
  destruct (decide (env_key native k = Some name)) as [Hk|Hk].
  - rewrite (Hall k v) by (done || apply in_or_app; right; by left).
    by apply env_set_same.
  - rewrite env_set_other by done. apply IH.
    + intros k1 v1 Hin1. apply Hall. apply in_or_app. by left.
    + apply in_app_or in Hin as [Hin|[Hin|[]]]; [by exists k0|].
      injection Hin as -> ->. done.
Qed.

(** What the loop assigns: the string forms of the values that are neither
    [undefined] nor [null], for the keys it gets to. *)
Lemma assignments_elem body keys l done key str :
  assignments Number_toString body keys = (l, done) -> In (key, str) l ->
  key ∈ keys /\ is_nullish (obj_get body key) = false
  /\ js_String Number_toString (obj_get body key) = Some str.
Proof.
  revert l done. induction keys as [|k rest IH]; intros l done Hl Hin.
  - injection Hl as <- <-. destruct Hin.
  - cbn [assignments] in Hl. destruct (is_nullish (obj_get body k)) eqn:Hk.
    + destruct (IH _ _ Hl Hin) as (? & ? & ?). split; [apply elem_of_cons; by right|done].
    + destruct (js_String Number_toString (obj_get body k)) as [v|] eqn:Hstr.
      * destruct (assignments Number_toString body rest) as [l' done'] eqn:Hrest.
        injection Hl as <- <-. destruct Hin as [[= <- <-]|Hin].
        -- split; [apply elem_of_cons; by left|done].
        -- destruct (IH _ _ eq_refl Hin) as (? & ? & ?).
           split; [apply elem_of_cons; by right|done].
      * injection Hl as <- <-. destruct Hin.
Qed.

Lemma assignments_In body keys l key :
  assignments Number_toString body keys = (l, true) ->
  key ∈ keys -> is_nullish (obj_get body key) = false ->
  exists str, js_String Number_toString (obj_get body key) = Some str
              /\ In (Ev_env_assign key str) (assigns l).
Proof.
  revert l. induction keys as [|k rest IH]; intros l Hl Hin Hnn.
  - by apply elem_of_nil in Hin.
  - cbn [assignments] in Hl.
    destruct (decide (key = k)) as [->|Hne].
    + rewrite Hnn in Hl.
      destruct (js_String Number_toString (obj_get body k)) as [str|]; [|done].
      destruct (assignments Number_toString body rest) as [l' done'].
      injection Hl as <- ->. exists str. split; [done|]. by left.
    + assert (key ∈ rest) as Hin' by set_solver.
      destruct (is_nullish (obj_get body k)); [by apply IH|].
      destruct (js_String Number_toString (obj_get body k)) as [str|]; [|done].
      destruct (assignments Number_toString body rest) as [l' done'].
      injection Hl as <- ->.
      destruct (IH _ eq_refl Hin' Hnn) as (str' & ? & ?).
      exists str'. split; [done|]. by right.
Qed.

Lemma js_String_nullish (v : value number) :
  is_nullish v = true -> is_Some (js_String Number_toString v).
Proof. destruct v; try discriminate; by eexists. Qed.

Lemma js_String_None_assigned (v : value number) :
  js_String Number_toString v = None -> is_nullish v = false.
Proof.
  intros Hv. destruct (is_nullish v) eqn:Hn; [|done].
  destruct (js_String_nullish v Hn) as [str Hstr]. congruence.
Qed.

(** The loop gets through exactly when [String] throws on no value. *)
Lemma assignments_printable body keys :
  snd (assignments Number_toString body keys) = true <-> printable Number_toString body keys.
Proof.
  unfold printable. induction keys as [|k rest IH]; cbn [assignments].
  - split; [|done]. by intros _ key ?%elem_of_nil.
  - destruct (is_nullish (obj_get body k)) eqn:Hk.
    + rewrite IH. split.
      * intros Hrest key [->|Hin]%elem_of_cons; [by apply js_String_nullish|by apply Hrest].
      * intros Hall key Hin. apply Hall. apply elem_of_cons. by right.
    + destruct (js_String Number_toString (obj_get body k)) as [str|] eqn:Hstr.
      * destruct (assignments Number_toString body rest) as [l done]. cbn [snd] in *.
        rewrite IH. split.
        -- intros Hrest key [->|Hin]%elem_of_cons; [by rewrite Hstr|by apply Hrest].
        -- intros Hall key Hin. apply Hall. apply elem_of_cons. by right.
      * cbn [snd]. split; [done|]. intros Hall.
        destruct (Hall k) as [str Hk']; [apply elem_of_cons; by left|]. congruence.
Qed.

(** The loop up to the first value on which [String] throws. *)
Lemma assignments_throw body pre key post :
  printable Number_toString body pre ->
  js_String Number_toString (obj_get body key) = None ->
  assignments Number_toString body (pre ++ key :: post)
  = (fst (assignments Number_toString body pre), false)
  /\ snd (assignments Number_toString body pre) = true.
Proof.
  intros Hpre Hkey. pose proof (js_String_None_assigned _ Hkey) as Hnn.
  induction pre as [|k pre IH]; cbn [app assignments].
  - by rewrite Hnn, Hkey.
  - assert (printable Number_toString body pre) as Hpre'.
    { intros k' Hin. apply Hpre. apply elem_of_cons. by right. }
    destruct (IH Hpre') as [IH1 IH2]. rewrite IH1.
    destruct (is_nullish (obj_get body k)); [done|].
    destruct (Hpre k) as [str ->]; [apply elem_of_cons; by left|].
    destruct (assignments Number_toString body pre) as [l done]. cbn [fst snd] in *.
    by subst done.
Qed.

Lemma in_assigns key str l : In (Ev_env_assign key str) (assigns l) <-> In (key, str) l.
Proof.
  unfold assigns. rewrite in_map_iff. split.
  - intros ([k v] & [= -> ->] & Hin). done.
  - intros Hin. by exists (key, str).
Qed.

Lemma in_assigns_inv ev l :
  In ev (assigns l) -> exists key str, ev = Ev_env_assign key str /\ In (key, str) l.
Proof.
  unfold assigns. rewrite in_map_iff. intros ([k v] & <- & Hin). by exists k, v.
Qed.

(** A loop that gets through assigns the string forms in the order of the
    keys. *)
Lemma assignments_order body keys l :
  assignments Number_toString body keys = (l, true) ->
  assigns l =
  map (fun key => Ev_env_assign key
                    (default "" (js_String Number_toString (obj_get body key))))
    (List.filter (fun key => negb (is_nullish (obj_get body key))) keys).
Proof.
  revert l. induction keys as [|k rest IH]; intros l Hl.
  - by injection Hl as <-.
  - cbn [assignments List.filter] in *.
    destruct (is_nullish (obj_get body k)); cbn [negb]; [by apply IH|].
    destruct (js_String Number_toString (obj_get body k)) as [str|] eqn:Hstr; [|done].
    destruct (assignments Number_toString body rest) as [l' done'].
    injection Hl as <- ->. unfold assigns. cbn [map fst snd]. rewrite Hstr.
    change (map _ l') with (assigns l'). by rewrite (IH l' eq_refl).
Qed.

Lemma assignments_env_writer body keys l (env : Env) native key str name :
  assignments Number_toString body keys = (l, true) ->
  key ∈ keys -> is_nullish (obj_get body key) = false ->
  js_String Number_toString (obj_get body key) = Some str ->
  env_key native key = Some name ->
  (native = false -> name <> "__proto__") ->
  (forall k, k ∈ keys -> stores native body k name -> k = key) ->
  replay native (assigns l) env !! name = Some (env_value native str).
Proof.
  intros Hl Hkey Hnn Hstr Hname Hproto Honly.
  destruct (assignments_In body keys l key Hl Hkey Hnn) as (str' & Hstr' & Hin).
  assert (str' = str) as -> by congruence.
  apply replay_assigns_writer; [|by exists key; rewrite <- in_assigns|done].
  intros k v Hkv Hk.
  destruct (assignments_elem body keys l _ k v Hl Hkv) as (Hk1 & Hk2 & Hk3).
  assert (k = key) as -> by (by apply Honly).
  congruence.
Qed.

Lemma assignments_env_other body keys l done (env : Env) native name :
  assignments Number_toString body keys = (l, done) ->
  (forall k, k ∈ keys -> ¬ stores native body k name) ->
  replay native (assigns l) env !! name = env !! name.
Proof.
  intros Hl Hno. apply replay_assigns_other. intros key str Hin Hname.
  destruct (assignments_elem body keys l _ key str Hl Hin) as (Hk1 & Hk2 & _).
  by apply (Hno key).
Qed.

(** What the loop over [keys] leaves in [process.env]. *)
Lemma body_loop_env body keys s :
  let native := env_native s in
  let loop := forEach keys (set_from_body Number_toString body) s in
  let s1 := snd loop in
  (forall ev, In ev (emitted s s1) ->
     exists key str, ev = Ev_env_assign key str /\ key ∈ keys
                     /\ is_nullish (obj_get body key) = false
                     /\ js_String Number_toString (obj_get body key) = Some str)
  /\ (printable Number_toString body keys ->
        fst loop = Normal tt
        /\ emitted s s1 =
           map (fun key => Ev_env_assign key
                             (default "" (js_String Number_toString (obj_get body key))))
             (List.filter (fun key => negb (is_nullish (obj_get body key))) keys)
        /\ forall key, key ∈ keys -> is_nullish (obj_get body key) = false ->
             exists str,
               js_String Number_toString (obj_get body key) = Some str
               /\ In (Ev_env_assign key str) (emitted s s1)
               /\ forall name,
                    env_key native key = Some name ->
                    (native = false -> name <> "__proto__") ->
                    (forall k, k ∈ keys -> stores native body k name -> k = key) ->
                    process_env s1 !! name = Some (env_value native str))
  /\ (printable Number_toString body keys ->
      (forall k, k ∈ keys ->
         env_key native k = Some k /\ (native = false -> k <> "__proto__")) ->
      forall key, key ∈ keys -> is_nullish (obj_get body key) = false ->
        exists str,
          js_String Number_toString (obj_get body key) = Some str
          /\ process_env s1 !! key = Some (env_value native str))
  /\ (forall name, (forall k, k ∈ keys -> ¬ stores native body k name) ->
        process_env s1 !! name = process_env s !! name)
  /\ (forall pre key post,
        keys = (pre ++ key :: post)%list ->
        printable Number_toString body pre ->
        js_String Number_toString (obj_get body key) = None ->
        fst loop = Throw TypeError_toPrimitive
        /\ s1 = snd (forEach pre (set_from_body Number_toString body) s)).
Proof.
  cbv zeta. rewrite forEach_set_from_body. cbn [fst snd].
  destruct (assignments Number_toString body keys) as [l done] eqn:Hl. cbn [fst snd].
  rewrite (emitted_app _ _ _ (assign_all_events l s)), assign_all_env.
  split; [|split; [|split; [|split]]].
  - intros ev (key & str & -> & Hin)%in_assigns_inv.
    exists key, str. split; [done|]. by eapply assignments_elem.
  - intros Hp. apply assignments_printable in Hp. rewrite Hl in Hp. cbn [snd] in Hp.
    subst done. split; [done|]. split; [by apply assignments_order|]. intros key Hkey Hnn.
    destruct (assignments_In body keys l key Hl Hkey Hnn) as (str & Hstr & Hin).
    exists str. split; [done|]. split; [done|].
    intros name Hname Hproto Honly. by eapply assignments_env_writer.
  - intros Hp Hplain key Hkey Hnn.
    apply assignments_printable in Hp. rewrite Hl in Hp. cbn [snd] in Hp. subst done.
    destruct (assignments_In body keys l key Hl Hkey Hnn) as (str & Hstr & Hin).
    exists str. split; [done|].
    destruct (Hplain key Hkey) as [Hname Hproto].
    eapply assignments_env_writer; try done.
    intros k Hk [_ Hk']. destruct (Hplain k Hk) as [Hk'' _]. congruence.
  - intros name Hno. apply replay_assigns_other. intros key str Hin Hname.
    destruct (assignments_elem body keys l _ key str Hl Hin) as (Hk1 & Hk2 & _).
    by apply (Hno key).
  - intros pre key post -> Hpre Hkey.
    destruct (assignments_throw body pre key post Hpre Hkey) as [Heq Hdone].
    rewrite Heq in Hl. injection Hl as <- <-. split; [done|].
    by rewrite forEach_set_from_body.
Qed.

End BodyLoop.

(** ** The handler of [POST /automate], case by case *)

Section Handler.
Context {World : Type} `{Outside World}.
Context {number : Type}.
Variable Number_toString : number -> string.
Implicit Types (s : Server World) (body : object number).

Lemma obj_get_keys body key :
  is_nullish (obj_get body key) = false -> key ∈ Object_keys body.
Proof.
  induction body as [|[k v] rest IH]; [done|]. cbn.
  destruct (String.eqb_spec k key) as [->|Hne]; [set_solver|].
  intros Hn. apply elem_of_cons. right. by apply IH.
Qed.

Lemma wants_blocking_defined body l :
  assignments Number_toString body (Object_keys body) = (l, true) ->
  is_Some (wants_blocking Number_toString body).
Proof.
  intros Hl. unfold wants_blocking, nullish_coalesce.
  destruct (is_nullish (obj_get body "waitForResponse")) eqn:Hn; [by eexists|].
  destruct (assignments_In _ _ _ _ _ Hl (obj_get_keys _ _ Hn) Hn) as (str & -> & _).
  by eexists.
Qed.

Lemma env_set_HEADLESS native (env : Env) :
  env_set native "HEADLESS" "true" env = <["HEADLESS" := "true"]> env.
Proof. by destruct native. Qed.

Lemma ensure_headless_eq s :
  ensure_headless s =
  (Normal tt,
   if decide (process_env s !! "NODE_ENV" = Some "production")
   then emit (Ev_env_assign "HEADLESS" "true")
          (set_process_env (<["HEADLESS" := "true"]> (process_env s)) s)
   else s).
Proof.
  unfold ensure_headless, bind, gets. case_decide; [|done].
  unfold env_assign, modify. by rewrite env_set_HEADLESS.
Qed.

Lemma ensure_headless_facts s :
  exists s2, ensure_headless s = (Normal tt, s2)
    /\ process_argv s2 = process_argv s /\ config s2 = config s
    /\ outside s2 = outside s /\ heap s2 = heap s /\ jobs s2 = jobs s
    /\ background s2 = background s
    /\ events s2 = (events s ++ headless_events (process_env s))%list
    /\ process_env s2 =
       replay (env_native s) (headless_events (process_env s)) (process_env s)
    /\ env_native s2 = env_native s.
Proof.
  rewrite ensure_headless_eq. eexists. split; [reflexivity|].
  unfold headless_events. case_decide; cbn; rewrite ?app_nil_r, ?env_set_HEADLESS; done.
Qed.

Lemma waitForResponse_eq body s :
  waitForResponse Number_toString body s =
  match wants_blocking Number_toString body with
  | Some b => (Normal b, s)
  | None => (Throw TypeError_toPrimitive, s)
  end.
Proof.
  unfold waitForResponse, wants_blocking, bind, String_.
  by destruct (js_String _ _).
Qed.

(** [automate] always completes, in one of the four ways of
    [automate_spec]. *)
Lemma automate_spec_holds body s :
  exists s', automate Number_toString body s = (Normal tt, s')
             /\ automate_spec Number_toString body s s'.
Proof.
  unfold automate, try_catch.
  assert (exists c st, automate_try Number_toString body s = (c, st)) as (c0 & st & Htry)
    by (destruct (automate_try Number_toString body s); eauto).
  rewrite Htry.
  assert (fst (automate_try Number_toString body s) = c0) as Hfst by (by rewrite Htry).
  revert Htry. unfold automate_try, bind, gets. cbv beta.
  rewrite forEach_set_from_body.
  destruct (assignments Number_toString body (Object_keys body)) as [l done] eqn:Hasg.
  cbn [fst snd].
  destruct (assign_all_frame l s) as (Fargv & Fconfig & Foutside & Fheap & Fjobs & Fbg).
  pose proof (assign_all_events l s) as Fev.
  pose proof (assign_all_env l s) as Fenv.
  pose proof (assign_all_native l s) as Fnative.
  set (s1 := assign_all l s) in *. clearbody s1.
  destruct done.
  - destruct (ensure_headless_facts s1)
      as (s2 & -> & Gargv & Gconfig & Goutside & Gheap & Gjobs & Gbg & Gev & Genv & Gnative).
    rewrite Fnative in Genv, Gnative.
    rewrite Fenv in Gev, Genv. rewrite Fev in Gev. rewrite <- replay_app in Genv.
    rewrite Fargv in Gargv. rewrite Fconfig in Gconfig. rewrite Foutside in Goutside.
    rewrite Fheap in Gheap. rewrite Fjobs in Gjobs. rewrite Fbg in Gbg.
    clear Fargv Fconfig Foutside Fheap Fjobs Fbg Fev Fenv Fnative s1.
    rewrite waitForResponse_eq.
    destruct (wants_blocking_defined _ _ Hasg) as [b Hb]. rewrite Hb.
    destruct b; cbn [negb].
    + unfold new_automation, await_run. cbn.
      rewrite Genv, Gconfig, Goutside, Gargv.
      set (env' := replay (env_native s)
                     (assigns l ++ headless_events
                                     (replay (env_native s) (assigns l) (process_env s)))
                     (process_env s)) in *.
      change (set_world _ _) with (constructor env' (config s) (outside s)).
      destruct (run env' (process_argv s) (constructor env' (config s) (outside s)))
        as [[r|e] a'] eqn:Hrun.
      * unfold now, respond, modify. cbn.
        destruct (Date_now (world a')) as [t w] eqn:Hnow.
        intros [= <- <-]. eexists. split; [reflexivity|].
        refine (automate_blocking _ body s _ l env' (calls a') r a' t
                  Hasg Hb Hfst eq_refl Hrun eq_refl _ _ _ _ _ _); cbn; try done.
        apply emitted_app. cbn. rewrite Gev. by rewrite <- !app_assoc.
      * intros [= <- <-]. unfold now, respond, modify. cbn.
        destruct (Date_now (world a')) as [t w] eqn:Hnow.
        eexists. split; [reflexivity|].
        refine (automate_run_threw _ body s _ l env' (calls a') e a' t
                  Hasg Hb Hfst eq_refl Hrun eq_refl _ _ _ _ _ _); cbn; try done.
        apply emitted_app. cbn. rewrite Gev. by rewrite <- !app_assoc.
    + unfold new_uuid, now, jobs_set_new, start_background, bind, new_automation, respond, modify.
      cbn. rewrite Goutside.
      destruct (uuidv4 (outside s)) as [jobId w1] eqn:Huuid. cbn.
      destruct (Date_now w1) as [created w2] eqn:Hnow1. cbn.
      destruct (Date_now w2) as [t w3] eqn:Hnow2. cbn.
      intros [= <- <-]. eexists. split; [reflexivity|].
      refine (automate_background _ body s _ l _ jobId created _ _ t w1 w2 w3
                Hasg Hb Hfst Huuid Hnow1 _ Hnow2 _ _ _ eq_refl eq_refl _ _ _ _ _ _);
        cbn; try done.
      * by rewrite Genv, Gconfig.
      * apply emitted_app. cbn. rewrite Gev. rewrite Genv. by rewrite <- !app_assoc.
      * by rewrite Gheap.
      * by rewrite Gheap, Gjobs.
      * by rewrite Gheap, Gbg, Genv, Gconfig.
  - intros [= <- <-]. unfold now, respond, modify.
    destruct (Date_now (outside s1)) as [t w] eqn:Hnow.
    eexists. split; [reflexivity|].
    refine (automate_loop_threw _ body s _ l t Hasg Hfst _ _ _ _ _ _); cbn; try done.
    apply emitted_app. cbn. rewrite Fev. by rewrite <- !app_assoc.
Qed.

End Handler.

(** ** The server's handlers *)

Section ServerClaims.
Context {World : Type} `{Outside World}.
Context {number : Type}.
Variable Number_toString : number -> string.
Implicit Types (s : Server World) (body : object number).

Lemma not_new_assigns l env : ¬ In (Ev_new env) (assigns l).
Proof. unfold assigns. intros (kv & Hkv & _)%in_map_iff. done. Qed.

Lemma not_new_headless env env0 : ¬ In (Ev_new env) (headless_events env0).
Proof. unfold headless_events. case_decide; cbn; naive_solver. Qed.

Lemma replay_headless native (env : Env) key :
  key <> "HEADLESS" -> replay native (headless_events env) env !! key = env !! key.
Proof.
  intros Hne. unfold headless_events. case_decide; [|done].
  cbn. rewrite env_set_HEADLESS. by rewrite lookup_insert_ne.
Qed.

Lemma replay_headless_id native (env : Env) :
  env !! "NODE_ENV" <> Some "production" -> replay native (headless_events env) env = env.
Proof. intros Hne. unfold headless_events. by case_decide. Qed.

(** C1, amended. The loop of [POST /automate] assigns
    [process.env[key] = String(value)] for the keys of the body in order,
    for the values that are neither [undefined] nor [null], and nothing
    else; the handler does this before anything else, so before it
    instantiates the automation. When [String] throws on no value, the loop
    completes and has made the assignment of every such key. An assignment
    stores under the name [env_key] gives (none when that name would be
    empty or hold [=] while [process.env] is Node's own object) what
    [env_value] gives (the value cut at its first NUL in that case); the
    entry of that name then holds it, provided no other key of the body
    stores under the same name; so when every key is stored under itself,
    the entry of each assigned key holds what is stored for the string
    form of its value. A name under which no key stores keeps its
    entry, so keys whose value is [undefined] or [null] leave theirs as it
    was. When [String] throws on a value, the loop has done what it does
    on the keys before that one and stops, and no automation is
    instantiated. An automation that is instantiated sees the environment
    the loop left, up to [HEADLESS], which is forced to ['true'] when
    [NODE_ENV] is ['production']. *)
Theorem automate_sets_env_before_instantiation body s :
  let native := env_native s in
  let loop keys := forEach keys (set_from_body Number_toString body) s in
  let s' := snd (automate Number_toString body s) in
  (forall keys,
     let s1 := snd (loop keys) in
     (forall ev, In ev (emitted s s1) ->
        exists key str, ev = Ev_env_assign key str /\ key ∈ keys
                        /\ is_nullish (obj_get body key) = false
                        /\ js_String Number_toString (obj_get body key) = Some str)
     /\ (printable Number_toString body keys ->
           fst (loop keys) = Normal tt
           /\ emitted s s1 =
              map (fun key => Ev_env_assign key
                                (default "" (js_String Number_toString (obj_get body key))))
                (List.filter (fun key => negb (is_nullish (obj_get body key))) keys)
           /\ forall key, key ∈ keys -> is_nullish (obj_get body key) = false ->
                exists str,
                  js_String Number_toString (obj_get body key) = Some str
                  /\ In (Ev_env_assign key str) (emitted s s1)
                  /\ forall name,
                       env_key native key = Some name ->
                       (native = false -> name <> "__proto__") ->
                       (forall k, k ∈ keys -> stores native body k name -> k = key) ->
                       process_env s1 !! name = Some (env_value native str))
     /\ (printable Number_toString body keys ->
         (forall k, k ∈ keys ->
            env_key native k = Some k /\ (native = false -> k <> "__proto__")) ->
         forall key, key ∈ keys -> is_nullish (obj_get body key) = false ->
           exists str,
             js_String Number_toString (obj_get body key) = Some str
             /\ process_env s1 !! key = Some (env_value native str))
     /\ (forall name, (forall k, k ∈ keys -> ¬ stores native body k name) ->
           process_env s1 !! name = process_env s !! name)
     /\ (forall pre key post,
           keys = (pre ++ key :: post)%list ->
           printable Number_toString body pre ->
           js_String Number_toString (obj_get body key) = None ->
           fst (loop keys) = Throw TypeError_toPrimitive /\ s1 = snd (loop pre)))
  /\ (let s1 := snd (loop (Object_keys body)) in
      exists rest,
        emitted s s' = (emitted s s1 ++ rest)%list
        /\ forall env_new, In (Ev_new env_new) (emitted s s') ->
             In (Ev_new env_new) rest
             /\ fst (loop (Object_keys body)) = Normal tt
             /\ (forall name, name <> "HEADLESS" -> env_new !! name = process_env s1 !! name)
             /\ (process_env s1 !! "NODE_ENV" <> Some "production" ->
                 env_new = process_env s1)).
Proof.
  cbv zeta. split; [intros keys; apply body_loop_env|].
  destruct (automate_spec_holds Number_toString body s) as (s' & Heq & Hspec).
  rewrite Heq. cbn [snd]. rewrite forEach_set_from_body. cbn [fst snd].
  assert (forall l done, assignments Number_toString body (Object_keys body) = (l, done) ->
            emitted s (assign_all l s) = assigns l
            /\ process_env (assign_all l s) = replay (env_native s) (assigns l) (process_env s))
    as Hloop.
  { intros l done _. split; [apply emitted_app, assign_all_events|apply assign_all_env]. }
  destruct Hspec; rewrite Hloop0; cbn [fst snd];
    destruct (Hloop _ _ Hloop0) as [-> ->]; rewrite Hev; eexists; (split; [reflexivity|]);
    intros env_new Hin; apply in_app_or in Hin as [Hin|Hin];
    try (by apply not_new_assigns in Hin).
  - destruct Hin as [Hin|[]]. discriminate Hin.
  - assert (Hin' := Hin).
    apply in_app_or in Hin as [Hin|Hin]; [by apply not_new_headless in Hin|].
    cbn [In] in Hin. destruct_or!; try discriminate; try done.
    injection Hin as <-. split; [done|]. split; [done|]. rewrite Henv', replay_app. split.
    + intros name Hne. by apply replay_headless.
    + intros Hne. by apply replay_headless_id.
  - assert (Hin' := Hin).
    apply in_app_or in Hin as [Hin|Hin]; [by apply not_new_headless in Hin|].
    cbn [In] in Hin. destruct_or!; try discriminate; try done.
    injection Hin as <-. split; [done|]. split; [done|]. rewrite Henv', replay_app. split.
    + intros name Hne. by apply replay_headless.
    + intros Hne. by apply replay_headless_id.
  - assert (Hin' := Hin).
    apply in_app_or in Hin as [Hin|Hin]; [by apply not_new_headless in Hin|].
    cbn [In] in Hin. destruct_or!; try discriminate; try done.
    injection Hin as <-. split; [done|]. split; [done|]. rewrite Henv', replay_app. split.
    + intros name Hne. by apply replay_headless.
    + intros Hne. by apply replay_headless_id.
Qed.

Lemma responses_app evs1 evs2 :
  responses (evs1 ++ evs2) = (responses evs1 ++ responses evs2)%list.
Proof. unfold responses. apply omap_app. Qed.

Lemma responses_assigns l : responses (assigns l) = [].
Proof. induction l as [|[k v] l IH]; [done|]. exact IH. Qed.

Lemma responses_headless (env : Env) : responses (headless_events env) = [].
Proof. unfold headless_events. by case_decide. Qed.

Lemma filter_app_nil {A} (f : A -> bool) (l1 l2 : list A) :
  List.filter f l1 = [] -> List.filter f l2 = [] -> List.filter f (l1 ++ l2) = [].
Proof. intros H1 H2. by rewrite List.filter_app, H1, H2. Qed.

Lemma no_restore_assigns l : List.filter is_restore (assigns l) = [].
Proof. induction l as [|[k v] l IH]; [done|]. exact IH. Qed.

Lemma no_restore_headless (env : Env) : List.filter is_restore (headless_events env) = [].
Proof. unfold headless_events. by case_decide. Qed.

Lemma no_new_assigns l : List.filter is_new (assigns l) = [].
Proof. induction l as [|[k v] l IH]; [done|]. exact IH. Qed.

Lemma no_new_headless (env : Env) : List.filter is_new (headless_events env) = [].
Proof. unfold headless_events. by case_decide. Qed.

Lemma no_run_assigns l : List.filter is_run (assigns l) = [].
Proof. induction l as [|[k v] l IH]; [done|]. exact IH. Qed.

Lemma no_run_headless (env : Env) : List.filter is_run (headless_events env) = [].
Proof. unfold headless_events. by case_decide. Qed.

Lemma not_run_assigns l env cs c : ¬ In (Ev_run env cs c) (assigns l).
Proof. unfold assigns. intros (kv & Hkv & _)%in_map_iff. done. Qed.

Lemma not_run_headless env cs c env0 : ¬ In (Ev_run env cs c) (headless_events env0).
Proof. unfold headless_events. case_decide; cbn; naive_solver. Qed.

Lemma wants_blocking_true body :
  wants_blocking Number_toString body = Some true <->
  obj_get body "waitForResponse" = VUndefined
  \/ obj_get body "waitForResponse" = VNull
  \/ js_String Number_toString (obj_get body "waitForResponse") = Some "true".
Proof.
  unfold wants_blocking, nullish_coalesce.
  destruct (is_nullish (obj_get body "waitForResponse")) eqn:Hn.
  - split; [intros _|done].
    destruct (obj_get body "waitForResponse"); try discriminate Hn; auto.
  - destruct (js_String Number_toString (obj_get body "waitForResponse")) as [str|].
    + destruct (String.eqb_spec str "true") as [->|Hne].
      * split; auto.
      * split; [done|]. intros [Hv|[Hv|Hv]]; [by rewrite Hv in Hn..|congruence].
    + split; [done|]. intros [Hv|[Hv|Hv]]; [by rewrite Hv in Hn..|done].
Qed.

Lemma hasOwn_false body key : hasOwn body key = false -> obj_get body key = VUndefined.
Proof.
  induction body as [|[k v] rest IH]; [done|]. cbn.
  destruct (String.eqb k key); [done|]. exact IH.
Qed.

Lemma await_run_facts automation s :
  exists c a' s',
    await_run automation s = (c, s')
    /\ run (process_env s) (process_argv s)
         (set_world (outside s) (set_CONFIG (config s) automation)) = (c, a')
    /\ process_env s' = process_env s /\ process_argv s' = process_argv s
    /\ heap s' = heap s /\ jobs s' = jobs s /\ background s' = background s
    /\ events s' = (events s ++ [Ev_run (process_env s) (calls a') c])%list.
Proof.
  unfold await_run.
  destruct (run _ _ _) as [c a'] eqn:Hrun. eexists c, a', _. split; [reflexivity|]. done.
Qed.

Lemma finish_background_facts l automationBg s :
  exists st r t cs c s',
    finish_background l automationBg s = (Normal tt, s')
    /\ heap s' = alter (settle_job st r t) l (heap s)
    /\ jobs s' = jobs s /\ background s' = background s
    /\ process_env s' = process_env s
    /\ emitted s s' = [Ev_run (process_env s) cs c]
    /\ (st = "completed" /\ c = Normal r \/ st = "failed" /\ exists e, c = Throw e /\ r = Failed e).
Proof.
  unfold finish_background, try_catch, bind.
  destruct (await_run_facts automationBg s)
    as (c & a' & s1 & -> & _ & Henv & _ & Hheap & Hjobs & Hbg & Hev).
  destruct c as [r|e]; unfold now, modify.
  - destruct (Date_now (outside s1)) as [t w]. cbn.
    eexists "completed", r, t, _, _, _. split; [reflexivity|]. cbn.
    rewrite Hheap. repeat split; try done; [|by left].
    erewrite emitted_app; [|cbn; exact Hev]. done.
  - destruct (Date_now (outside s1)) as [t w]. cbn.
    eexists "failed", (Failed e), t, _, _, _. split; [reflexivity|]. cbn.
    rewrite Hheap. repeat split; try done; [|right; split; [done|by exists e]].
    erewrite emitted_app; [|cbn; exact Hev]. done.
Qed.

Lemma resume_background_facts i s :
  exists s',
    resume_background i s = (Normal tt, s')
    /\ jobs s' = jobs s
    /\ process_env s' = process_env s
    /\ List.filter is_restore (emitted s s') = []
    /\ match background s !! i with
       | None => heap s' = heap s
       | Some (l, automationBg) =>
           exists st r t cs c,
             heap s' = alter (settle_job st r t) l (heap s)
             /\ emitted s s' = [Ev_run (process_env s) cs c]
             /\ (st = "completed" /\ c = Normal r
                 \/ st = "failed" /\ exists e, c = Throw e /\ r = Failed e)
       end.
Proof.
  unfold resume_background, bind, gets.
  destruct (background s !! i) as [[l automationBg]|] eqn:Hi.
  - unfold modify.
    destruct (finish_background_facts l automationBg
                (set_background (delete i (background s)) s))
      as (st & r & t & cs & c & s' & -> & Hheap & Hjobs & _ & Henv & Hev & Hst).
    exists s'. split; [done|]. change (emitted s s') with
      (emitted (set_background (delete i (background s)) s) s').
    rewrite Hev. repeat split; try done.
    by exists st, r, t, cs, c.
  - exists s. repeat split; try done.
    unfold emitted. by rewrite drop_all.
Qed.

Lemma finish_background_native l automationBg s :
  env_native (snd (finish_background l automationBg s)) = env_native s.
Proof.
  unfold finish_background, try_catch, bind, await_run.
  destruct (run _ _ _) as [[r|e] a']; cbn [fst snd]; unfold now, modify; cbn;
    by destruct (Date_now (world a')).
Qed.

Lemma resume_background_native i s :
  env_native (snd (resume_background i s)) = env_native s.
Proof.
  unfold resume_background, bind, gets.
  destruct (background s !! i) as [[l automationBg]|]; [|done].
  unfold modify. cbn [fst snd]. by rewrite finish_background_native.
Qed.

(** A background closure settles its job with the outcome of its [run()]
    and the time read after it. *)
Lemma finish_background_run l automationBg s :
  let outcome := run (process_env s) (process_argv s)
                   (set_world (outside s) (set_CONFIG (config s) automationBg)) in
  let completed := fst (Date_now (world (snd outcome))) in
  let s' := snd (finish_background l automationBg s) in
  emitted s s' = [Ev_run (process_env s) (calls (snd outcome)) (fst outcome)]
  /\ heap s' = alter (match fst outcome with
                      | Normal r => settle_job "completed" r completed
                      | Throw e => settle_job "failed" (Failed e) completed
                      end) l (heap s)
  /\ jobs s' = jobs s /\ background s' = background s
  /\ config s' = CONFIG (snd outcome)
  /\ outside s' = snd (Date_now (world (snd outcome))).
Proof.
  cbv zeta. unfold finish_background, try_catch, bind, await_run.
  destruct (run _ _ _) as [[r|e] a']; cbn [fst snd]; unfold now, modify; cbn;
    destruct (Date_now (world a')) as [t w]; cbn; (split; [by apply emitted_app|done]).
Qed.

(** C8. [POST /automate] sends exactly one response, 200, 202 or 500, and 500
    exactly when the [try] block throws. With 200 (the blocking path ran to
    its end) [process.env] is the snapshot taken on entry, a plain object
    from then on. With 500 or 202 no assignment [process.env = originalEnv]
    is executed and [process.env] is what the handler's assignments made of
    it. Resuming a background closure never restores anything either. *)
Theorem env_restored_only_on_blocking_success body s :
  let s' := snd (automate Number_toString body s) in
  (exists r,
     responses (emitted s s') = [r]
     /\ (statusCode r = 200%Z \/ statusCode r = 202%Z \/ statusCode r = 500%Z)
     /\ (statusCode r = 500%Z <-> exists e, fst (automate_try Number_toString body s) = Throw e)
     /\ (statusCode r = 200%Z ->
           In (Ev_env_restore (process_env s)) (emitted s s')
           /\ process_env s' = process_env s
           /\ env_native s' = false)
     /\ (statusCode r <> 200%Z ->
           List.filter is_restore (emitted s s') = []
           /\ process_env s' = replay (env_native s) (emitted s s') (process_env s)
           /\ env_native s' = env_native s))
  /\ (forall i s0,
        let s1 := snd (resume_background i s0) in
        List.filter is_restore (emitted s0 s1) = []
        /\ process_env s1 = process_env s0
        /\ env_native s1 = env_native s0).
Proof.
  intros s'. subst s'. split.
  - destruct (automate_spec_holds Number_toString body s) as (s' & Heq & Hspec).
    rewrite Heq. cbn [snd].
    destruct Hspec; rewrite Hev, Htry, ?responses_app, responses_assigns, ?responses_headless;
      cbn [app responses omap]; eexists; (split; [reflexivity|]); cbn [statusCode].
    + split; [auto|]. split; [split; eauto|]. split; [done|]. intros _. split; [|split; [|done]].
      * by rewrite List.filter_app, no_restore_assigns.
      * rewrite Henv. by rewrite replay_app.
    + split; [auto|]. split; [split; eauto|]. split; [done|]. intros _. split; [|split; [|done]].
      * by rewrite !List.filter_app, no_restore_assigns, no_restore_headless.
      * rewrite Henv, Henv'. by rewrite app_assoc, (replay_app _ (_ ++ _)).
    + split; [auto|]. split; [split; [done|by intros [? ?]]|]. split; [|done]. intros _.
      split; [|done]. apply in_or_app. right. apply in_or_app. right. right. right. by left.
    + split; [auto|]. split; [split; [done|by intros [? ?]]|]. split; [done|]. intros _.
      split; [|split; [|done]].
      * by rewrite !List.filter_app, no_restore_assigns, no_restore_headless.
      * rewrite Henv, Henv'. by rewrite app_assoc, (replay_app _ (_ ++ _)).
  - intros i s0 s1. subst s1.
    pose proof (resume_background_native i s0) as Hnative.
    destruct (resume_background_facts i s0) as (s1 & Heq & _ & Henv & Hev & _).
    rewrite Heq in *. done.
Qed.

(** When the [try] block of the handler throws, the one response is the 500
    with the error's message. *)
Lemma automate_throw_is_500 body s e :
  fst (automate_try Number_toString body s) = Throw e ->
  exists t, responses (emitted s (snd (automate Number_toString body s)))
            = [{| statusCode := 500; json := Body_error e t |}].
Proof.
  intros Hthrow.
  destruct (automate_spec_holds Number_toString body s) as (s' & Heq & Hspec).
  rewrite Heq. cbn [snd].
  destruct Hspec; rewrite Htry in Hthrow; try discriminate Hthrow;
    injection Hthrow as <-; exists t;
    rewrite Hev, ?responses_app, responses_assigns, ?responses_headless; done.
Qed.


Lemma get_status_eq jobId s :
  exists b, get_status jobId s = (Normal tt, emit (Ev_respond b) s)
    /\ match jobs_get jobId s with
       | None => b = {| statusCode := 404; json := Body_notFound jobId |}
       | Some job =>
           b = {| statusCode := 200;
                  json := Body_status jobId (status job) (result job) (createdAt job)
                            (completedAt job)
                            match completedAt job with
                            | Some completed =>
                                Some (QArith_base.Qmake (completed - createdAt job) 1000)
                            | None => None
                            end |}
       end.
Proof.
  unfold get_status, bind, gets, respond, modify.
  destruct (jobs_get jobId s) as [job|]; eexists; split; reflexivity.
Qed.

Lemma emitted_emit s ev : emitted s (emit ev s) = [ev].
Proof. by apply emitted_app. Qed.


Lemma job_wf_settle st r t j :
  st = "completed" \/ st = "failed" -> job_wf (settle_job st r t j).
Proof.
  intros Hst. unfold job_wf. cbn.
  destruct Hst as [-> | ->]; (split; [auto|]); split; split; discriminate.
Qed.

Lemma store_wf_alter s st r t l :
  store_wf s -> st = "completed" \/ st = "failed" ->
  (forall l' j, alter (settle_job st r t) l (heap s) !! l' = Some j -> job_wf j)
  /\ (forall jobId l', jobs s !! jobId = Some l' ->
        exists j, alter (settle_job st r t) l (heap s) !! l' = Some j /\ id j = jobId).
Proof.
  intros [Hwf Hid] Hst. split.
  - intros l' j. destruct (decide (l = l')) as [<-|Hne].
    + rewrite list_lookup_alter_eq. destruct (heap s !! l) as [j0|]; [|done].
      intros [= <-]. by apply job_wf_settle.
    + rewrite list_lookup_alter_ne by done. apply Hwf.
  - intros jobId l' Hl'. destruct (Hid _ _ Hl') as (j & Hj & Hidj).
    destruct (decide (l = l')) as [<-|Hne].
    + rewrite list_lookup_alter_eq, Hj. by eexists.
    + rewrite list_lookup_alter_ne by done. by exists j.
Qed.

Lemma transition_store_wf s s' :
  transition Number_toString s s' -> store_wf s -> store_wf s'.
Proof.
  intros Ht Hs. destruct Ht as [body s|jobId s|i s].
  - destruct (automate_spec_holds Number_toString body s) as (s' & -> & Hspec).
    cbn [snd]. destruct Hs as [Hwf Hid].
    destruct Hspec; unfold store_wf; rewrite Hheap, Hjobs; try done.
    split.
    + intros l0 j [Hj|[_ Hj]]%lookup_app_Some; [by eapply Hwf|].
      apply list_lookup_singleton_Some in Hj as [_ <-].
      subst job. unfold job_wf. cbn. split; [auto|]. done.
    + intros jobId0 l0. destruct (decide (jobId = jobId0)) as [<-|Hne].
      * rewrite lookup_insert_eq. intros [= <-]. exists job.
        rewrite lookup_app_r by done. rewrite Nat.sub_diag. by subst job.
      * rewrite lookup_insert_ne by done. intros Hl0.
        destruct (Hid _ _ Hl0) as (j & Hj & Hidj). exists j.
        split; [|done]. by apply lookup_app_l_Some.
  - destruct (get_status_eq jobId s) as (b & -> & _). exact Hs.
  - destruct (resume_background_facts i s) as (s' & -> & Hjobs & _ & _ & Hheap).
    cbn [snd]. unfold store_wf. rewrite Hjobs.
    destruct (background s !! i) as [[l a]|]; [|by rewrite Hheap].
    destruct Hheap as (st & r & t & cs & c & -> & _ & Hst).
    apply store_wf_alter; [done|]. destruct Hst as [[-> _]|[-> _]]; auto.
Qed.

(** C6. In every state the server reaches from its start, every job of the
    store carries its own id, its status is ['running'], ['completed'] or
    ['failed'], and [result] and [completedAt] are [null] exactly while the
    status is ['running']. *)
Theorem job_records_well_formed env argv w s :
  rtc (transition Number_toString) (boot env argv w) s ->
  forall jobId job, jobs_get jobId s = Some job ->
    id job = jobId
    /\ In (status job) ["running"; "completed"; "failed"]
    /\ (status job = "running" <-> result job = None)
    /\ (status job = "running" <-> completedAt job = None).
Proof.
  intros Hreach.
  assert (store_wf s) as [Hwf Hid].
  { revert s Hreach. apply (rtc_ind_r (fun s => store_wf s)).
    - split; [intros l j Hl; cbn in Hl; by rewrite lookup_nil in Hl|].
      intros jobId l Hl. cbn in Hl. by rewrite lookup_empty in Hl.
    - intros y z _ Hyz Hy. by eapply transition_store_wf. }
  intros jobId job. unfold jobs_get.
  destruct (jobs s !! jobId) as [l|] eqn:Hl; [|done].
  intros Hjob. destruct (Hid _ _ Hl) as (j & Hj & Hidj).
  rewrite Hjob in Hj. injection Hj as <-. split; [done|]. by apply (Hwf l).
Qed.


(** C9, amended. When [String] throws on no value of the body, the request
    is handled in blocking mode (the handler awaits [run()]) if and only if
    [req.body.waitForResponse] is absent ([undefined]), is [null], or has
    the string form ['true'], and it is answered 202 with a job id if and
    only if not. When [String] throws on a value of the body, the flag
    included, the request is handled in neither mode: the one response is
    the 500 with the message of the [TypeError], and no automation is
    instantiated or run. *)
Theorem waitForResponse_selects_mode body s :
  let s' := snd (automate Number_toString body s) in
  let v := obj_get body "waitForResponse" in
  let blocking := v = VUndefined \/ v = VNull \/ js_String Number_toString v = Some "true" in
  let ok := printable Number_toString body (Object_keys body) in
  (hasOwn body "waitForResponse" = false -> v = VUndefined)
  /\ ((exists env cs outcome, In (Ev_run env cs outcome) (emitted s s')) <-> ok /\ blocking)
  /\ ((exists jobId t, responses (emitted s s') =
          [{| statusCode := 202; json := Body_accepted jobId ("/status/" ++ jobId) t |}])
      <-> ok /\ ¬ blocking)
  /\ (¬ ok ->
      (exists t, responses (emitted s s') =
         [{| statusCode := 500; json := Body_error TypeError_toPrimitive t |}])
      /\ List.filter is_new (emitted s s') = []
      /\ List.filter is_run (emitted s s') = []).
Proof.
  intros s' v blocking ok. subst s' v blocking ok.
  split; [apply hasOwn_false|].
  rewrite <- assignments_printable.
  destruct (automate_spec_holds Number_toString body s) as (s' & Heq & Hspec).
  rewrite Heq. cbn [snd]. rewrite <- wants_blocking_true.
  destruct Hspec; rewrite Hev, Hloop; cbn [snd];
    rewrite ?Hmode, !responses_app, responses_assigns, ?responses_headless;
    cbn [app responses omap].
  - split; [|split].
    + split; [|by intros [? _]]. intros (env0 & cs0 & outcome & Hin).
      apply in_app_or in Hin as [Hin|Hin]; [by apply not_run_assigns in Hin|].
      destruct Hin as [Hin|[]]. discriminate Hin.
    + split; [|by intros [? _]]. intros (jobId & t' & Hr). discriminate Hr.
    + intros _. split; [by exists t|].
      by rewrite !List.filter_app, no_new_assigns, no_run_assigns.
  - split; [|split; [|done]].
    + split; [done|]. intros _. exists env', cs, (Throw e).
      apply in_or_app. right. apply in_or_app. right. right. by left.
    + split; [|by intros [_ ?]]. intros (jobId & t' & Hr). discriminate Hr.
  - split; [|split; [|done]].
    + split; [done|]. intros _. exists env', cs, (Normal r).
      apply in_or_app. right. apply in_or_app. right. right. by left.
    + split; [|by intros [_ ?]]. intros (jobId & t' & Hr). discriminate Hr.
  - split; [|split; [|done]].
    + split; [|by intros [_ ?]]. intros (env0 & cs0 & outcome & Hin).
      apply in_app_or in Hin as [Hin|Hin]; [by apply not_run_assigns in Hin|].
      apply in_app_or in Hin as [Hin|Hin]; [by apply not_run_headless in Hin|].
      cbn [In] in Hin. destruct_or!; try discriminate; done.
    + split; [done|]. intros _. by exists jobId, t.
Qed.

(** C2, amended. When [String] throws on no value of the body and the flag
    evaluates to background mode, [POST /automate] answers 202 with the job
    id it drew and the status URL, without awaiting [run()]; it has stored
    a job with status ['running'] under that id, instantiated the
    automation from the environment it leaves, and left the closure
    pending. A poll of the id reports ['running']. When the closure is
    resumed it runs that automation, and a poll then reports ['completed']
    with the result [run()] resolved to, or ['failed'] with the message it
    rejected with, and the time read after the run. *)
Theorem background_request_is_accepted body s :
  printable Number_toString body (Object_keys body) ->
  wants_blocking Number_toString body = Some false ->
  let s' := snd (automate Number_toString body s) in
  let jobId := fst (uuidv4 (outside s)) in
  let w1 := snd (uuidv4 (outside s)) in
  let created := fst (Date_now w1) in
  let w2 := snd (Date_now w1) in
  let t := fst (Date_now w2) in
  let job := {| id := jobId; status := "running"; createdAt := created;
                result := None; completedAt := None |} in
  responses (emitted s s') =
    [{| statusCode := 202; json := Body_accepted jobId ("/status/" ++ jobId) t |}]
  /\ List.filter is_run (emitted s s') = []
  /\ List.filter is_new (emitted s s') = [Ev_new (process_env s')]
  /\ jobs_get jobId s' = Some job
  /\ background s' =
       (background s ++ [(length (heap s), constructor (process_env s') (config s) w2)])%list
  /\ responses (emitted s' (snd (get_status jobId s'))) =
       [{| statusCode := 200;
           json := Body_status jobId "running" None created None None |}]
  /\ (let s'' := snd (resume_background (length (background s)) s') in
      let outcome := run (process_env s') (process_argv s')
                       (constructor (process_env s') (config s) (outside s')) in
      let completed := fst (Date_now (world (snd outcome))) in
      let st := match fst outcome with Normal _ => "completed" | Throw _ => "failed" end in
      let r := match fst outcome with Normal r => r | Throw e => Failed e end in
      emitted s' s'' = [Ev_run (process_env s') (calls (snd outcome)) (fst outcome)]
      /\ background s'' = background s
      /\ config s'' = CONFIG (snd outcome)
      /\ outside s'' = snd (Date_now (world (snd outcome)))
      /\ jobs_get jobId s'' =
           Some {| id := jobId; status := st; createdAt := created;
                   result := Some r; completedAt := Some completed |}
      /\ responses (emitted s'' (snd (get_status jobId s''))) =
           [{| statusCode := 200;
               json := Body_status jobId st (Some r) created (Some completed)
                         (Some (QArith_base.Qmake (completed - created) 1000)) |}]).
Proof.
  intros Hloop Hmode s'. subst s'.
  apply assignments_printable in Hloop.
  destruct (automate_spec_holds Number_toString body s) as (s' & -> & Hspec).
  cbn [snd].
  destruct Hspec; try (rewrite Hloop0 in Hloop; discriminate Hloop);
    try (rewrite Hmode0 in Hmode; discriminate Hmode).
  rewrite Hid. cbn [fst snd]. rewrite Hcreated. cbn [fst snd]. rewrite Ht. cbn [fst snd].
  rewrite Henv. rewrite <- Hauto.
  assert (jobs_get jobId s' = Some job) as Hget.
  { unfold jobs_get. rewrite Hjobs, lookup_insert_eq, Hheap.
    rewrite lookup_app_r by done. by rewrite Nat.sub_diag. }
  rewrite <- Hjob.
  split; [|split; [|split; [|split; [done|split; [done|split]]]]].
  - rewrite Hev, !responses_app, responses_assigns, responses_headless. done.
  - rewrite Hev, !List.filter_app, no_run_assigns, no_run_headless. done.
  - rewrite Hev, !List.filter_app, no_new_assigns, no_new_headless. done.
  - destruct (get_status_eq jobId s') as (b & -> & Hb). cbn [snd].
    rewrite emitted_emit. rewrite Hget in Hb. subst b job. done.
  - unfold resume_background, bind, gets. rewrite Hbg.
    rewrite lookup_app_r by done. rewrite Nat.sub_diag. cbn [lookup list_lookup].
    unfold modify. cbn [fst snd].
    set (s0 := set_background _ s').
    pose proof (finish_background_run (length (heap s)) automationBg s0) as Hrun.
    cbv zeta in Hrun.
    change (process_env s0) with (process_env s') in Hrun.
    change (process_argv s0) with (process_argv s') in Hrun.
    change (outside s0) with (outside s') in Hrun.
    change (config s0) with (config s') in Hrun.
    change (heap s0) with (heap s') in Hrun.
    change (jobs s0) with (jobs s') in Hrun.
    rewrite Hconfig in Hrun.
    replace (set_world (outside s') (set_CONFIG (CONFIG automationBg) automationBg))
      with (constructor env' (config s) (outside s')) in Hrun by (by rewrite Hauto).
    rewrite Henv in Hrun.
    set (outcome := run env' (process_argv s') (constructor env' (config s) (outside s')))
      in *.
    destruct Hrun as (Hev' & Hheap' & Hjobs' & Hbg' & Hconfig' & Houtside').
    set (s'' := snd (finish_background (length (heap s)) automationBg s0)) in *.
    split; [exact Hev'|]. split.
    { rewrite Hbg'. subst s0. cbn [background set_background].
      rewrite Hbg. rewrite delete_middle. by rewrite app_nil_r. }
    split; [exact Hconfig'|]. split; [exact Houtside'|].
    assert (jobs_get jobId s'' =
            Some (match fst outcome with
                  | Normal r => settle_job "completed" r
                                  (fst (Date_now (world (snd outcome))))
                  | Throw e => settle_job "failed" (Failed e)
                                  (fst (Date_now (world (snd outcome))))
                  end job)) as Hget'.
    { unfold jobs_get. rewrite Hjobs', Hjobs, lookup_insert_eq, Hheap', Hheap.
      rewrite list_lookup_alter_eq. rewrite lookup_app_r by done.
      by rewrite Nat.sub_diag. }
    assert (match fst outcome with
            | Normal r => settle_job "completed" r (fst (Date_now (world (snd outcome))))
            | Throw e => settle_job "failed" (Failed e) (fst (Date_now (world (snd outcome))))
            end job =
            {| id := jobId;
               status := match fst outcome with
                         | Normal _ => "completed" | Throw _ => "failed" end;
               createdAt := created;
               result := Some match fst outcome with Normal r => r | Throw e => Failed e end;
               completedAt := Some (fst (Date_now (world (snd outcome)))) |}) as Hjob'.
    { subst job. by destruct (fst outcome). }
    rewrite Hjob' in Hget'. split; [exact Hget'|].
    destruct (get_status_eq jobId s'') as (b & -> & Hb). cbn [snd].
    rewrite emitted_emit. rewrite Hget' in Hb. subst b. done.
Qed.

End ServerClaims.

(** ** The automation: frames and page-only computations *)

Section AutomationFacts.
Context {World : Type} `{Outside World}.
Implicit Types (a : Automation World).

Lemma extends_refl a : extends a a [].
Proof. unfold extends. by rewrite app_nil_r. Qed.

Lemma extends_trans a a1 a' cs1 cs2 :
  extends a a1 cs1 -> extends a1 a' cs2 -> extends a a' (cs1 ++ cs2).
Proof.
  intros (?&?&?&Hc1) (?&?&?&Hc2). unfold extends.
  rewrite Hc2, Hc1, app_assoc. repeat split; congruence.
Qed.

Lemma extends_record a w c : extends a (set_world w (record_call c a)) [c].
Proof. done. Qed.

Lemma called_extends a a' cs : extends a a' cs -> called a a' = cs.
Proof. intros (_&_&_&Hc). unfold called. rewrite Hc. by rewrite drop_app_length. Qed.

Lemma steps_of_app cs1 cs2 : steps_of (cs1 ++ cs2) = (steps_of cs1 ++ steps_of cs2)%list.
Proof. apply omap_app. Qed.

Lemma attempts_of_app cs1 cs2 :
  attempts_of (cs1 ++ cs2) = (attempts_of cs1 ++ attempts_of cs2)%list.
Proof. apply omap_app. Qed.

Lemma page_level_steps cs : forallb page_level cs = true -> steps_of cs = [].
Proof.
  induction cs as [|c cs IH]; [done|]. cbn [forallb].
  intros [Hc Hcs]%andb_prop. unfold steps_of. cbn. destruct c; try done; by apply IH.
Qed.

Lemma page_level_attempts cs : forallb page_level cs = true -> attempts_of cs = [].
Proof.
  induction cs as [|c cs IH]; [done|]. cbn [forallb].
  intros [Hc Hcs]%andb_prop. unfold attempts_of. cbn. destruct c; try done; by apply IH.
Qed.

Lemma page_call_spec {A} (c : completion A -> Call) (f : M World A) a :
  exists r w, page_call c f a = (r, set_world w (record_call (c r) a)).
Proof. unfold page_call. destruct (f (world a)) as [r w]. by exists r, w. Qed.

Lemma page_only_call {A} (c : completion A -> Call) (f : M World A) :
  (forall r, page_level (c r) = true) -> page_only (page_call c f).
Proof.
  intros Hc a. destruct (page_call_spec c f a) as (r & w & ->).
  exists [c r]. split; [apply extends_record|]. cbn. by rewrite Hc.
Qed.

Lemma page_only_ret {A} (x : A) : page_only (ret x : M (Automation World) A).
Proof. intros a. exists []. split; [apply extends_refl|done]. Qed.

Lemma page_only_throw {A} e : page_only (throw e : M (Automation World) A).
Proof. intros a. exists []. split; [apply extends_refl|done]. Qed.

Lemma page_only_bind {A B} (m : M (Automation World) A) (k : A -> M (Automation World) B) :
  page_only m -> (forall x, page_only (k x)) -> page_only (bind m k).
Proof.
  intros Hm Hk a. unfold bind. destruct (Hm a) as (cs1 & He1 & Hs1).
  destruct (m a) as [[x|e] a1]; cbn [snd] in *.
  - destruct (Hk x a1) as (cs2 & He2 & Hs2). exists (cs1 ++ cs2)%list.
    split; [by eapply extends_trans|]. by rewrite forallb_app, Hs1, Hs2.
  - by exists cs1.
Qed.

Lemma page_only_try_catch {A} (m : M (Automation World) A) (h : exn -> M (Automation World) A) :
  page_only m -> (forall e, page_only (h e)) -> page_only (try_catch m h).
Proof.
  intros Hm Hh a. unfold try_catch. destruct (Hm a) as (cs1 & He1 & Hs1).
  destruct (m a) as [[x|e] a1]; cbn [snd] in *.
  - by exists cs1.
  - destruct (Hh e a1) as (cs2 & He2 & Hs2). exists (cs1 ++ cs2)%list.
    split; [by eapply extends_trans|]. by rewrite forallb_app, Hs1, Hs2.
Qed.

Lemma page_only_if {A} (b : bool) (m1 m2 : M (Automation World) A) :
  page_only m1 -> page_only m2 -> page_only (if b then m1 else m2).
Proof. by destruct b. Qed.

Ltac page_only :=
  repeat first
    [ apply page_only_ret | apply page_only_throw
    | apply page_only_bind; [|intros ?]
    | apply page_only_try_catch; [|intros ?]
    | apply page_only_if
    | apply page_only_call; done ].

Lemma page_only_clearAndType selector text : page_only (clearAndType selector text).
Proof. unfold clearAndType, scrollIntoViewIfNeeded, focus, fill, type. page_only. Qed.

Lemma page_only_clickElement selector : page_only (clickElement selector).
Proof. unfold clickElement, scrollIntoViewIfNeeded, click. page_only. Qed.

(** *** [openTicketByTitle] *)

Lemma open_clicks candidate a :
  exists c a' cs,
    openTicket_open candidate a = (c, a')
    /\ extends a a' cs /\ forallb page_level cs = true
    /\ (c = Normal true -> In (Call_click candidate (Normal tt)) cs).
Proof.
  unfold openTicket_open, bind at 1.
  unfold scrollIntoViewIfNeeded at 1.
  destruct (page_call_spec (Call_scrollIntoViewIfNeeded candidate)
              (locator_scrollIntoViewIfNeeded candidate) a) as (r1 & w1 & ->).
  destruct r1 as [[]|e1].
  2:{ eexists _, _, [Call_scrollIntoViewIfNeeded candidate (Throw e1)].
      split; [reflexivity|]. split; [apply extends_record|]. split; [reflexivity|]. intros [=]. }
  unfold bind at 1. unfold click at 1.
  destruct (page_call_spec (Call_click candidate) (locator_click candidate)
              (set_world w1 (record_call (Call_scrollIntoViewIfNeeded candidate (Normal tt)) a)))
    as (r2 & w2 & ->).
  destruct r2 as [[]|e2].
  - match goal with |- context [?m ?a2 = _] =>
      assert (page_only m) as Hrest
        by (unfold waitForTimeout, isVisible, click; page_only);
      destruct (Hrest a2) as (cs3 & He3 & Hs3);
      destruct (m a2) as [c a'] eqn:Hm
    end.
    exists c, a', ([Call_scrollIntoViewIfNeeded candidate (Normal tt);
                    Call_click candidate (Normal tt)] ++ cs3)%list.
    split; [reflexivity|]. split; [|split].
    + cbn [snd] in He3. eapply extends_trans; [|exact He3].
      unfold extends. cbn. by rewrite <- app_assoc.
    + by rewrite forallb_app, Hs3.
    + intros _. right. by left.
  - eexists _, _, [Call_scrollIntoViewIfNeeded candidate (Normal tt);
                   Call_click candidate (Throw e2)].
    split; [reflexivity|]. split; [|split; [reflexivity|intros [=]]].
    unfold extends. cbn. by rewrite <- app_assoc.
Qed.

Lemma candidates_evidence t cands a :
  exists c a' cs,
    openTicket_candidates t cands a = (c, a')
    /\ extends a a' cs /\ forallb page_level cs = true
    /\ (c = Normal true -> opened_evidence t cs).
Proof.
  revert a. induction cands as [|cand rest IH]; intros a; cbn [openTicket_candidates].
  - eexists _, _, []. split; [reflexivity|]. split; [apply extends_refl|].
    split; [done|]. intros [=].
  - unfold bind, textContent.
    destruct (page_call_spec (Call_textContent cand) (locator_textContent cand) a)
      as (r & w & ->).
    set (a1 := set_world w (record_call (Call_textContent cand r) a)).
    assert (extends a a1 [Call_textContent cand r]) as He1 by apply extends_record.
    assert (forall a' cs, extends a1 a' cs -> forallb page_level cs = true ->
              extends a a' (Call_textContent cand r :: cs)
              /\ forallb page_level (Call_textContent cand r :: cs) = true) as Hcons.
    { intros a' cs He Hs. split; [|exact Hs].
      apply (extends_trans _ _ _ [_] cs He1 He). }
    destruct r as [content|e].
    + destruct (String.eqb_spec (default "" content) "") as [Hempty|Hne].
      * destruct (IH a1) as (c & a' & cs & -> & He & Hs & Hev).
        exists c, a', (Call_textContent cand (Normal content) :: cs).
        destruct (Hcons _ _ He Hs) as [? ?]. do 3 (split; [done|]).
        intros Htrue. destruct (Hev Htrue) as (c0 & text & ? & ? & ?).
        exists c0, text. repeat split; [by right|done|by right].
      * destruct (includes _ _) eqn:Hincl.
        -- destruct (open_clicks cand a1) as (c & a' & cs & -> & He & Hs & Hev).
           exists c, a', (Call_textContent cand (Normal content) :: cs).
           destruct (Hcons _ _ He Hs) as [? ?]. do 3 (split; [done|]).
           intros Htrue. destruct content as [text|]; [|done].
           exists cand, text. repeat split; [by left|done|right; by apply Hev].
        -- destruct (IH a1) as (c & a' & cs & -> & He & Hs & Hev).
           exists c, a', (Call_textContent cand (Normal content) :: cs).
           destruct (Hcons _ _ He Hs) as [? ?]. do 3 (split; [done|]).
           intros Htrue. destruct (Hev Htrue) as (c0 & text & ? & ? & ?).
           exists c0, text. repeat split; [by right|done|by right].
    + eexists _, _, [Call_textContent cand (Throw e)]. split; [reflexivity|]. by split.
Qed.

Lemma opened_evidence_app t cs1 cs2 cs3 :
  opened_evidence t cs2 -> opened_evidence t (cs1 ++ cs2 ++ cs3).
Proof.
  intros (c0 & text & ? & ? & ?). exists c0, text.
  repeat split; [|done|]; apply in_or_app; right; apply in_or_app; by left.
Qed.

Lemma selectors_evidence t sels a :
  exists opened a' cs,
    openTicket_selectors t sels a = (Normal opened, a')
    /\ extends a a' cs /\ forallb page_level cs = true
    /\ (opened = true -> opened_evidence t cs).
Proof.
  revert a. induction sels as [|sel rest IH]; intros a; cbn [openTicket_selectors].
  - eexists false, _, []. split; [reflexivity|]. split; [apply extends_refl|].
    split; [done|]. intros [=].
  - unfold bind at 1, try_catch, bind at 1, all.
    destruct (page_call_spec (Call_all (page_locator sel)) (locator_all (page_locator sel)) a)
      as (r & w & ->).
    set (a1 := set_world w (record_call (Call_all (page_locator sel) r) a)).
    assert (extends a a1 [Call_all (page_locator sel) r]) as He1 by apply extends_record.
    assert (forall found a2 cs2,
              extends a1 a2 cs2 -> forallb page_level cs2 = true ->
              (found = true -> opened_evidence t cs2) ->
              exists opened a' cs,
                (if found then ret true else openTicket_selectors t rest) a2
                = (Normal opened, a')
                /\ extends a a' cs /\ forallb page_level cs = true
                /\ (opened = true -> opened_evidence t cs)) as Hnext.
    { intros found a2 cs2 He2 Hs2 Hev2. destruct found.
      - exists true, a2, ([Call_all (page_locator sel) r] ++ cs2 ++ [])%list.
        rewrite app_nil_r. split; [reflexivity|]. split; [by eapply extends_trans|].
        split; [done|]. intros _. specialize (Hev2 eq_refl).
        apply (opened_evidence_app t [Call_all (page_locator sel) r] cs2 []) in Hev2.
        by rewrite app_nil_r in Hev2.
      - destruct (IH a2) as (opened & a' & cs3 & -> & He3 & Hs3 & Hev3).
        exists opened, a', ([Call_all (page_locator sel) r] ++ cs2 ++ cs3)%list.
        split; [reflexivity|].
        split; [eapply extends_trans; [exact He1|by eapply extends_trans]|].
        split; [by rewrite !forallb_app, Hs2, Hs3|].
        intros Htrue. specialize (Hev3 Htrue).
        destruct Hev3 as (c0 & text & ? & ? & ?). exists c0, text.
        repeat split; [|done|]; apply in_or_app; right; apply in_or_app; by right. }
    destruct r as [candidates|e].
    + destruct (Nat.eqb (length candidates) 0).
      * cbn [ret]. apply (Hnext false a1 []); [apply extends_refl|done|done].
      * destruct (candidates_evidence t candidates a1) as (c & a2 & cs2 & -> & He2 & Hs2 & Hev2).
        destruct c as [found|e].
        -- apply (Hnext found a2 cs2); [done|done|]. by intros ->; apply Hev2.
        -- apply (Hnext false a2 cs2); done.
    + cbn [ret]. apply (Hnext false a1 []); [apply extends_refl|done|done].
Qed.

(** [openTicketByTitle] never throws; it records its call and its result,
    and a [true] result comes with a clicked candidate whose text contains
    the title, up to case. *)
Lemma openTicketByTitle_spec t a :
  exists opened a' cs,
    openTicketByTitle t a = (Normal opened, a')
    /\ extends a a' ([Call_openTicketByTitle t] ++ cs ++ [Call_step OpenTicketByTitle opened])
    /\ forallb page_level cs = true
    /\ (opened = true -> opened_evidence t cs).
Proof.
  unfold openTicketByTitle, bind at 1, modify.
  set (a0 := record_call (Call_openTicketByTitle t) a).
  assert (extends a a0 [Call_openTicketByTitle t]) as He0 by done.
  unfold bind at 1, try_catch, bind at 1, waitForTimeout.
  destruct (page_call_spec (Call_waitForTimeout 2000) (page_waitForTimeout 2000) a0)
    as (r & w & ->).
  set (a1 := set_world w (record_call (Call_waitForTimeout 2000 r) a0)).
  assert (extends a0 a1 [Call_waitForTimeout 2000 r]) as He1 by apply extends_record.
  destruct r as [[]|e].
  - destruct (selectors_evidence t (openTicketByTitle_selectors t) a1)
      as (opened & a2 & cs2 & -> & He2 & Hs2 & Hev2).
    unfold bind, modify, ret.
    eexists opened, _, ([Call_waitForTimeout 2000 (Normal tt)] ++ cs2)%list.
    split; [reflexivity|]. split; [|split; [done|]].
    + eapply extends_trans; [exact He0|].
      eapply extends_trans; [eapply extends_trans; [exact He1|exact He2]|]. done.
    + intros ->. specialize (Hev2 eq_refl).
      apply (opened_evidence_app t [Call_waitForTimeout 2000 (Normal tt)] cs2 []) in Hev2.
      by rewrite app_nil_r in Hev2.
  - unfold ret, bind, modify.
    eexists false, _, [Call_waitForTimeout 2000 (Throw e)].
    split; [reflexivity|]. split; [|done].
    eapply extends_trans; [exact He0|]. eapply extends_trans; [exact He1|]. done.
Qed.


(** *** Postconditions, rule by rule *)

Lemma post_ret {S A} (x : A) (s : S) Q : Q (Normal x) s -> post (ret x) s Q.
Proof. done. Qed.

Lemma post_throw {S A} e (s : S) (Q : completion A -> S -> Prop) :
  Q (Throw e) s -> post (throw e) s Q.
Proof. done. Qed.

Lemma post_gets {S A} (f : S -> A) (s : S) Q : Q (Normal (f s)) s -> post (gets f) s Q.
Proof. done. Qed.

Lemma post_modify {S} (f : S -> S) (s : S) Q : Q (Normal tt) (f s) -> post (modify f) s Q.
Proof. done. Qed.

Lemma post_bind {S A B} (m : M S A) (k : A -> M S B) (s : S) Q :
  post m s (fun c s1 => match c with
                        | Normal x => post (k x) s1 Q
                        | Throw e => Q (Throw e) s1
                        end) ->
  post (bind m k) s Q.
Proof. unfold post, bind. by destruct (m s) as [[x|e] s1]. Qed.

Lemma post_try_catch {S A} (m : M S A) (h : exn -> M S A) (s : S) Q :
  post m s (fun c s1 => match c with
                        | Normal x => Q (Normal x) s1
                        | Throw e => post (h e) s1 Q
                        end) ->
  post (try_catch m h) s Q.
Proof. unfold post, try_catch. by destruct (m s) as [[x|e] s1]. Qed.

Lemma post_try_finally {S A} (m : M S A) (fin : M S unit) (s : S) Q :
  post m s (fun c s1 =>
    post fin s1 (fun cf s2 => match cf with
                              | Normal _ => Q c s2
                              | Throw e => Q (Throw e) s2
                              end)) ->
  post (try_finally m fin) s Q.
Proof.
  unfold post, try_finally. destruct (m s) as [c s1]. cbn [fst snd].
  by destruct (fin s1) as [[[]|e] s2].
Qed.

Lemma post_call {A} (c : A -> Call) (f : World -> A * World) a Q :
  (forall r w, f (world a) = (r, w) -> Q (Normal r) (set_world w (record_call (c r) a))) ->
  post (call c f) a Q.
Proof. intros HQ. unfold post, call. destruct (f (world a)) as [r w] eqn:Hf. by apply HQ. Qed.

Lemma post_page_call {A} (c : completion A -> Call) (f : M World A) a Q :
  (forall r w, f (world a) = (r, w) -> Q r (set_world w (record_call (c r) a))) ->
  post (page_call c f) a Q.
Proof.
  intros HQ. unfold post, page_call. destruct (f (world a)) as [r w] eqn:Hf. by apply HQ.
Qed.

Lemma post_call_init a (Q : completion unit -> Automation World -> Prop) :
  (forall w, Q (Normal tt) (set_browser true (set_world w (record_call Call_init a)))) ->
  (forall e w, Q (Throw e) (set_world w (record_call Call_init a))) ->
  (forall e w, Q (Throw e) (set_browser true (set_world w (record_call Call_init a)))) ->
  post call_init a Q.
Proof.
  intros H1 H2 H3. unfold post, call_init.
  destruct (init (world a)) as [[|e|e] w]; cbn [fst snd]; auto.
Qed.

Lemma post_openTicketByTitle t a (Q : completion bool -> Automation World -> Prop) :
  (forall opened a' cs,
     extends a a' ([Call_openTicketByTitle t] ++ cs ++ [Call_step OpenTicketByTitle opened]) ->
     forallb page_level cs = true -> (opened = true -> opened_evidence t cs) ->
     Q (Normal opened) a') ->
  post (openTicketByTitle t) a Q.
Proof.
  intros HQ. unfold post.
  destruct (openTicketByTitle_spec t a) as (opened & a' & cs & -> & He & Hs & Hev).
  by eapply HQ.
Qed.

Ltac wp_step :=
  lazymatch goal with
  | |- post (bind _ _) _ _ => apply post_bind
  | |- post (ret _) _ _ => apply post_ret
  | |- post (throw _) _ _ => apply post_throw
  | |- post (gets _) _ _ => apply post_gets
  | |- post (modify _) _ _ => apply post_modify
  | |- post (try_catch _ _) _ _ => apply post_try_catch
  | |- post (try_finally _ _) _ _ => apply post_try_finally
  | |- post call_init _ _ => apply post_call_init; [intros ?|intros ? ?|intros ? ?]
  | |- post (call _ _) _ _ => apply post_call; intros ? ? _
  | |- post (step _ _) _ _ => apply post_call; intros ? ? _
  | |- post (page_call _ _) _ _ => apply post_page_call; intros ? ? _
  | |- post (waitForTimeout _) _ _ => apply post_page_call; intros ? ? _
  | |- post (call_captureScreenshot _) _ _ => apply post_call; intros ? ? _
  | |- post call_submitTicket _ _ => unfold call_submitTicket
  | |- post (updateDescriptionFromEmail _) _ _ => apply post_modify
  | |- post (openTicketByTitle _) _ _ =>
      apply post_openTicketByTitle; intros ? ? ? ? ? ?
  | |- post (if negb ?b then _ else _) _ _ => destruct b; cbn [negb]
  | |- post (if ?b then _ else _) _ _ => destruct b eqn:?
  | |- post (match ?x with _ => _ end) _ _ => destruct x
  | |- match ?c with Normal _ => _ | Throw _ => _ end => destruct c as [[]|?]
  end; cbv beta iota.

Ltac simpl_run :=
  cbn [world this_browser this_ticketId CONFIG calls set_world set_browser
       set_ticketId set_CONFIG record_call fst snd negb].

Ltac calls_norm :=
  unfold called; simpl_run; rewrite <- ?app_assoc; rewrite drop_app_length; cbn [app].

Ltac run_leaf :=
  calls_norm; unfold steps_of; cbn [omap list_omap map fst snd length take last];
  split; [reflexivity|split];
  [ let st := fresh "st" in let Hcrit := fresh "Hcrit" in let Hin := fresh "Hin" in
    intros st Hcrit Hin; cbn [In] in Hin; destruct_or!; simplify_eq;
    try (cbn in Hcrit; discriminate Hcrit); try done;
    try (split; [reflexivity|first [left; reflexivity|right; eexists; split; reflexivity]])
  | let res := fresh "res" in let Hr := fresh "Hr" in let Hs := fresh "Hs" in
    intros res Hr Hs; simplify_eq; try (cbn in Hs; discriminate Hs); try reflexivity ].

(** The steps of a default-mode run, in order, and where it stops. *)
Lemma default_run_trace env argv a :
  logNoteOnlyMode env = false ->
  let c := fst (run env argv a) in
  let a' := snd (run env argv a) in
  let trace := steps_of (called a a') in
  map fst trace = take (length trace) default_sequence
  /\ (forall s, critical s = true -> In (s, false) trace ->
        last trace = Some (s, false)
        /\ (c = Normal (Failed (failure_message s))
            \/ exists e, c = Throw e
                         /\ last (called a a') = Some (Call_browser_close (Throw e))))
  /\ (forall r, c = Normal r -> success r = true -> map fst trace = default_sequence).
Proof.
  intros Hmode.
  change (post (run env argv) a (fun c a' =>
    let trace := steps_of (called a a') in
    map fst trace = take (length trace) default_sequence
    /\ (forall s, critical s = true -> In (s, false) trace ->
          last trace = Some (s, false)
          /\ (c = Normal (Failed (failure_message s))
              \/ exists e, c = Throw e
                           /\ last (called a a') = Some (Call_browser_close (Throw e))))
    /\ (forall r, c = Normal r -> success r = true -> map fst trace = default_sequence))).
  unfold run, run_try. rewrite Hmode. unfold run_default.
  repeat (wp_step; simpl_run).
  all: cbv zeta; run_leaf.
Qed.

(** [run] settles in one of two ways: [browser.close()] throws in the
    [finally] block and [run] rejects with that error, or [run] resolves,
    to the result of the [try] block or to the failure result made from
    what it threw. *)
Lemma run_outcome env argv (a : Automation World) :
  let c := fst (run env argv a) in
  (exists e', c = Throw e'
              /\ last (calls (snd (run env argv a))) = Some (Call_browser_close (Throw e')))
  \/ c = Normal match fst (run_try env argv a) with
                | Normal r => r
                | Throw e => Failed e
                end.
Proof.
  cbv zeta. unfold run, try_finally, try_catch.
  destruct (run_try env argv a) as [[r|e] a1]; cbn [fst].
  - unfold bind, gets. destruct (this_browser a1).
    + unfold page_call. destruct (browser_close (world a1)) as [[[]|e'] w]; cbn.
      * by right.
      * left. exists e'. by rewrite last_snoc.
    + cbn. by right.
  - unfold bind, call_captureScreenshot, call, ret, gets. cbn.
    destruct (this_browser a1).
    + unfold page_call. cbn. destruct (browser_close _) as [[[]|e'] w]; cbn.
      * by right.
      * left. exists e'. by rewrite last_snoc.
    + cbn. by right.
Qed.

Lemma truthy_spec (o : option string) :
  truthy o = true <-> exists v, o = Some v /\ v <> "".
Proof.
  destruct o as [v|]; cbn.
  - destruct (String.eqb_spec v ""); cbn; split; try done.
    + intros (v' & [= <-] & Hne). done.
    + intros _. by exists v.
  - split; [done|]. by intros (v & ? & _).
Qed.

Lemma logNoteOnlyMode_spec env :
  logNoteOnlyMode env = true <->
  is_set_nonempty env "TICKET_TITLE"
  /\ (is_set_nonempty env "LOG_NOTE" \/ is_set_nonempty env "EMAIL_SUBJECT").
Proof.
  unfold logNoteOnlyMode, is_set_nonempty, js_or. rewrite <- !truthy_spec.
  destruct (truthy (env !! "TICKET_TITLE")); cbn; [|naive_solver].
  destruct (truthy (env !! "LOG_NOTE")) eqn:HL; [rewrite HL; naive_solver|].
  destruct (truthy (env !! "EMAIL_SUBJECT")); naive_solver.
Qed.

Lemma steps_of_cons c cs :
  steps_of (c :: cs) =
  (match c with Call_step st ok => [(st, ok)] | _ => [] end ++ steps_of cs)%list.
Proof. unfold steps_of. cbn. by destruct c. Qed.

Ltac simpl_cfg :=
  cbn [world this_browser this_ticketId CONFIG calls set_world set_browser
       set_ticketId set_CONFIG record_call fst snd negb
       title set_title set_logNote set_description set_customer].

(** A run in log-note-only mode. *)
Lemma logNote_only_run env argv a :
  logNoteOnlyMode env = true ->
  exists ticket,
    env !! "TICKET_TITLE" = Some ticket /\ ticket <> "" /\
    let c := fst (run env argv a) in
    let cs := called a (snd (run env argv a)) in
    let trace := steps_of cs in
    map fst trace = take (length trace) logNote_sequence
    /\ (In OpenTicketByTitle (map fst trace) -> In (Call_openTicketByTitle ticket) cs)
    /\ (In (OpenTicketByTitle, false) trace ->
          last trace = Some (OpenTicketByTitle, false)
          /\ (c = Normal (Failed ("Ticket not found: " ++ ticket))
              \/ exists e, c = Throw e /\ last cs = Some (Call_browser_close (Throw e))))
    /\ (forall r, c = Normal r -> success r = true ->
          r = Succeeded None /\ map fst trace = logNote_sequence
          /\ opened_evidence ticket cs).
Proof.
  intros Hmode.
  destruct (proj1 (logNoteOnlyMode_spec env) Hmode) as [(ticket & Hticket & Hne) _].
  exists ticket. split; [done|]. split; [done|].
  assert (forall d, js_or_str (env !! "TICKET_TITLE") d = ticket) as Hjs.
  { intros d. unfold js_or_str, js_or. rewrite Hticket. cbn.
    by destruct (String.eqb_spec ticket ""). }
  change (post (run env argv) a (fun c a' =>
    let cs := called a a' in
    let trace := steps_of cs in
    map fst trace = take (length trace) logNote_sequence
    /\ (In OpenTicketByTitle (map fst trace) -> In (Call_openTicketByTitle ticket) cs)
    /\ (In (OpenTicketByTitle, false) trace ->
          last trace = Some (OpenTicketByTitle, false)
          /\ (c = Normal (Failed ("Ticket not found: " ++ ticket))
              \/ exists e, c = Throw e /\ last cs = Some (Call_browser_close (Throw e))))
    /\ (forall r, c = Normal r -> success r = true ->
          r = Succeeded None /\ map fst trace = logNote_sequence
          /\ opened_evidence ticket cs))).
  unfold run, run_try. rewrite Hmode. unfold run_logNoteOnly.
  repeat (wp_step; simpl_cfg; rewrite ?Hjs).
  all: cbv zeta.
  all: try match goal with
           | He : extends _ _ _ |- _ =>
               destruct He as (_ & _ & Hcfg & Hcalls);
               cbn [calls set_world set_browser set_ticketId set_CONFIG record_call] in Hcalls;
               cbn [CONFIG set_world set_browser set_ticketId set_CONFIG record_call] in Hcfg;
               rewrite ?Hcfg; cbn [title set_title set_logNote set_description set_customer];
               rewrite ?Hjs
           end.
  all: unfold called; simpl_cfg; rewrite ?Hcalls; rewrite <- ?app_assoc;
       rewrite drop_app_length; cbn [app].
  all: rewrite ?steps_of_cons, ?steps_of_app, ?steps_of_cons; cbn [app].
  all: try match goal with
           | Hp : forallb page_level _ = true |- _ =>
               rewrite (page_level_steps _ Hp)
           end.
  all: unfold steps_of; cbn [omap list_omap app map fst snd length take last In].
  all: split; [reflexivity|split; [|split]];
    [ let Hin := fresh "Hin" in
      intros Hin; destruct_or!; try discriminate Hin; try done;
      repeat (first [left; reflexivity | right])
    | let Hin := fresh "Hin" in
      intros Hin; destruct_or!; try discriminate Hin; try done; simplify_eq;
      try (split; [reflexivity|];
           first [ left; reflexivity
                 | right; eexists; split; [reflexivity|];
                   rewrite ?app_comm_cons, last_app; reflexivity ])
    | let res := fresh "res" in let Hr := fresh "Hr" in let Hs := fresh "Hs" in
      intros res Hr Hs; simplify_eq; try (cbn in Hs; discriminate Hs);
      try (split; [reflexivity|split; [reflexivity|]];
           apply (opened_evidence_app ticket
               [Call_init; Call_step Login true; Call_captureScreenshot "after_login";
                Call_step NavigateToProjects true;
                Call_captureScreenshot "after_test_support_selection";
                Call_openTicketByTitle ticket]); auto) ].
Qed.


(** *** Selector chains *)

Lemma queries_of_app cs1 cs2 :
  queries_of (cs1 ++ cs2) = (queries_of cs1 ++ queries_of cs2)%list.
Proof. apply omap_app. Qed.

Lemma attempt_consistent_mono qs1 qs2 qs3 p :
  attempt_consistent qs2 p -> attempt_consistent (qs1 ++ qs2 ++ qs3) p.
Proof.
  unfold attempt_consistent. destruct (snd p); intros Hp.
  - apply in_or_app. right. apply in_or_app. by left.
  - apply in_or_app. right. apply in_or_app. by left.
  - destruct Hp as [Hp|Hp]; [left|right]; apply in_or_app; right; apply in_or_app; by left.
Qed.

Lemma selector_chain_spec (action : string -> M (Automation World) unit) selectors :
  (forall sel, page_only (action sel)) ->
  forall a, exists outcome a' cs rest,
    selector_chain action selectors a = (Normal outcome, a')
    /\ extends a a' cs
    /\ selectors = (map fst (attempts_of cs) ++ rest)%list
    /\ (outcome = true ->
          exists pre sel, attempts_of cs = (pre ++ [(sel, Acted)])%list
                          /\ Forall (fun p => snd p <> Acted) pre)
    /\ (outcome = false -> rest = [] /\ Forall (fun p => snd p <> Acted) (attempts_of cs))
    /\ Forall (attempt_consistent (queries_of cs)) (attempts_of cs).
Proof.
  intros Hact. induction selectors as [|sel sels IH]; intros a; cbn [selector_chain].
  - exists false, a, [], []. split; [reflexivity|]. split; [apply extends_refl|].
    split; [done|]. split; [done|]. split; [done|]. constructor.
  - (* what the rest of the loop body does, given the attempt *)
    assert (forall att a1 cs1,
              extends a a1 cs1 -> forallb page_level cs1 = true ->
              attempt_consistent (queries_of cs1) (sel, att) ->
              exists outcome a' cs rest,
                bind (modify (record_call (Chain_attempt sel att)))
                  (fun _ => match att with
                            | Acted => ret true
                            | _ => selector_chain action sels
                            end) a1 = (Normal outcome, a')
                /\ extends a a' cs
                /\ sel :: sels = (map fst (attempts_of cs) ++ rest)%list
                /\ (outcome = true ->
                      exists pre sel0, attempts_of cs = (pre ++ [(sel0, Acted)])%list
                                       /\ Forall (fun p => snd p <> Acted) pre)
                /\ (outcome = false ->
                      rest = [] /\ Forall (fun p => snd p <> Acted) (attempts_of cs))
                /\ Forall (attempt_consistent (queries_of cs)) (attempts_of cs)) as Hnext.
    { intros att a1 cs1 He1 Hp1 Hcons. unfold bind, modify.
      set (a2 := record_call (Chain_attempt sel att) a1).
      assert (extends a a2 (cs1 ++ [Chain_attempt sel att])) as He2.
      { eapply extends_trans; [exact He1|]. done. }
      assert (attempts_of (cs1 ++ [Chain_attempt sel att]) = [(sel, att)]) as Hatt.
      { by rewrite attempts_of_app, (page_level_attempts _ Hp1). }
      assert (queries_of (cs1 ++ [Chain_attempt sel att]) = queries_of cs1) as Hq.
      { rewrite queries_of_app. cbn. by rewrite app_nil_r. }
      assert (att = Acted \/ att <> Acted) as [->|Hna] by (destruct att; auto).
      - exists true, a2, (cs1 ++ [Chain_attempt sel Acted])%list, sels.
        split; [reflexivity|]. split; [done|]. rewrite Hatt, Hq.
        split; [done|]. split; [|split; [done|]].
        + intros _. exists [], sel. by split.
        + by constructor.
      - destruct (IH a2) as (outcome & a' & cs & rest & Heq & He & Hsel & Htrue & Hfalse & Hall).
        exists outcome, a', ((cs1 ++ [Chain_attempt sel att]) ++ cs)%list, rest.
        split; [by destruct att|]. split; [by eapply extends_trans|].
        rewrite attempts_of_app, Hatt, queries_of_app, Hq. cbn [app map fst].
        split; [by rewrite Hsel|]. split; [|split].
        + intros Ho. destruct (Htrue Ho) as (pre & sel0 & -> & Hpre).
          exists ((sel, att) :: pre), sel0. split; [done|]. by constructor.
        + intros Ho. destruct (Hfalse Ho) as [-> Hno]. split; [done|]. by constructor.
        + constructor.
          * apply (attempt_consistent_mono [] (queries_of cs1) (queries_of cs)) in Hcons.
            exact Hcons.
          * eapply Forall_impl; [exact Hall|]. intros p Hp.
            apply (attempt_consistent_mono (queries_of cs1) (queries_of cs) []) in Hp.
            by rewrite app_nil_r in Hp. }
    unfold bind at 1, try_catch, bind at 1, isVisible.
    destruct (page_call_spec (Call_isVisible (locator_first (page_locator sel)))
                (locator_isVisible (locator_first (page_locator sel))) a) as (r & w & ->).
    set (a1 := set_world w (record_call (Call_isVisible (locator_first (page_locator sel)) r) a)).
    assert (extends a a1 [Call_isVisible (locator_first (page_locator sel)) r]) as He1
      by apply extends_record.
    destruct r as [[|]|e].
    + unfold bind at 1.
      destruct (Hact sel a1) as (cs2 & He2 & Hp2).
      destruct (action sel a1) as [[[]|e] a2]; cbn [snd] in He2.
      * apply (Hnext Acted a2 ([Call_isVisible (locator_first (page_locator sel)) (Normal true)]
                               ++ cs2)%list).
        -- by eapply extends_trans.
        -- done.
        -- left. done.
      * apply (Hnext (Caught e) a2
                 ([Call_isVisible (locator_first (page_locator sel)) (Normal true)] ++ cs2)%list).
        -- by eapply extends_trans.
        -- done.
        -- right. left. done.
    + apply (Hnext NotVisible a1
               [Call_isVisible (locator_first (page_locator sel)) (Normal false)]);
        [done|done|]. left. done.
    + apply (Hnext (Caught e) a1
               [Call_isVisible (locator_first (page_locator sel)) (Throw e)]);
        [done|done|]. left. left. done.
Qed.


Lemma NoDup_prefix {A} (l k : list A) n : NoDup k -> l = take n k -> NoDup l.
Proof.
  intros Hk ->. rewrite <- (take_drop n k) in Hk. by apply NoDup_app in Hk as [? _].
Qed.

Lemma default_sequence_NoDup : NoDup default_sequence.
Proof.
  unfold default_sequence.
  repeat (constructor;
          [intros Hin;
           repeat (apply elem_of_cons in Hin as [Hin|Hin]; [discriminate Hin|]);
           by apply elem_of_nil in Hin|]).
  constructor.
Qed.

(** ** The automation class: [run] and the selector chains *)

Lemma post_call_init_eq a (Q : completion unit -> Automation World -> Prop) :
  (forall w, fst (call_init a) = Normal tt ->
     Q (Normal tt) (set_browser true (set_world w (record_call Call_init a)))) ->
  (forall e w, fst (call_init a) = Throw e ->
     Q (Throw e) (set_world w (record_call Call_init a))) ->
  (forall e w, fst (call_init a) = Throw e ->
     Q (Throw e) (set_browser true (set_world w (record_call Call_init a)))) ->
  post call_init a Q.
Proof.
  intros H1 H2 H3. unfold post. unfold call_init in *.
  destruct (init (world a)) as [[|e|e] w]; cbn [fst snd] in *; auto.
Qed.

Ltac settle_leaf :=
  first [ left; reflexivity
        | right; eexists; split; reflexivity ].

Ltac progress_leaf :=
  calls_norm; unfold steps_of;
  cbn [omap list_omap map fst snd length take last default_sequence];
  first
    [ solve [ left; eexists; split; [eassumption|split; [reflexivity|settle_leaf]] ]
    | solve [ right; left; eexists; split; [|reflexivity]; reflexivity ]
    | solve [ right; right; left; eexists;
              split; [cbn [In]; repeat first [left; reflexivity|right]
                     |split; [reflexivity|settle_leaf]] ]
    | solve [ right; right; right;
              split; [reflexivity
                     |split; [ let st := fresh "st" in let Hst := fresh "Hst" in
                               intros st Hst; destruct st; try discriminate Hst;
                               cbn [In]; repeat first [left; reflexivity|right]
                             | first [ eexists; left; reflexivity
                                     | exists None; settle_leaf ] ]] ] ].

(** A default-mode run stops before its eighth step only for a reason:
    [init] threw, a step among the first six returned [false], or the wait
    that follows [closePopupWithDiscard] threw. *)
Lemma default_run_progress env argv a :
  logNoteOnlyMode env = false ->
  let c := fst (run env argv a) in
  let cs := called a (snd (run env argv a)) in
  let trace := steps_of cs in
  (exists e, fst (call_init a) = Throw e /\ trace = [] /\ settles_with (Failed e) c cs)
  \/ (exists s, critical s = true /\ last trace = Some (s, false))
  \/ (exists e, In (Call_waitForTimeout 3000 (Throw e)) cs
                /\ trace = map (fun s => (s, true)) (take 5 default_sequence)
                /\ settles_with (Failed e) c cs)
  \/ (map fst trace = default_sequence
      /\ (forall s, critical s = true -> In (s, true) trace)
      /\ exists ticketId, settles_with (Succeeded ticketId) c cs).
Proof.
  intros Hmode.
  change (post (run env argv) a (fun c a' =>
    let cs := called a a' in
    let trace := steps_of cs in
    (exists e, fst (call_init a) = Throw e /\ trace = [] /\ settles_with (Failed e) c cs)
    \/ (exists s, critical s = true /\ last trace = Some (s, false))
    \/ (exists e, In (Call_waitForTimeout 3000 (Throw e)) cs
                  /\ trace = map (fun s => (s, true)) (take 5 default_sequence)
                  /\ settles_with (Failed e) c cs)
    \/ (map fst trace = default_sequence
        /\ (forall s, critical s = true -> In (s, true) trace)
        /\ exists ticketId, settles_with (Succeeded ticketId) c cs))).
  unfold run, run_try. rewrite Hmode. unfold run_default.
  apply post_try_finally, post_try_catch, post_bind, post_call_init_eq;
    [intros w Hinit|intros e w Hinit|intros e w Hinit].
  all: repeat (wp_step; simpl_run).
  all: cbv zeta; progress_leaf.
Qed.

(** C5, amended. When [run] does not enter log-note-only mode, the steps
    it performs are, in order, an initial part of login,
    navigateToProjects, clickCreate, fillTicketForm, submitTicket,
    clickOnCreatedTicket, editTicketDetails, addLogNote, so each is
    performed at most once and none out of order. When one of the first six
    returns [false], it is the last step of the run, and the run settles
    with the failure result that carries the message of that step: it
    resolves to it, unless [browser.close()] throws in the [finally]
    block, in which case it rejects with what [close] threw. The run stops
    before the eighth step only then, or because [init] threw (no step is
    performed), or because the three-second wait after
    [closePopupWithDiscard] threw (after the fifth step); in both cases it
    settles with the failure result made from what was thrown. Otherwise
    it performs all eight steps, the first six returning [true], and
    settles with a success result. A run that resolves with success has
    gone through all eight steps. *)
Theorem default_run_order env argv a :
  logNoteOnlyMode env = false ->
  let c := fst (run env argv a) in
  let a' := snd (run env argv a) in
  let cs := called a a' in
  let trace := steps_of cs in
  map fst trace = take (length trace) default_sequence
  /\ NoDup (map fst trace)
  /\ (forall s, critical s = true -> In (s, false) trace ->
        last trace = Some (s, false) /\ settles_with (Failed (failure_message s)) c cs)
  /\ ((exists e, fst (call_init a) = Throw e /\ trace = []
                 /\ settles_with (Failed e) c cs)
      \/ (exists s, critical s = true /\ last trace = Some (s, false))
      \/ (exists e, In (Call_waitForTimeout 3000 (Throw e)) cs
                    /\ trace = map (fun s => (s, true)) (take 5 default_sequence)
                    /\ settles_with (Failed e) c cs)
      \/ (map fst trace = default_sequence
          /\ (forall s, critical s = true -> In (s, true) trace)
          /\ exists ticketId, settles_with (Succeeded ticketId) c cs))
  /\ (forall r, c = Normal r -> success r = true -> map fst trace = default_sequence).
Proof.
  intros Hmode. cbv zeta.
  destruct (default_run_trace env argv a Hmode) as (Hprefix & Hstop & Hall).
  split; [exact Hprefix|]. split; [|split; [exact Hstop|split; [|exact Hall]]].
  - eapply NoDup_prefix; [apply default_sequence_NoDup|exact Hprefix].
  - exact (default_run_progress env argv a Hmode).
Qed.

(** C10, with [set] read as [set to a non-empty string]. [run] enters
    log-note-only mode exactly when [TICKET_TITLE] is set to a non-empty
    string and so is [LOG_NOTE] or [EMAIL_SUBJECT]. In that mode the
    steps are an initial part of login, navigateToProjects,
    openTicketByTitle, addLogNote, with [openTicketByTitle] called on the
    value of [TICKET_TITLE]; if that call returns [false] no step follows
    and the run fails with [Ticket not found: ] and the title (or rejects
    with what [browser.close()] threw); a run that resolves with success
    resolves to [{success: true, ticketId: null}], after all four steps
    and after clicking a card whose text contains the title. Outside
    that mode [openTicketByTitle] is not called. *)
Theorem logNote_only_mode env argv a :
  (logNoteOnlyMode env = true <->
   is_set_nonempty env "TICKET_TITLE"
   /\ (is_set_nonempty env "LOG_NOTE" \/ is_set_nonempty env "EMAIL_SUBJECT"))
  /\ (logNoteOnlyMode env = true ->
      exists ticket,
        env !! "TICKET_TITLE" = Some ticket /\ ticket <> "" /\
        let c := fst (run env argv a) in
        let cs := called a (snd (run env argv a)) in
        let trace := steps_of cs in
        map fst trace = take (length trace) logNote_sequence
        /\ (In OpenTicketByTitle (map fst trace) -> In (Call_openTicketByTitle ticket) cs)
        /\ (In (OpenTicketByTitle, false) trace ->
              last trace = Some (OpenTicketByTitle, false)
              /\ (c = Normal (Failed ("Ticket not found: " ++ ticket))
                  \/ exists e, c = Throw e /\ last cs = Some (Call_browser_close (Throw e))))
        /\ (forall r, c = Normal r -> success r = true ->
              r = Succeeded None /\ map fst trace = logNote_sequence
              /\ opened_evidence ticket cs))
  /\ (logNoteOnlyMode env = false ->
      ~ In OpenTicketByTitle (map fst (steps_of (called a (snd (run env argv a)))))).
Proof.
  split; [apply logNoteOnlyMode_spec|]. split; [apply logNote_only_run|].
  intros Hmode Hin.
  destruct (default_run_trace env argv a Hmode) as (Hprefix & _).
  cbv zeta in Hprefix. rewrite Hprefix in Hin.
  apply list_elem_of_In, elem_of_take in Hin as (i & Hi & _).
  unfold default_sequence in Hi.
  do 8 (destruct i as [|i]; [discriminate Hi|]). discriminate Hi.
Qed.


(** ** More of the automation class *)

(** *** The constructor and [updateTicketDetailsFromEnv] *)

Ltac env_cases env name :=
  let s := fresh "s" in
  destruct (env !! name) as [s|]; [destruct (String.eqb s "") eqn:?|].

Lemma updateTicketDetailsFromEnv_fields env c :
  updateTicketDetailsFromEnv env c =
  {| title := first_truthy env ["TICKET_TITLE"; "EMAIL_SUBJECT"] (title c);
     customer := first_truthy env ["EMAIL_CUSTOMER"] (customer c);
     assignedTo := assignedTo c;
     description := first_truthy env ["EMAIL_BODY"] (description c);
     logNote := first_truthy env ["LOG_NOTE"; "EMAIL_SUBJECT"; "EMAIL_BODY"] (logNote c) |}.
Proof.
  unfold updateTicketDetailsFromEnv, first_truthy, when_truthy, js_or, truthy.
  env_cases env "EMAIL_SUBJECT"; env_cases env "EMAIL_CUSTOMER"; env_cases env "EMAIL_BODY";
    env_cases env "TICKET_TITLE"; env_cases env "LOG_NOTE";
    repeat (cbn; match goal with
                 | H : String.eqb ?s "" = _ |- context [String.eqb ?s ""] => rewrite H
                 end);
    cbn; by destruct c.
Qed.

Lemma first_truthy_idem env names d :
  first_truthy env names (first_truthy env names d) = first_truthy env names d.
Proof.
  induction names as [|name rest IH]; [done|]. cbn.
  destruct (env !! name) as [s|] eqn:Hs; [|exact IH].
  destruct (String.eqb_spec s "") as [->|Hne]; [exact IH|].
  by destruct (String.eqb_spec s "").
Qed.

(** X1. [updateTicketDetailsFromEnv] gives each field the first non-empty
    variable of a fixed list and keeps the field when there is none:
    [TICKET_TITLE] then [EMAIL_SUBJECT] for the title, [EMAIL_CUSTOMER] for
    the customer, [EMAIL_BODY] for the description, and [LOG_NOTE], then
    [EMAIL_SUBJECT], then [EMAIL_BODY] for the log note; [assignedTo] is
    never changed. *)
Theorem updateTicketDetailsFromEnv_precedence env c :
  let c' := updateTicketDetailsFromEnv env c in
  title c' = first_truthy env ["TICKET_TITLE"; "EMAIL_SUBJECT"] (title c)
  /\ customer c' = first_truthy env ["EMAIL_CUSTOMER"] (customer c)
  /\ assignedTo c' = assignedTo c
  /\ description c' = first_truthy env ["EMAIL_BODY"] (description c)
  /\ logNote c' = first_truthy env ["LOG_NOTE"; "EMAIL_SUBJECT"; "EMAIL_BODY"] (logNote c).
Proof.
  cbv zeta. rewrite updateTicketDetailsFromEnv_fields.
  cbn [title customer assignedTo description logNote]. repeat split.
Qed.

(** X2. Constructing a second automation from the same environment leaves
    [CONFIG.ticketDetails] as the first construction left it. *)
Theorem updateTicketDetailsFromEnv_idempotent env c :
  updateTicketDetailsFromEnv env (updateTicketDetailsFromEnv env c)
  = updateTicketDetailsFromEnv env c.
Proof.
  rewrite (updateTicketDetailsFromEnv_fields env (updateTicketDetailsFromEnv env c)).
  rewrite (updateTicketDetailsFromEnv_fields env c).
  cbn [title customer assignedTo description logNote].
  by rewrite !first_truthy_idem.
Qed.

(** *** The [--subject=] argument *)

Lemma prefix_append p s : String.prefix p s = true -> exists t, s = p ++ t.
Proof.
  revert s. induction p as [|c p IH]; intros s; cbn.
  - intros _. by exists s.
  - destruct s as [|c' s]; cbn; [done|].
    destruct (Ascii.ascii_dec c c') as [<-|Hne]; [|done].
    intros (t & ->)%IH. by exists t.
Qed.

(** A string up to its first [sep], and what follows. *)
Lemma split_on_head sep s :
  exists v rest,
    s = v ++ rest /\ occurs sep v = false
    /\ (rest = "" \/ exists w, rest = String sep w)
    /\ hd_error (split_on sep s) = Some v.
Proof.
  induction s as [|c s (v & rest & Hs & Hv & Hrest & Hhd)]; cbn.
  - exists "", "". split; [done|]. split; [done|]. split; [by left|done].
  - destruct (Ascii.eqb_spec c sep) as [->|Hne].
    + exists "", (String sep s). split; [done|]. split; [done|]. split; [right; by exists s|done].
    + exists (String c v), rest. split; [by rewrite Hs|]. split.
      * cbn. destruct (Ascii.eqb_spec c sep); [done|]. exact Hv.
      * split; [exact Hrest|]. destruct (split_on sep s); [done|].
        cbn in Hhd. by injection Hhd as ->.
Qed.

(** X3. The subject read from the command line is taken from the first
    argument that starts with [--subject=], and is what follows the prefix
    up to the next [=] or the end of the argument; without such an argument
    there is none. *)
Theorem subject_arg_spec argv :
  match List.find (String.prefix "--subject=") argv with
  | None => subject_arg argv = None
  | Some arg =>
      exists v rest,
        arg = "--subject=" ++ v ++ rest
        /\ occurs "="%char v = false
        /\ (rest = "" \/ exists w, rest = "=" ++ w)
        /\ subject_arg argv = Some v
  end.
Proof.
  unfold subject_arg.
  destruct (List.find (String.prefix "--subject=") argv) as [arg|] eqn:Hfind; [|done].
  apply List.find_some in Hfind as [_ (t & ->)%prefix_append].
  destruct (split_on_head "="%char t) as (v & rest & -> & Hv & Hrest & Hhd).
  exists v, rest. split; [done|]. split; [done|]. split; [exact Hrest|].
  change (split_on "=" ("--subject=" ++ (v ++ rest)))
    with ("--subject" :: split_on "="%char (v ++ rest)).
  cbn. destruct (split_on "=" (v ++ rest)); [done|]. cbn in Hhd. by injection Hhd as ->.
Qed.

(** *** The test on a card's text *)

Lemma prefix_of_append p t : String.prefix p (p ++ t) = true.
Proof.
  induction p as [|c p IH].
  - cbn. by destruct t.
  - change (String.prefix (String c p) (String c (p ++ t)) = true). cbn.
    destruct (Ascii.ascii_dec c c) as [_|Hne]; [exact IH|by destruct Hne].
Qed.

(** X19. The test on a card's text in [openTicketByTitle] is containment
    of the title as a substring of the text; the empty title is contained
    in every text. *)
Theorem includes_substring s sub :
  (includes s sub = true <-> exists pre post, s = pre ++ sub ++ post)
  /\ includes s "" = true.
Proof.
  split.
  - induction s as [|c s IH].
    + cbn [includes]. rewrite orb_false_r. split.
      * intros (t & Ht)%prefix_append. exists "", t. exact Ht.
      * intros (pre & post & Heq).
        destruct pre, sub; cbv [String.append] in Heq; try discriminate Heq. reflexivity.
    + cbn [includes]. rewrite orb_true_iff, IH. split.
      * intros [(t & Ht)%prefix_append|(pre & post & ->)].
        -- exists "", t. exact Ht.
        -- by exists (String c pre), post.
      * intros (pre & post & Heq). destruct pre as [|c' pre].
        -- left. change ("" ++ sub ++ post) with (sub ++ post) in Heq.
           rewrite Heq. apply prefix_of_append.
        -- right. change (String c' pre ++ sub ++ post)
             with (String c' (pre ++ sub ++ post)) in Heq.
           injection Heq as -> ->. by exists pre, post.
  - destruct s; reflexivity.
Qed.

(** *** [run] and [CONFIG.ticketDetails] *)

Lemma post_eq {S A} (m : M S A) (s : S) (Q : completion A -> S -> Prop) :
  (forall c s1, m s = (c, s1) -> Q c s1) -> post m s Q.
Proof. intros HQ. unfold post. destruct (m s) as [c s1] eqn:Hm. by apply HQ. Qed.

Lemma call_init_frame a :
  CONFIG (snd (call_init a)) = CONFIG a
  /\ this_ticketId (snd (call_init a)) = this_ticketId a
  /\ calls (snd (call_init a)) = (calls a ++ [Call_init])%list
  /\ (fst (call_init a) = Normal tt -> this_browser (snd (call_init a)) = true).
Proof. unfold call_init. by destruct (init (world a)) as [[|e|e] w]. Qed.

(** What [run] does to [CONFIG.ticketDetails]. *)
Lemma run_config env argv a :
  let a' := snd (run env argv a) in
  let c := CONFIG a in
  (fst (call_init a) = Normal tt ->
     CONFIG a' =
     {| title := if logNoteOnlyMode env then js_or_str (env !! "TICKET_TITLE") (title c)
                 else title c;
        customer := customer c;
        assignedTo := assignedTo c;
        description := js_or_str (js_or (env !! "EMAIL_SUBJECT") (subject_arg argv))
                         (description c);
        logNote := if logNoteOnlyMode env
                   then js_or_str (js_or (env !! "LOG_NOTE") (env !! "EMAIL_SUBJECT")) (logNote c)
                   else logNote c |})
  /\ (fst (call_init a) <> Normal tt -> CONFIG a' = CONFIG a).
Proof.
  cbv zeta.
  change (post (run env argv) a (fun _ a' =>
    (fst (call_init a) = Normal tt ->
       CONFIG a' =
       {| title := if logNoteOnlyMode env
                   then js_or_str (env !! "TICKET_TITLE") (title (CONFIG a))
                   else title (CONFIG a);
          customer := customer (CONFIG a);
          assignedTo := assignedTo (CONFIG a);
          description := js_or_str (js_or (env !! "EMAIL_SUBJECT") (subject_arg argv))
                           (description (CONFIG a));
          logNote := if logNoteOnlyMode env
                     then js_or_str (js_or (env !! "LOG_NOTE") (env !! "EMAIL_SUBJECT"))
                            (logNote (CONFIG a))
                     else logNote (CONFIG a) |})
    /\ (fst (call_init a) <> Normal tt -> CONFIG a' = CONFIG a))).
  unfold run, run_try.
  apply post_try_finally, post_try_catch, post_bind, post_eq. intros ci a1 Hinit.
  destruct (call_init_frame a) as (Hcfg & _ & _ & _). rewrite Hinit in Hcfg. cbn [snd] in Hcfg.
  rewrite Hinit. cbn [fst].
  destruct ci as [[]|e].
  2: { repeat (wp_step; simpl_run). all: split; [intros [=]|intros _; exact Hcfg]. }
  destruct (logNoteOnlyMode env) eqn:Hmode.
  - unfold run_logNoteOnly.
    repeat (wp_step; simpl_run).
    all: split; [intros _|intros Hne; by destruct Hne].
    all: repeat match goal with
                | He : extends _ _ _ |- _ =>
                    let Hc := fresh in destruct He as (_ & _ & Hc & _); rewrite Hc; clear Hc
                end; simpl_run; rewrite ?Hcfg.
    all: try (unfold js_or_str, js_or; rewrite ?Heqb; cbn; by destruct (CONFIG a)).
  - unfold run_default.
    repeat (wp_step; simpl_run).
    all: split; [intros _|intros Hne; by destruct Hne].
    all: simpl_run; rewrite ?Hcfg.
    all: unfold js_or_str, js_or; rewrite ?Heqb; cbn; by destruct (CONFIG a).
Qed.

Lemma call_init_ok (a : Automation World) :
  fst (call_init a) = Normal tt <-> fst (init (world a)) = InitOk.
Proof. unfold call_init. destruct (init (world a)) as [[|e|e] w]; split; done. Qed.

(** X4. After [run] on a freshly constructed automation whose [init]
    resolves, the description is [EMAIL_SUBJECT] when that is non-empty,
    else the [--subject=] argument when that is non-empty, else what the
    constructor left ([EMAIL_BODY] when non-empty); title, customer and log
    note are what the constructor left, in log-note-only mode too. When
    [init] throws, [CONFIG.ticketDetails] is what the constructor left. *)
Theorem constructed_run_config env argv c (w : World) :
  let a' := snd (run env argv (constructor env c w)) in
  (fst (init w) = InitOk ->
     CONFIG a' =
     {| title := first_truthy env ["TICKET_TITLE"; "EMAIL_SUBJECT"] (title c);
        customer := first_truthy env ["EMAIL_CUSTOMER"] (customer c);
        assignedTo := assignedTo c;
        description := js_or_str (js_or (env !! "EMAIL_SUBJECT") (subject_arg argv))
                         (first_truthy env ["EMAIL_BODY"] (description c));
        logNote := first_truthy env ["LOG_NOTE"; "EMAIL_SUBJECT"; "EMAIL_BODY"] (logNote c) |})
  /\ (fst (init w) <> InitOk -> CONFIG a' = updateTicketDetailsFromEnv env c).
Proof.
  cbv zeta.
  destruct (run_config env argv (constructor env c w)) as [Hok Hthrew].
  rewrite call_init_ok in Hok, Hthrew. cbn [world constructor CONFIG] in Hok, Hthrew.
  split; [|exact Hthrew].
  intros Hinit. rewrite (Hok Hinit). rewrite updateTicketDetailsFromEnv_fields.
  cbn [title customer assignedTo description logNote].
  f_equal.
  - unfold logNoteOnlyMode, js_or_str, js_or, truthy, first_truthy.
    env_cases env "TICKET_TITLE"; env_cases env "LOG_NOTE"; env_cases env "EMAIL_SUBJECT";
      repeat (cbn; match goal with
                   | Hs : String.eqb ?s "" = _ |- context [String.eqb ?s ""] => rewrite Hs
                   end); reflexivity.
  - unfold logNoteOnlyMode, js_or_str, js_or, truthy, first_truthy.
    env_cases env "TICKET_TITLE"; env_cases env "LOG_NOTE"; env_cases env "EMAIL_SUBJECT";
      env_cases env "EMAIL_BODY";
      repeat (cbn; match goal with
                   | Hs : String.eqb ?s "" = _ |- context [String.eqb ?s ""] => rewrite Hs
                   end); reflexivity.
Qed.

(** *** [run] and the browser *)

Lemma page_level_no_close cs : forallb page_level cs = true -> List.filter is_close cs = [].
Proof.
  induction cs as [|c cs IH]; [done|]. cbn [forallb].
  intros [Hc Hcs]%andb_prop. cbn. destruct c; try done; by apply IH.
Qed.

Ltac simpl_run_in H :=
  cbn [world this_browser this_ticketId CONFIG calls set_world set_browser
       set_ticketId set_CONFIG record_call fst snd negb] in H.

Ltac close_leaf :=
  unfold called; simpl_run;
  repeat match goal with
         | He : extends _ _ _ |- _ =>
             let Hb := fresh in let Hc := fresh in
             destruct He as (Hb & _ & _ & Hc); simpl_run_in Hb; simpl_run_in Hc;
             rewrite ?Hb, ?Hc; simpl_run
         end;
  rewrite <- ?app_assoc; rewrite drop_app_length;
  repeat match goal with
         | Hp : forallb page_level _ = true |- _ =>
             pose proof (page_level_no_close _ Hp); pose proof (page_level_steps _ Hp);
             clear Hp
         end.

(** X5. [run] on an automation that holds no browser closes the browser
    exactly when [init] got as far as launching one: then
    [browser.close()] is the last call of the run and is called once;
    otherwise it is not called, no step has run and [run] resolves to a
    failure result. *)
Theorem run_closes_what_it_launched env argv a :
  this_browser a = false ->
  let c := fst (run env argv a) in
  let a' := snd (run env argv a) in
  let cs := called a a' in
  (this_browser a' = true ->
     exists pre answer,
       cs = (pre ++ [Call_browser_close answer])%list /\ List.filter is_close pre = [])
  /\ (this_browser a' = false ->
        List.filter is_close cs = [] /\ steps_of cs = []
        /\ exists e, c = Normal (Failed e)).
Proof.
  intros Hb. cbv zeta.
  change (post (run env argv) a (fun c a' =>
    (this_browser a' = true ->
       exists pre answer,
         called a a' = (pre ++ [Call_browser_close answer])%list
         /\ List.filter is_close pre = [])
    /\ (this_browser a' = false ->
          List.filter is_close (called a a') = [] /\ steps_of (called a a') = []
          /\ exists e, c = Normal (Failed e)))).
  unfold run, run_try.
  destruct (logNoteOnlyMode env) eqn:Hmode; [unfold run_logNoteOnly|unfold run_default].
  all: repeat (wp_step; simpl_run).
  all: close_leaf.
  all: rewrite ?Hb.
  all: split; [intros Ht|intros Hf]; try congruence.
  all: try (eexists _, _; split; [rewrite ?app_assoc; reflexivity|];
            rewrite ?List.filter_app; cbn;
            repeat match goal with
                   | Hn : List.filter is_close _ = [] |- _ => rewrite Hn
                   end; reflexivity).
  all: split; [reflexivity|split; [reflexivity|eexists; reflexivity]].
Qed.

Lemma called_record a a0 cs :
  calls a0 = (calls a ++ cs)%list -> called a a0 = cs.
Proof. intros Hc. unfold called. rewrite Hc. by rewrite drop_app_length. Qed.

(** X6. When [init] throws, [run] performs no step: it calls
    [captureScreenshot('error')], which catches whatever it throws, and
    resolves to the failure result with the message of [init]; if the
    browser had been launched, [browser.close()] is called after that, and
    [run] rejects instead when that [close] throws. The theorem is about
    the call only; whether a screenshot file results is outside the model
    ([captureScreenshot] catches whatever it throws, for instance when
    [this.page] is still [null]). *)
Theorem run_init_failure env argv a e :
  let c := fst (run env argv a) in
  let cs := called a (snd (run env argv a)) in
  (fst (init (world a)) = InitThrewBeforeLaunch e -> this_browser a = false ->
     c = Normal (Failed e) /\ cs = [Call_init; Call_captureScreenshot "error"])
  /\ (fst (init (world a)) = InitThrewAfterLaunch e ->
      exists answer,
        cs = [Call_init; Call_captureScreenshot "error"; Call_browser_close answer]
        /\ c = match answer with
               | Normal _ => Normal (Failed e)
               | Throw e' => Throw e'
               end).
Proof.
  cbv zeta.
  assert (forall a1,
            call_init a = (Throw e, a1) ->
            run env argv a =
            (let a2 := snd (call_captureScreenshot "error" a1) in
             if this_browser a2
             then match page_call Call_browser_close browser_close a2 with
                  | (Normal _, a3) => (Normal (Failed e), a3)
                  | (Throw e', a3) => (Throw e', a3)
                  end
             else (Normal (Failed e), a2))) as Hrun.
  { intros a1 Hinit. unfold run, run_try, try_finally, try_catch.
    unfold bind at 1. rewrite Hinit. cbv zeta.
    unfold bind, call_captureScreenshot, call, ret, gets. simpl_run.
    destruct (this_browser a1); [|done].
    by destruct (page_call _ _ _) as [[[]|e'] a3]. }
  unfold call_init in Hrun.
  destruct (init (world a)) as [[|e0|e0] w]; cbn [fst]; (split; [intros Hi|intros Hi]);
    try discriminate Hi; injection Hi as ->; rewrite (Hrun _ eq_refl); clear Hrun;
    unfold call_captureScreenshot, call; simpl_run.
  - intros ->. cbn [fst snd]. split; [done|]. apply called_record. simpl_run.
    by rewrite <- app_assoc.
  - unfold page_call. simpl_run.
    destruct (browser_close _) as [[[]|e'] w']; cbn [fst snd].
    + exists (Normal tt). split; [|done]. apply called_record. simpl_run.
      by rewrite <- !app_assoc.
    + exists (Throw e'). split; [|done]. apply called_record. simpl_run.
      by rewrite <- !app_assoc.
Qed.

(** *** [clearAndType], [clickElement], [openTicketByTitle] and the password field *)

(** X7. [clearAndType] scrolls to the first element of the selector,
    focuses it, clears it and types the text, in this order; it rethrows
    the error of the first of these calls that throws and makes no call
    after it. *)
Theorem clearAndType_calls selector text a :
  let element := locator_first (page_locator selector) in
  let c := fst (clearAndType selector text a) in
  let cs := called a (snd (clearAndType selector text a)) in
  (c = Normal tt
   /\ cs = [Call_scrollIntoViewIfNeeded element (Normal tt); Call_focus element (Normal tt);
            Call_fill element "" (Normal tt); Call_type element text (Normal tt)])
  \/ (exists e,
        c = Throw e
        /\ (cs = [Call_scrollIntoViewIfNeeded element (Throw e)]
            \/ cs = [Call_scrollIntoViewIfNeeded element (Normal tt);
                     Call_focus element (Throw e)]
            \/ cs = [Call_scrollIntoViewIfNeeded element (Normal tt);
                     Call_focus element (Normal tt); Call_fill element "" (Throw e)]
            \/ cs = [Call_scrollIntoViewIfNeeded element (Normal tt);
                     Call_focus element (Normal tt); Call_fill element "" (Normal tt);
                     Call_type element text (Throw e)])).
Proof.
  cbv zeta. unfold clearAndType, try_catch, bind, throw.
  unfold scrollIntoViewIfNeeded, focus, fill, type, page_call.
  destruct (locator_scrollIntoViewIfNeeded _ (world a)) as [[[]|e1] w1]; simpl_run.
  2: { right. exists e1. split; [done|]. left. by apply called_record. }
  destruct (locator_focus _ w1) as [[[]|e2] w2]; simpl_run.
  2: { right. exists e2. split; [done|]. right. left. apply called_record. simpl_run.
       by rewrite <- app_assoc. }
  destruct (locator_fill _ _ w2) as [[[]|e3] w3]; simpl_run.
  2: { right. exists e3. split; [done|]. right. right. left. apply called_record. simpl_run.
       by rewrite <- !app_assoc. }
  destruct (locator_type _ _ w3) as [[[]|e4] w4]; simpl_run.
  2: { right. exists e4. split; [done|]. right. right. right. apply called_record. simpl_run.
       by rewrite <- !app_assoc. }
  left. split; [done|]. apply called_record. simpl_run. by rewrite <- !app_assoc.
Qed.

(** X8. [clickElement] never throws: it returns [true] when the scroll and
    the click both completed, and [false] when one of them threw; after a
    scroll that throws there is no click. *)
Theorem clickElement_never_throws selector a :
  let element := locator_first (page_locator selector) in
  let c := fst (clickElement selector a) in
  let cs := called a (snd (clickElement selector a)) in
  (c = Normal true
   /\ cs = [Call_scrollIntoViewIfNeeded element (Normal tt); Call_click element (Normal tt)])
  \/ (c = Normal false
      /\ exists e,
           cs = [Call_scrollIntoViewIfNeeded element (Throw e)]
           \/ cs = [Call_scrollIntoViewIfNeeded element (Normal tt);
                    Call_click element (Throw e)]).
Proof.
  cbv zeta. unfold clickElement, try_catch, bind, ret.
  unfold scrollIntoViewIfNeeded, click, page_call.
  destruct (locator_scrollIntoViewIfNeeded _ (world a)) as [[[]|e1] w1]; simpl_run.
  2: { right. split; [done|]. exists e1. left. by apply called_record. }
  destruct (locator_click _ w1) as [[[]|e2] w2]; simpl_run.
  - left. split; [done|]. apply called_record. simpl_run. by rewrite <- app_assoc.
  - right. split; [done|]. exists e2. right. apply called_record. simpl_run.
    by rewrite <- app_assoc.
Qed.

Lemma openTicketByTitle_trace searchTitle a :
  exists opened a' answer rest,
    openTicketByTitle searchTitle a = (Normal opened, a')
    /\ extends a a' ([Call_openTicketByTitle searchTitle; Call_waitForTimeout 2000 answer]
                     ++ rest ++ [Call_step OpenTicketByTitle opened])
    /\ forallb page_level rest = true
    /\ (answer <> Normal tt -> rest = [] /\ opened = false)
    /\ (opened = true -> opened_evidence searchTitle rest).
Proof.
  unfold openTicketByTitle, bind at 1, modify.
  set (a0 := record_call (Call_openTicketByTitle searchTitle) a).
  assert (extends a a0 [Call_openTicketByTitle searchTitle]) as He0 by done.
  unfold bind at 1, try_catch, bind at 1, waitForTimeout.
  destruct (page_call_spec (Call_waitForTimeout 2000) (page_waitForTimeout 2000) a0)
    as (r & w & ->).
  set (a1 := set_world w (record_call (Call_waitForTimeout 2000 r) a0)).
  assert (extends a0 a1 [Call_waitForTimeout 2000 r]) as He1 by apply extends_record.
  destruct r as [[]|e].
  - destruct (selectors_evidence searchTitle (openTicketByTitle_selectors searchTitle) a1)
      as (opened & a2 & cs2 & -> & He2 & Hs2 & Hev2).
    unfold bind, modify, ret.
    eexists opened, _, (Normal tt), cs2.
    split; [reflexivity|]. split; [|split; [done|split; [intros Hne; by destruct Hne|done]]].
    assert (extends a (record_call (Call_step OpenTicketByTitle opened) a2)
              (([Call_openTicketByTitle searchTitle] ++ [Call_waitForTimeout 2000 (Normal tt)]
                ++ cs2) ++ [Call_step OpenTicketByTitle opened])) as He.
    { apply (extends_trans a a2 _ _ [Call_step OpenTicketByTitle opened]); [|done].
      eapply extends_trans; [exact He0|]. eapply extends_trans; [exact He1|exact He2]. }
    by rewrite <- app_assoc in He.
  - unfold ret, bind, modify.
    eexists false, _, (Throw e), [].
    split; [reflexivity|]. split; [|done].
    apply (extends_trans a a1 _ ([Call_openTicketByTitle searchTitle]
                                 ++ [Call_waitForTimeout 2000 (Throw e)])
             [Call_step OpenTicketByTitle false]); [|done].
    eapply extends_trans; [exact He0|exact He1].
Qed.

(** X9. [openTicketByTitle] never throws and only calls the page, leaving
    the fields of the object and [CONFIG] alone. It first waits two
    seconds; if that wait throws it returns [false] without querying the
    page. It returns [true] only after clicking a card whose text contains
    the title. *)
Theorem openTicketByTitle_never_throws searchTitle a :
  let a' := snd (openTicketByTitle searchTitle a) in
  exists opened answer rest,
    fst (openTicketByTitle searchTitle a) = Normal opened
    /\ called a a' =
       ([Call_openTicketByTitle searchTitle; Call_waitForTimeout 2000 answer]
        ++ rest ++ [Call_step OpenTicketByTitle opened])%list
    /\ forallb page_level rest = true
    /\ (answer <> Normal tt -> rest = [] /\ opened = false)
    /\ (opened = true -> opened_evidence searchTitle rest)
    /\ CONFIG a' = CONFIG a /\ this_ticketId a' = this_ticketId a
    /\ this_browser a' = this_browser a.
Proof.
  cbv zeta.
  destruct (openTicketByTitle_trace searchTitle a)
    as (opened & a' & answer & rest & -> & He & Hpage & Hwait & Hev).
  cbn [fst snd]. exists opened, answer, rest.
  split; [reflexivity|]. split; [by apply called_extends|].
  destruct He as (Hb & Ht & Hc & _). done.
Qed.

(** X10. The block of [login] that fills the password field throws
    [Could not find or fill password field] exactly when none of the four
    patterns was both visible and filled, after trying all four in order;
    otherwise the pattern it stopped at was found visible. *)
Theorem login_fillPassword_throws_when_none_acted password a :
  let c := fst (login_fillPassword password a) in
  let cs := called a (snd (login_fillPassword password a)) in
  (c = Normal tt \/ c = Throw "Could not find or fill password field")
  /\ (c = Normal tt ->
        exists pre sel, attempts_of cs = (pre ++ [(sel, Acted)])%list
                        /\ In (sel, Normal true) (queries_of cs)
                        /\ passwordSelectors !! length pre = Some sel)
  /\ (c <> Normal tt ->
        map fst (attempts_of cs) = passwordSelectors
        /\ Forall (fun p => snd p <> Acted) (attempts_of cs)).
Proof.
  cbv zeta. unfold login_fillPassword, bind.
  destruct (selector_chain_spec (fun selector => clearAndType selector password)
              passwordSelectors (fun sel => page_only_clearAndType sel password) a)
    as (outcome & a' & cs & rest & -> & He & Hsel & Htrue & Hfalse & Hall).
  destruct outcome; cbn [negb fst snd throw ret]; rewrite (called_extends _ _ _ He).
  - split; [by left|]. split; [|done].
    intros _. destruct (Htrue eq_refl) as (pre & sel & Hatt & _).
    exists pre, sel. split; [done|].
    rewrite Hatt in Hall. apply Forall_app in Hall as [_ Hlast].
    rewrite Forall_singleton in Hlast. split; [exact Hlast|].
    rewrite Hsel, Hatt, map_app, <- app_assoc. cbn.
    rewrite lookup_app_r by (by rewrite length_map).
    by rewrite length_map, Nat.sub_diag.
  - split; [by right|]. split; [done|].
    intros _. destruct (Hfalse eq_refl) as [-> Hno].
    split; [|done]. by rewrite app_nil_r in Hsel.
Qed.

(** *** [run] and the [error] screenshot *)

Lemma page_level_no_error_screenshot cs :
  forallb page_level cs = true -> ~ In (Call_captureScreenshot "error") cs.
Proof.
  induction cs as [|c cs IH]; [by intros _ []|]. cbn [forallb].
  intros [Hc Hcs]%andb_prop [Heq|Hin]; [by subst c|]. by apply IH.
Qed.

Ltac screenshot_leaf :=
  unfold called; simpl_run;
  repeat match goal with
         | He : extends _ _ _ |- _ =>
             let Hc := fresh in
             destruct He as (_ & _ & _ & Hc); simpl_run_in Hc; rewrite ?Hc; simpl_run
         end;
  rewrite <- ?app_assoc; rewrite drop_app_length;
  repeat match goal with
         | Hp : forallb page_level _ = true |- _ =>
             pose proof (page_level_no_error_screenshot _ Hp); clear Hp
         end.

(** X17. When [run] resolves, its result has [success: false] exactly when
    [captureScreenshot('error')] was called during the run. The theorem is
    about the call only; whether a screenshot file results is outside the
    model ([captureScreenshot] catches whatever it throws, for instance
    when [this.page] is still [null]). *)
Theorem run_error_screenshot env argv a :
  let c := fst (run env argv a) in
  let cs := called a (snd (run env argv a)) in
  forall r, c = Normal r ->
    (success r = false <-> In (Call_captureScreenshot "error") cs).
Proof.
  cbv zeta.
  change (post (run env argv) a (fun c a' =>
    forall r, c = Normal r ->
      (success r = false <-> In (Call_captureScreenshot "error") (called a a')))).
  unfold run, run_try.
  destruct (logNoteOnlyMode env) eqn:Hmode; [unfold run_logNoteOnly|unfold run_default].
  all: repeat (wp_step; simpl_run).
  all: screenshot_leaf.
  all: intros res Hres; try discriminate Hres; injection Hres as <-; cbn [success].
  all: split; [intros Hs; try discriminate Hs|intros Hin; try reflexivity].
  all: try (repeat first [apply in_or_app; left; by left|apply in_or_app; right];
            by left).
  all: exfalso; repeat (apply in_app_or in Hin as [Hin|Hin]);
       try (destruct Hin as [Hin|[]]; discriminate Hin); done.
Qed.

End AutomationFacts.

(** ** Failures, from [run] to the response *)

Section ErrorSurfacing.
Context {World : Type} `{Outside World} {number : Type}.
Variable Number_toString : number -> string.

(** C4, amended. A run whose [try] block throws resolves to
    [{success: false, error: <message>}] provided [browser.close()] does not
    throw in the [finally] block; when it does, [run] rejects with what
    [close] threw, and that is the only way for [run] to reject. When the
    [try] block of the [POST /automate] handler throws, a rejected [run]
    included, the one response is the 500 with [success: false] and the
    error's message. *)
Theorem failures_are_surfaced_as_json env argv (a : Automation World) body
    (s : Server World) :
  (forall e, fst (run_try env argv a) = Throw e ->
     fst (run env argv a) = Normal (Failed e)
     \/ exists e', fst (run env argv a) = Throw e'
                   /\ last (calls (snd (run env argv a)))
                      = Some (Call_browser_close (Throw e')))
  /\ (forall e', fst (run env argv a) = Throw e' ->
        last (calls (snd (run env argv a))) = Some (Call_browser_close (Throw e')))
  /\ (forall e, fst (automate_try Number_toString body s) = Throw e ->
        exists t,
          responses (emitted s (snd (automate Number_toString body s)))
          = [{| statusCode := 500; json := Body_error e t |}]
          /\ body_success (Body_error e t) = Some false
          /\ body_error (Body_error e t) = Some e).
Proof.
  split; [|split].
  - intros e Htry. destruct (run_outcome env argv a) as [(e' & He' & Hlast)|Hc].
    + right. by exists e'.
    + left. cbv zeta in Hc. by rewrite Htry in Hc.
  - intros e' Hc. destruct (run_outcome env argv a) as [(e'' & He'' & Hlast)|Hc'].
    + rewrite Hc in He''. by injection He'' as ->.
    + cbv zeta in Hc'. rewrite Hc in Hc'. discriminate Hc'.
  - intros e Hthrow. destruct (automate_throw_is_500 Number_toString body s e Hthrow) as (t & Ht).
    by exists t.
Qed.

End ErrorSurfacing.

(** ** [closePopupWithDiscard] *)

Section ClosePopupFacts.
Context {World : Type} `{Outside World} `{Keyboard World}.
Implicit Types (a : Automation World).

Ltac simpl_run :=
  cbn [world this_browser this_ticketId CONFIG calls set_world set_browser
       set_ticketId set_CONFIG record_call fst snd negb].

Lemma clickElement_spec selector a :
  let element := locator_first (page_locator selector) in
  exists ok a' cs,
    clickElement selector a = (Normal ok, a')
    /\ extends a a' cs
    /\ ((exists answer, cs = [Call_scrollIntoViewIfNeeded element (Normal tt);
                              Call_click element answer])
        \/ exists e, cs = [Call_scrollIntoViewIfNeeded element (Throw e)]).
Proof.
  cbv zeta. unfold clickElement, try_catch, bind, ret.
  unfold scrollIntoViewIfNeeded, click, page_call.
  destruct (locator_scrollIntoViewIfNeeded _ (world a)) as [[[]|e1] w1]; simpl_run.
  2: { eexists false, _, _. split; [reflexivity|]. split; [by apply extends_record|].
       right. by exists e1. }
  destruct (locator_click _ w1) as [[[]|e2] w2]; simpl_run;
    eexists _, _, _; (split; [reflexivity|]); (split; [|left; eexists; reflexivity]).
  - unfold extends. simpl_run. by rewrite <- app_assoc.
  - unfold extends. simpl_run. by rewrite <- app_assoc.
Qed.

Lemma queries_of_cons c cs :
  queries_of (c :: cs) =
  (match c with
   | Call_isVisible (locator_first (page_locator sel)) answer => [(sel, answer)]
   | _ => []
   end ++ queries_of cs)%list.
Proof.
  unfold queries_of. cbn.
  destruct c as [| | | | | | | |l ans| | | | | | |]; try reflexivity.
  destruct l as [|l| |]; try reflexivity. destruct l; reflexivity.
Qed.

Lemma clicks_of_app cs1 cs2 : clicks_of (cs1 ++ cs2) = (clicks_of cs1 ++ clicks_of cs2)%list.
Proof. apply omap_app. Qed.

Lemma last_cons_snoc {A} (x0 : A) (l : list A) x : last (x0 :: l ++ [x]) = Some x.
Proof. change (x0 :: l ++ [x])%list with ((x0 :: l) ++ [x])%list. apply last_snoc. Qed.

Lemma discard_loop_spec selectors a :
  exists returned a' cs,
    discard_loop selectors a = (Normal returned, a')
    /\ extends a a' cs /\ forallb page_level cs = true
    /\ (exists rest, selectors = (map fst (queries_of cs) ++ rest)%list
                     /\ (returned = false -> rest = []))
    /\ (returned = true <-> waited_a_second cs)
    /\ (forall sel, In sel (clicks_of cs) -> In (sel, Normal true) (queries_of cs)).
Proof.
  revert a. induction selectors as [|sel sels IH]; intros a; cbn [discard_loop].
  - exists false, a, []. split; [reflexivity|]. split; [apply extends_refl|].
    split; [done|]. split; [by exists []|]. split; [|by intros ? []].
    unfold waited_a_second. cbn. split; discriminate.
  - (* the loop goes on after a round that did not return *)
    assert (forall a1 cs1 r,
              extends a a1 cs1 -> forallb page_level cs1 = true ->
              queries_of cs1 = [(sel, r)] ->
              (forall s', In s' (clicks_of cs1) -> s' = sel /\ r = Normal true) ->
              ~ waited_a_second cs1 ->
              exists returned a' cs,
                discard_loop sels a1 = (Normal returned, a')
                /\ extends a a' cs /\ forallb page_level cs = true
                /\ (exists rest, sel :: sels = (map fst (queries_of cs) ++ rest)%list
                                 /\ (returned = false -> rest = []))
                /\ (returned = true <-> waited_a_second cs)
                /\ (forall s', In s' (clicks_of cs) -> In (s', Normal true) (queries_of cs)))
      as Hnext.
    { intros a1 cs1 r He1 Hp1 Hq1 Hc1 Hw1.
      destruct (IH a1) as (returned & a' & cs & -> & He & Hp & (rest & Hsel & Hrest) & Hw & Hc).
      exists returned, a', (cs1 ++ cs)%list.
      split; [reflexivity|]. split; [by eapply extends_trans|].
      split; [by rewrite forallb_app, Hp1, Hp|].
      rewrite queries_of_app, Hq1. cbn [app map fst].
      split; [exists rest; split; [by rewrite Hsel|done]|]. split.
      - rewrite Hw. unfold waited_a_second.
        destruct cs as [|c cs'] using rev_ind.
        + rewrite app_nil_r. cbn. split; [discriminate|]. intros Hl. by destruct Hw1.
        + by rewrite app_assoc, !last_snoc.
      - intros s' Hin. rewrite clicks_of_app in Hin.
        apply in_app_or in Hin as [Hin|Hin].
        + destruct (Hc1 _ Hin) as [-> ->]. by left.
        + right. by apply Hc. }
    unfold bind at 1, try_catch, bind at 1, isVisible.
    destruct (page_call_spec (Call_isVisible (locator_first (page_locator sel)))
                (locator_isVisible (locator_first (page_locator sel))) a) as (r & w & ->).
    set (a1 := set_world w (record_call (Call_isVisible (locator_first (page_locator sel)) r) a)).
    assert (extends a a1 [Call_isVisible (locator_first (page_locator sel)) r]) as He1
      by apply extends_record.
    destruct r as [[|]|e].
    + (* visible: click, whatever comes of it, and wait *)
      unfold bind at 1.
      destruct (clickElement_spec sel a1) as (ok & a2 & cs2 & -> & He2 & Hcs2).
      unfold bind at 1, waitForTimeout.
      destruct (page_call_spec (Call_waitForTimeout 1000) (page_waitForTimeout 1000) a2)
        as (rw & w3 & ->).
      set (a3 := set_world w3 (record_call (Call_waitForTimeout 1000 rw) a2)).
      assert (extends a a3 ([Call_isVisible (locator_first (page_locator sel)) (Normal true)]
                            ++ cs2 ++ [Call_waitForTimeout 1000 rw])) as He3.
      { eapply extends_trans; [exact He1|]. eapply extends_trans; [exact He2|].
        apply extends_record. }
      assert (forallb page_level cs2 = true /\ queries_of cs2 = []
              /\ forall s', In s' (clicks_of cs2) -> s' = sel) as (Hp2 & Hq2 & Hc2).
      { destruct Hcs2 as [(answer & ->)|(e & ->)]; (split; [done|]); (split; [done|]).
        - intros s' [<-|[]]. done.
        - intros s' []. }
      assert (queries_of ([Call_isVisible (locator_first (page_locator sel)) (Normal true)]
                          ++ cs2 ++ [Call_waitForTimeout 1000 rw])
              = [(sel, Normal true)]) as Hq3.
      { rewrite !queries_of_app, Hq2. reflexivity. }
      assert (forall s', In s' (clicks_of
                ([Call_isVisible (locator_first (page_locator sel)) (Normal true)]
                 ++ cs2 ++ [Call_waitForTimeout 1000 rw])) -> s' = sel) as Hc3.
      { intros s'. rewrite !clicks_of_app. cbn. rewrite app_nil_r. apply Hc2. }
      assert (forallb page_level
                ([Call_isVisible (locator_first (page_locator sel)) (Normal true)]
                 ++ cs2 ++ [Call_waitForTimeout 1000 rw]) = true) as Hp3.
      { rewrite !forallb_app, Hp2. reflexivity. }
      destruct rw as [[]|e].
      * (* return true *)
        unfold ret. eexists true, a3, _. split; [reflexivity|]. split; [exact He3|].
        split; [exact Hp3|]. rewrite Hq3. cbn [map fst app].
        split; [exists sels; split; [done|discriminate]|]. split.
        -- split; [intros _|done]. unfold waited_a_second. apply last_cons_snoc.
        -- intros s' Hin. apply Hc3 in Hin as ->. by left.
      * (* the wait threw: on to the next selector *)
        apply (Hnext a3 _ (Normal true) He3 Hp3 Hq3).
        -- intros s' Hin. split; [by apply Hc3|done].
        -- unfold waited_a_second. cbn [app]. rewrite last_cons_snoc. discriminate.
    + apply (Hnext a1 _ (Normal false) He1); [done|done| |].
      * intros s' [].
      * unfold waited_a_second. cbn. discriminate.
    + apply (Hnext a1 _ (Throw e) He1); [done|done| |].
      * intros s' [].
      * unfold waited_a_second. cbn. discriminate.
Qed.

Lemma closePopupWithDiscard_spec a :
  exists returned a' cs,
    closePopupWithDiscard_body a = (Normal returned, a')
    /\ extends a a' cs /\ forallb page_level cs = true
    /\ (exists rest, discardSelectors = (map fst (queries_of cs) ++ rest)%list
                     /\ (returned = false -> rest = []))
    /\ (returned = true <-> waited_a_second cs)
    /\ (forall sel, In sel (clicks_of cs) -> In (sel, Normal true) (queries_of cs)).
Proof.
  unfold closePopupWithDiscard_body, try_catch at 1, bind at 1.
  destruct (discard_loop_spec discardSelectors a)
    as (returned & a1 & cs & -> & He & Hp & (rest & Hsel & Hrest) & Hw & Hc).
  destruct returned.
  - exists true, a1, cs. split; [reflexivity|]. split; [exact He|]. split; [exact Hp|].
    split; [by exists rest|]. done.
  - specialize (Hrest eq_refl). subst rest.
    assert (~ waited_a_second cs) as Hnw by (intros Hyes; by apply Hw in Hyes).
    unfold try_catch, bind at 1, on_page.
    destruct (keyboard_press "Escape" (world a1)) as [[[]|e] w1].
    + unfold bind, waitForTimeout, ret.
      destruct (page_call_spec (Call_waitForTimeout 1000) (page_waitForTimeout 1000)
                  (set_world w1 a1)) as (rw & w2 & ->).
      assert (extends a (set_world w2 (record_call (Call_waitForTimeout 1000 rw)
                                         (set_world w1 a1)))
                (cs ++ [Call_waitForTimeout 1000 rw])) as He2.
      { eapply extends_trans; [exact He|]. done. }
      assert (queries_of (cs ++ [Call_waitForTimeout 1000 rw]) = queries_of cs) as Hq.
      { rewrite queries_of_app. cbn. by rewrite app_nil_r. }
      assert (clicks_of (cs ++ [Call_waitForTimeout 1000 rw]) = clicks_of cs) as Hcl.
      { rewrite clicks_of_app. cbn. by rewrite app_nil_r. }
      assert (forallb page_level (cs ++ [Call_waitForTimeout 1000 rw]) = true) as Hp2.
      { by rewrite forallb_app, Hp. }
      destruct rw as [[]|e].
      * eexists true, _, _. split; [reflexivity|]. split; [exact He2|]. split; [exact Hp2|].
        rewrite Hq, Hcl. split; [exists []; by split|]. split; [|exact Hc].
        split; [intros _|done]. unfold waited_a_second. apply last_snoc.
      * eexists false, _, _. split; [reflexivity|]. split; [exact He2|]. split; [exact Hp2|].
        rewrite Hq, Hcl. split; [exists []; by split|]. split; [|exact Hc].
        split; [discriminate|]. unfold waited_a_second. rewrite last_snoc. discriminate.
    + unfold ret. eexists false, _, cs. split; [reflexivity|].
      split; [|split; [exact Hp|]].
      { destruct He as (?&?&?&?). done. }
      split; [exists []; by split|]. split; [|exact Hc].
      split; [discriminate|]. intros Hyes. by destruct Hnw.
Qed.

(** X18. [closePopupWithDiscard] never throws and only calls the page. It
    queries the five patterns in list order and clicks only patterns it
    found visible. It returns [true] exactly when its last call is a
    one-second wait that completed, which follows the click on a visible
    pattern, whether that click succeeded or not, or the press of Escape;
    when it returns [false] it has queried all five patterns. *)
Theorem closePopupWithDiscard_result a :
  let c := fst (closePopupWithDiscard_body a) in
  let a' := snd (closePopupWithDiscard_body a) in
  let cs := called a a' in
  exists returned,
    c = Normal returned
    /\ forallb page_level cs = true
    /\ (exists rest, discardSelectors = (map fst (queries_of cs) ++ rest)%list
                     /\ (returned = false -> rest = []))
    /\ (returned = true <-> waited_a_second cs)
    /\ (forall sel, In sel (clicks_of cs) -> In (sel, Normal true) (queries_of cs))
    /\ CONFIG a' = CONFIG a /\ this_ticketId a' = this_ticketId a
    /\ this_browser a' = this_browser a.
Proof.
  cbv zeta.
  destruct (closePopupWithDiscard_spec a)
    as (returned & a' & cs & -> & He & Hp & Hsel & Hw & Hc).
  cbn [fst snd]. rewrite (called_extends _ _ _ He). exists returned.
  destruct He as (Hb & Ht & Hcfg & _). done.
Qed.

End ClosePopupFacts.

(** ** More of the server *)

(** *** The values [String] throws on *)

Section PrintableValues.
Context {number : Type}.
Variable Number_toString : number -> string.

Lemma value_rect_nested (P : value number -> Prop) :
  P VUndefined -> P VNull -> (forall b, P (VBool b)) -> (forall n, P (VNum n)) ->
  (forall s, P (VStr s)) ->
  (forall elems, Forall P elems -> P (VArr elems)) ->
  (forall props, P (VObj props)) ->
  forall v, P v.
Proof.
  intros Hu Hn Hb Hnum Hs Ha Ho.
  fix IH 1. intros [| |b|n|s|elems|props];
    [apply Hu|apply Hn|apply Hb|apply Hnum|apply Hs| |apply Ho].
  apply Ha. induction elems as [|x elems IHe]; constructor; [apply IH|exact IHe].
Qed.

Lemma join_cons x rest :
  join_elems Number_toString (x :: rest) =
  let sx := if is_nullish x then Some "" else js_String Number_toString x in
  match rest with
  | [] => sx
  | _ :: _ => match sx, join_elems Number_toString rest with
              | Some a, Some b => Some (a ++ "," ++ b)
              | _, _ => None
              end
  end.
Proof. reflexivity. Qed.

Lemma js_String_None v : js_String Number_toString v = None <-> unprintable v.
Proof.
  induction v as [| |b|n|s|elems IH|props] using value_rect_nested;
    try (split; [by try destruct b|inversion 1]).
  - change (js_String Number_toString (VArr elems)) with (join_elems Number_toString elems).
    induction elems as [|x rest IHrest].
    + split; [done|]. inversion 1; subst. done.
    + apply Forall_cons in IH as [Hx Hrest]. specialize (IHrest Hrest).
      rewrite join_cons. cbv zeta.
      assert ((if is_nullish x then Some "" else js_String Number_toString x) = None
              <-> unprintable x) as Hsx.
      { destruct (is_nullish x) eqn:Hnull; [|exact Hx].
        split; [done|]. intros Hun. destruct x; try done; inversion Hun. }
      split.
      * intros Hnone. destruct rest as [|y rest'].
        -- apply (unprintable_array _ x); [by left|]. by apply Hsx.
        -- destruct (if is_nullish x then Some "" else js_String Number_toString x) as [a|].
           ++ destruct (join_elems Number_toString (y :: rest')) as [b|] eqn:Hj; [done|].
              destruct IHrest as [Hun _]. specialize (Hun eq_refl).
              inversion Hun as [|? z Hin Hz]; subst.
              apply (unprintable_array _ z); [by right|done].
           ++ apply (unprintable_array _ x); [by left|]. by apply Hsx.
      * intros Hun. inversion Hun as [|? z Hin Hz]; subst.
        destruct Hin as [->|Hin].
        -- apply Hsx in Hz. rewrite Hz. by destruct rest.
        -- assert (join_elems Number_toString rest = None) as Hj.
           { apply IHrest. by apply (unprintable_array _ z). }
           destruct rest as [|y rest']; [done|]. rewrite Hj.
           by destruct (if is_nullish x then _ else _).
  - cbn. split.
    + destruct (hasOwn props "toString") eqn:Hown; [|done]. intros _. by constructor.
    + inversion 1; subst. by rewrite H1.
Qed.

End PrintableValues.

Section ServerFacts.
Context {World : Type} `{Outside World} {number : Type}.
Variable Number_toString : number -> string.
Implicit Types (s : Server World) (body : object number).

Lemma assignments_complete body keys :
  snd (assignments Number_toString body keys) = true
  <-> forall key, key ∈ keys -> ~ unprintable (obj_get body key).
Proof.
  induction keys as [|k rest IH]; cbn [assignments].
  - split; [|done]. intros _ key Hin. by apply elem_of_nil in Hin.
  - destruct (is_nullish (obj_get body k)) eqn:Hnull.
    + rewrite IH. split.
      * intros Hall key [->|Hin]%elem_of_cons; [|by apply Hall].
        intros Hun. destruct (obj_get body k); try done; inversion Hun.
      * intros Hall key Hin. apply Hall. by apply elem_of_cons; right.
    + destruct (js_String Number_toString (obj_get body k)) as [str|] eqn:Hstr.
      * destruct (assignments Number_toString body rest) as [l done]. cbn [snd] in *.
        rewrite IH. split.
        -- intros Hall key [->|Hin]%elem_of_cons; [|by apply Hall].
           intros Hun%(js_String_None Number_toString). by rewrite Hun in Hstr.
        -- intros Hall key Hin. apply Hall. by apply elem_of_cons; right.
      * cbn. split; [done|]. intros Hall. exfalso. apply (Hall k); [by left|].
        by apply (js_String_None Number_toString).
Qed.

(** X11. The loop over the body gets through exactly when [String] throws
    on no value of the body, that is, when no value is an object with an
    own [toString] property or an array holding one; when it does not get
    through, the one response is the 500 with the message of the
    [TypeError], and no automation is created or run. *)
Theorem body_loop_throws_on_unprintable body s :
  let s' := snd (automate Number_toString body s) in
  (fst (forEach (Object_keys body) (set_from_body Number_toString body) s) = Normal tt
   <-> forall key, key ∈ Object_keys body -> ~ unprintable (obj_get body key))
  /\ ((exists key, key ∈ Object_keys body /\ unprintable (obj_get body key)) ->
      (exists t, responses (emitted s s')
                 = [{| statusCode := 500; json := Body_error TypeError_toPrimitive t |}])
      /\ List.filter is_new (emitted s s') = []
      /\ List.filter is_run (emitted s s') = []).
Proof.
  cbv zeta. rewrite forEach_set_from_body. cbn [fst]. split.
  - rewrite <- assignments_complete.
    by destruct (snd (assignments Number_toString body (Object_keys body))).
  - intros (key & Hin & Hun).
    assert (snd (assignments Number_toString body (Object_keys body)) = false) as Hloop.
    { destruct (snd (assignments _ body (Object_keys body))) eqn:Hs; [|done].
      pose proof (proj1 (assignments_complete body _) Hs) as Hall.
      by destruct (Hall key Hin). }
    destruct (automate_spec_holds Number_toString body s) as (s' & -> & Hspec). cbn [snd].
    destruct Hspec; rewrite Hloop0 in Hloop; try discriminate Hloop.
    rewrite Hev. split; [exists t|split].
    + by rewrite responses_app, responses_assigns.
    + rewrite List.filter_app, no_new_assigns. done.
    + rewrite List.filter_app, no_run_assigns. done.
Qed.

(** *** [process.env] and [CONFIG.ticketDetails] from one request to the next *)

(** X12. What a request left in [process.env] because it was answered 202
    or 500 after its loop got through is part of the environment of the
    next request: what the assignment of one of its keys stored (under the
    name [env_key] gives, the value [env_value] gives), when no other key
    of that body stores under the same name, the name is not [HEADLESS],
    and no key of the next body stores under it, is the entry of that name
    when the next automation is created. *)
Theorem unrestored_env_reaches_next_request body1 body2 s key str name :
  let native := env_native s in
  let s1 := snd (automate Number_toString body1 s) in
  let s2 := snd (automate Number_toString body2 s1) in
  fst (forEach (Object_keys body1) (set_from_body Number_toString body1) s) = Normal tt ->
  (forall r, In r (responses (emitted s s1)) -> statusCode r <> 200%Z) ->
  key ∈ Object_keys body1 -> is_nullish (obj_get body1 key) = false ->
  js_String Number_toString (obj_get body1 key) = Some str ->
  env_key native key = Some name ->
  (native = false -> name <> "__proto__") ->
  (forall k, k ∈ Object_keys body1 -> stores native body1 k name -> k = key) ->
  name <> "HEADLESS" ->
  (forall k, k ∈ Object_keys body2 -> ¬ stores native body2 k name) ->
  process_env s1 !! name = Some (env_value native str)
  /\ forall env_new, In (Ev_new env_new) (emitted s1 s2) ->
       env_new !! name = Some (env_value native str).
Proof.
  intros native s1 s2 Hloop Hnot200 Hin Hnn Hstr Hname Hproto Honly Hhead Hno2.
  subst native s1 s2.
  rewrite forEach_set_from_body in Hloop. cbn [fst] in Hloop.
  destruct (automate_spec_holds Number_toString body1 s) as (s1 & Heq1 & Hspec1).
  rewrite Heq1 in *. cbn [snd] in *.
  assert (process_env s1 !! name = Some (env_value (env_native s) str)
          /\ env_native s1 = env_native s) as [Hs1 Hnative1].
  { destruct Hspec1; rewrite Hloop0 in Hloop; try discriminate Hloop.
    - split; [|done]. rewrite Henv, Henv', replay_app, replay_headless by done.
      by eapply assignments_env_writer.
    - exfalso. apply (Hnot200 {| statusCode := 200; json := Body_finished (success r) r t |});
        [|done].
      rewrite Hev, !responses_app, responses_assigns, responses_headless. by left.
    - split; [|done]. rewrite Henv, Henv', replay_app, replay_headless by done.
      by eapply assignments_env_writer. }
  split; [exact Hs1|]. intros env_new Hnew.
  destruct (automate_spec_holds Number_toString body2 s1) as (s2 & Heq2 & Hspec2).
  rewrite Heq2 in Hnew. cbn [snd] in Hnew.
  rewrite <- Hnative1 in Hno2.
  assert (forall l, assignments Number_toString body2 (Object_keys body2) = (l, true) ->
            replay (env_native s1)
              (assigns l ++ headless_events (replay (env_native s1) (assigns l) (process_env s1)))
              (process_env s1) !! name = Some (env_value (env_native s) str)) as Henv2.
  { intros l Hl. rewrite replay_app, replay_headless by done.
    by rewrite (assignments_env_other _ _ _ _ _ _ _ _ Hl Hno2). }
  destruct Hspec2; rewrite Hev in Hnew.
  - apply in_app_or in Hnew as [Hnew|Hnew]; [by apply not_new_assigns in Hnew|].
    cbn in Hnew. by destruct Hnew.
  - apply in_app_or in Hnew as [Hnew|Hnew]; [by apply not_new_assigns in Hnew|].
    apply in_app_or in Hnew as [Hnew|Hnew]; [by apply not_new_headless in Hnew|].
    cbn [In] in Hnew. destruct_or!; try discriminate; try done.
    injection Hnew as <-. rewrite Henv'. by apply Henv2.
  - apply in_app_or in Hnew as [Hnew|Hnew]; [by apply not_new_assigns in Hnew|].
    apply in_app_or in Hnew as [Hnew|Hnew]; [by apply not_new_headless in Hnew|].
    cbn [In] in Hnew. destruct_or!; try discriminate; try done.
    injection Hnew as <-. rewrite Henv'. by apply Henv2.
  - apply in_app_or in Hnew as [Hnew|Hnew]; [by apply not_new_assigns in Hnew|].
    apply in_app_or in Hnew as [Hnew|Hnew]; [by apply not_new_headless in Hnew|].
    cbn [In] in Hnew. destruct_or!; try discriminate; try done.
    injection Hnew as <-. rewrite Henv'. by apply Henv2.
Qed.

(** What [POST /automate] leaves in the module's [CONFIG.ticketDetails]. *)
Lemma automate_config body s :
  config (snd (automate Number_toString body s)) =
  match assignments Number_toString body (Object_keys body) with
  | (l, false) => config s
  | (l, true) =>
      let env' := replay (env_native s)
                    (assigns l ++ headless_events
                                    (replay (env_native s) (assigns l) (process_env s)))
                    (process_env s) in
      match wants_blocking Number_toString body with
      | Some true =>
          CONFIG (snd (run env' (process_argv s) (constructor env' (config s) (outside s))))
      | _ => updateTicketDetailsFromEnv env' (config s)
      end
  end.
Proof.
  unfold automate, try_catch, automate_try, bind, gets. cbv beta.
  rewrite forEach_set_from_body.
  destruct (assignments Number_toString body (Object_keys body)) as [l done] eqn:Hasg.
  cbn [fst snd].
  destruct (assign_all_frame l s) as (Fargv & Fconfig & Foutside & Fheap & Fjobs & Fbg).
  pose proof (assign_all_env l s) as Fenv.
  pose proof (assign_all_native l s) as Fnative.
  set (s1 := assign_all l s) in *. clearbody s1.
  destruct done.
  - destruct (ensure_headless_facts s1)
      as (s2 & -> & Gargv & Gconfig & Goutside & Gheap & Gjobs & Gbg & Gev & Genv & Gnative).
    rewrite Fnative in Genv.
    rewrite Fenv in Genv. rewrite <- replay_app in Genv.
    rewrite Fargv in Gargv. rewrite Fconfig in Gconfig. rewrite Foutside in Goutside.
    rewrite waitForResponse_eq.
    destruct (wants_blocking_defined _ _ _ Hasg) as [b Hb]. rewrite Hb.
    destruct b; cbn [negb].
    + unfold new_automation, await_run. cbn.
      rewrite Genv, Gconfig, Goutside, Gargv.
      set (env' := replay (env_native s)
                     (assigns l ++ headless_events
                                     (replay (env_native s) (assigns l) (process_env s)))
                     (process_env s)) in *.
      change (set_world _ _) with (constructor env' (config s) (outside s)).
      destruct (run env' (process_argv s) (constructor env' (config s) (outside s)))
        as [[r|e] a'] eqn:Hrun; unfold now, respond, modify; cbn;
        by destruct (Date_now (world a')).
    + unfold new_uuid, now, jobs_set_new, start_background, bind, new_automation, respond, modify.
      cbn. rewrite Goutside.
      destruct (uuidv4 (outside s)) as [jobId w1]. cbn.
      destruct (Date_now w1) as [created w2]. cbn.
      destruct (Date_now w2) as [t w3]. cbn. by rewrite Genv, Gconfig.
  - unfold now, respond, modify. destruct (Date_now (outside s1)) as [t w]. cbn.
    exact Fconfig.
Qed.

(** X13. [CONFIG.ticketDetails] belongs to the module, not to the request:
    a request that creates an automation leaves as customer the
    [EMAIL_CUSTOMER] it was created with when that is non-empty, and the
    customer it found otherwise; it never changes [assignedTo]; restoring
    [process.env] does not restore either. A request that creates no
    automation leaves [CONFIG.ticketDetails] alone. *)
Theorem ticket_details_outlive_request (body : object number) (s : Server World) :
  let s' := snd (automate Number_toString body s) in
  (forall env_new, In (Ev_new env_new) (emitted s s') ->
     customer (config s') = first_truthy env_new ["EMAIL_CUSTOMER"] (customer (config s))
     /\ assignedTo (config s') = assignedTo (config s))
  /\ (List.filter is_new (emitted s s') = [] -> config s' = config s).
Proof.
  cbv zeta. rewrite (automate_config body s).
  destruct (automate_spec_holds Number_toString body s) as (s' & -> & Hspec). cbn [snd].
  assert (forall env' (a : Automation World),
            customer (CONFIG (snd (run env' (process_argv s) a))) = customer (CONFIG a)
            /\ assignedTo (CONFIG (snd (run env' (process_argv s) a))) = assignedTo (CONFIG a))
    as Hrun_frame.
  { intros env' a. destruct (run_config env' (process_argv s) a) as [Hok Hthrew].
    destruct (fst (call_init a)) as [[]|e].
    - by rewrite (Hok eq_refl).
    - by rewrite Hthrew. }
  assert (forall env_new l pre post,
            In (Ev_new env_new) (assigns l ++ pre ++ post)%list ->
            (forall ev, In ev pre -> is_new ev = false) -> In (Ev_new env_new) post) as Hfind.
  { intros env_new l pre post Hin Hpre.
    apply in_app_or in Hin as [Hin|Hin]; [by apply not_new_assigns in Hin|].
    apply in_app_or in Hin as [Hin|Hin]; [|done]. by apply Hpre in Hin. }
  assert (forall env0 ev, In ev (headless_events env0) -> is_new ev = false) as Hhead.
  { intros env0 ev. unfold headless_events. case_decide; [|done]. by intros [<-|[]]. }
  destruct Hspec; rewrite Hloop, Hev; try rewrite Hmode; cbv zeta.
  - split; [|done]. intros env_new Hin.
    apply in_app_or in Hin as [Hin|Hin]; [by apply not_new_assigns in Hin|].
    cbn in Hin. by destruct Hin.
  - split.
    + intros env_new Hin. apply Hfind in Hin; [|apply Hhead].
      cbn [In] in Hin. destruct_or!; try discriminate; try done. injection Hin as <-.
      rewrite <- Henv'.
      destruct (Hrun_frame env' (constructor env' (config s) (outside s))) as [-> ->].
      cbn [constructor CONFIG]. by rewrite updateTicketDetailsFromEnv_fields.
    + rewrite !List.filter_app. cbn. intros Hnil.
      apply app_eq_nil in Hnil as [_ Hnil]. apply app_eq_nil in Hnil as [_ Hnil]. done.
  - split.
    + intros env_new Hin. apply Hfind in Hin; [|apply Hhead].
      cbn [In] in Hin. destruct_or!; try discriminate; try done. injection Hin as <-.
      rewrite <- Henv'.
      destruct (Hrun_frame env' (constructor env' (config s) (outside s))) as [-> ->].
      cbn [constructor CONFIG]. by rewrite updateTicketDetailsFromEnv_fields.
    + rewrite !List.filter_app. cbn. intros Hnil.
      apply app_eq_nil in Hnil as [_ Hnil]. apply app_eq_nil in Hnil as [_ Hnil]. done.
  - split.
    + intros env_new Hin. apply Hfind in Hin; [|apply Hhead].
      cbn [In] in Hin. destruct_or!; try discriminate; try done. injection Hin as <-.
      rewrite <- Henv'. by rewrite updateTicketDetailsFromEnv_fields.
    + rewrite !List.filter_app. cbn. intros Hnil.
      apply app_eq_nil in Hnil as [_ Hnil]. apply app_eq_nil in Hnil as [_ Hnil]. done.
Qed.

(** *** The job store over time *)

Lemma resume_background_pending i s :
  exists s',
    resume_background i s = (Normal tt, s')
    /\ jobs s' = jobs s
    /\ match background s !! i with
       | None => heap s' = heap s /\ background s' = background s
       | Some (l, automationBg) =>
           exists st r t,
             heap s' = alter (settle_job st r t) l (heap s)
             /\ background s' = delete i (background s)
             /\ (st = "completed" \/ st = "failed")
       end.
Proof.
  unfold resume_background, bind, gets.
  destruct (background s !! i) as [[l a]|] eqn:Hi.
  - unfold modify.
    destruct (finish_background_facts l a (set_background (delete i (background s)) s))
      as (st & r & t & cs & c & s' & -> & Hheap & Hjobs & Hbg & _ & _ & Hst).
    exists s'. split; [done|]. split; [done|]. exists st, r, t.
    split; [done|]. split; [done|]. destruct Hst as [[-> _]|[-> _]]; auto.
  - exists s. done.
Qed.

Lemma transition_pending_wf s s' :
  transition Number_toString s s' -> pending_wf s -> pending_wf s'.
Proof.
  intros Ht [Hrun Hnd]. destruct Ht as [body s|jobId s|i s].
  - destruct (automate_spec_holds Number_toString body s) as (s' & -> & Hspec).
    cbn [snd]. destruct Hspec; unfold pending_wf; rewrite Hheap, Hbg; try done.
    split.
    + intros l0 a0 [Hin|Hin]%elem_of_app.
      * destruct (Hrun _ _ Hin) as (j & Hj & Hst). exists j.
        split; [by apply lookup_app_l_Some|done].
      * apply list_elem_of_singleton in Hin as [= -> ->].
        exists job. rewrite lookup_app_r by done. rewrite Nat.sub_diag. by subst job.
    + rewrite map_app. cbn. apply NoDup_app. split; [done|]. split; [|apply NoDup_singleton].
      intros l0 Hl0 ->%list_elem_of_singleton.
      apply list_elem_of_fmap in Hl0 as ([l1 a1] & Heq & Hin). cbn in Heq. subst l1.
      destruct (Hrun _ _ Hin) as (j & Hj & _).
      apply lookup_lt_Some in Hj. lia.
  - destruct (get_status_eq jobId s) as (b & -> & _). done.
  - destruct (resume_background_pending i s) as (s' & -> & _ & Hres). cbn [snd].
    destruct (background s !! i) as [[l a]|] eqn:Hi.
    + destruct Hres as (st & r & t & Hheap & Hbg & _). unfold pending_wf. rewrite Hheap, Hbg.
      apply list_elem_of_split_length in Hi as (pre & post & Hsplit & ->).
      rewrite Hsplit in *. rewrite delete_middle.
      rewrite map_app in Hnd. cbn in Hnd.
      apply NoDup_app in Hnd as (Hpre & Hdisj & [Hl Hpost]%NoDup_cons).
      split.
      * intros l' a' Hin.
        assert ((l', a') ∈ (pre ++ (l, a) :: post)%list) as Hin' by set_solver.
        destruct (Hrun _ _ Hin') as (j & Hj & Hst). exists j. split; [|done].
        rewrite list_lookup_alter_ne; [done|]. intros <-.
        apply elem_of_app in Hin as [Hin|Hin].
        -- apply (Hdisj l); [|by left]. apply list_elem_of_fmap. by exists (l, a').
        -- apply Hl. apply list_elem_of_fmap. by exists (l, a').
      * rewrite map_app. apply NoDup_app. split; [done|]. split; [|done].
        intros x Hx Hx'. apply (Hdisj x Hx). by right.
    + destruct Hres as [Hheap Hbg]. unfold pending_wf. by rewrite Hheap, Hbg.
Qed.

Lemma transition_running_wf s s' :
  transition Number_toString s s' -> running_wf s -> running_wf s'.
Proof.
  intros Ht Hrun. destruct Ht as [body s|jobId s|i s].
  - destruct (automate_spec_holds Number_toString body s) as (s' & -> & Hspec).
    cbn [snd]. destruct Hspec; unfold running_wf; rewrite Hheap, Hbg; try done.
    intros l0 j [Hj|[Hle Hj]]%lookup_app_Some Hst.
    + destruct (Hrun _ _ Hj Hst) as (a0 & Hin). exists a0. apply elem_of_app. by left.
    + apply list_lookup_singleton_Some in Hj as [Hl0 _].
      exists automationBg. apply elem_of_app. right. apply list_elem_of_singleton.
      f_equal. lia.
  - destruct (get_status_eq jobId s) as (b & -> & _). done.
  - destruct (resume_background_pending i s) as (s' & -> & _ & Hres). cbn [snd].
    destruct (background s !! i) as [[l a]|] eqn:Hi.
    + destruct Hres as (st & r & t & Hheap & Hbg & Hst). unfold running_wf.
      rewrite Hheap, Hbg.
      apply list_elem_of_split_length in Hi as (pre & post & Hsplit & ->).
      rewrite Hsplit in *. rewrite delete_middle.
      intros l' j Hj Hrunning.
      destruct (decide (l' = l)) as [->|Hne].
      * rewrite list_lookup_alter_eq in Hj.
        destruct (heap s !! l) as [j0|]; [|done]. cbn in Hj. injection Hj as <-.
        cbn in Hrunning. by destruct Hst as [-> | ->].
      * rewrite list_lookup_alter_ne in Hj by done.
        destruct (Hrun _ _ Hj Hrunning) as (a' & Hin). exists a'. rewrite Hsplit in Hin.
        apply elem_of_app in Hin as [Hin|Hin]; [apply elem_of_app; by left|].
        apply elem_of_cons in Hin as [[= ->]|Hin]; [done|]. apply elem_of_app; by right.
    + destruct Hres as [Hheap Hbg]. unfold running_wf. by rewrite Hheap, Hbg.
Qed.

Lemma reachable_wf env argv w s :
  rtc (transition Number_toString) (boot env argv w) s ->
  store_wf s /\ pending_wf s /\ running_wf s.
Proof.
  revert s. apply (rtc_ind_r (fun s => store_wf s /\ pending_wf s /\ running_wf s)).
  - split; [split|split; [split|]].
    + intros l j Hl. cbn in Hl. by rewrite lookup_nil in Hl.
    + intros jobId l Hl. cbn in Hl. by rewrite lookup_empty in Hl.
    + intros l a Hin. cbn in Hin. by apply elem_of_nil in Hin.
    + cbn. constructor.
    + intros l j Hl. cbn in Hl. by rewrite lookup_nil in Hl.
  - intros y z _ Hyz (Hs & Hp & Hr). split; [|split].
    + by eapply transition_store_wf.
    + by eapply transition_pending_wf.
    + by eapply transition_running_wf.
Qed.

(** X14. A stored job is ['running'] exactly while the closure that awaits
    its [run()] is pending. *)
Theorem running_jobs_are_pending env argv w s jobId l job :
  rtc (transition Number_toString) (boot env argv w) s ->
  jobs s !! jobId = Some l -> heap s !! l = Some job ->
  (status job = "running" <-> exists automationBg, (l, automationBg) ∈ background s).
Proof.
  intros (_ & [Hpend _] & Hrun)%reachable_wf Hl Hjob. split.
  - intros Hst. by eapply Hrun.
  - intros (a & Hin). destruct (Hpend _ _ Hin) as (j & Hj & Hst).
    rewrite Hjob in Hj. by injection Hj as <-.
Qed.

(** X15. A poll that reported a job as completed or failed reports the
    same after any further step of the server, unless that step is a
    background request for which [uuidv4] returned the id of the job
    again, in which case the id names a new running job. *)
Theorem settled_job_is_final env argv w s s' jobId job :
  rtc (transition Number_toString) (boot env argv w) s ->
  transition Number_toString s s' ->
  jobs_get jobId s = Some job -> status job <> "running" ->
  jobs_get jobId s' = Some job
  \/ exists created,
       jobs_get jobId s' = Some {| id := jobId; status := "running"; createdAt := created;
                                   result := None; completedAt := None |}.
Proof.
  intros (Hstore & Hpend & _)%reachable_wf Ht Hjob Hst.
  unfold jobs_get in Hjob.
  destruct (jobs s !! jobId) as [l|] eqn:Hl; [|done].
  destruct Ht as [body s|jobId' s|i s].
  - destruct (automate_spec_holds Number_toString body s) as (s' & -> & Hspec).
    cbn [snd]. unfold jobs_get.
    destruct Hspec; rewrite Hheap, Hjobs; try (left; by rewrite Hl).
    destruct (decide (jobId0 = jobId)) as [->|Hne].
    + right. exists created. rewrite lookup_insert_eq.
      rewrite lookup_app_r by done. rewrite Nat.sub_diag. by subst job0.
    + left. rewrite lookup_insert_ne by done. rewrite Hl. by apply lookup_app_l_Some.
  - destruct (get_status_eq jobId' s) as (b & -> & _). left. unfold jobs_get. cbn.
    by rewrite Hl.
  - destruct (resume_background_pending i s) as (s' & -> & Hjobs & Hres). cbn [snd].
    left. unfold jobs_get. rewrite Hjobs, Hl.
    destruct (background s !! i) as [[l' a]|] eqn:Hi.
    + destruct Hres as (st & r & t & -> & _ & _).
      rewrite list_lookup_alter_ne; [done|]. intros <-.
      destruct Hpend as [Hrun _].
      destruct (Hrun l' a) as (j & Hj & Hrunning); [by eapply list_elem_of_lookup_2|].
      rewrite Hjob in Hj. injection Hj as <-. done.
    + destruct Hres as [-> _]. done.
Qed.

Lemma transition_jobs_grow s s' jobId :
  transition Number_toString s s' -> is_Some (jobs s !! jobId) -> is_Some (jobs s' !! jobId).
Proof.
  intros Ht Hsome. destruct Ht as [body s|jobId' s|i s].
  - destruct (automate_spec_holds Number_toString body s) as (s' & -> & Hspec).
    cbn [snd]. destruct Hspec; rewrite Hjobs; try done.
    destruct (decide (jobId0 = jobId)) as [->|Hne].
    + rewrite lookup_insert_eq. by eexists.
    + by rewrite lookup_insert_ne.
  - destruct (get_status_eq jobId' s) as (b & -> & _). done.
  - destruct (resume_background_pending i s) as (s' & -> & Hjobs & _). cbn [snd].
    by rewrite Hjobs.
Qed.

(** X16. The store is never pruned: a job id that [GET /status] has once
    found is found in every later state of the process. *)
Theorem job_ids_are_never_dropped env argv w s s' jobId :
  rtc (transition Number_toString) (boot env argv w) s ->
  rtc (transition Number_toString) s s' ->
  is_Some (jobs_get jobId s) ->
  exists job, jobs_get jobId s' = Some job /\ id job = jobId.
Proof.
  intros Hreach Hsteps Hsome.
  assert (is_Some (jobs s !! jobId)) as Hdom.
  { unfold jobs_get in Hsome. destruct (jobs s !! jobId); [by eexists|by destruct Hsome]. }
  assert (is_Some (jobs s' !! jobId)) as [l Hl].
  { clear Hreach Hsome. induction Hsteps as [s|s s1 s' Hstep _ IH]; [done|].
    apply IH. by eapply transition_jobs_grow. }
  destruct (reachable_wf env argv w s') as ([_ Hid] & _); [by etrans|].
  destruct (Hid _ _ Hl) as (job & Hjob & Hidj).
  exists job. split; [|done]. unfold jobs_get. by rewrite Hl.
Qed.

End ServerFacts.

(** ** Worked requests and runs *)

(** A request with a string, a number and a [null]: after the loop
    [PRIORITY] holds the string form of the number, and [EMAIL_BODY] stays
    unset. *)
Lemma automate_sets_env_before_instantiation_witness :
  let s1 := snd (forEach (Object_keys body_ticket) (set_from_body show_Z body_ticket) server0) in
  process_env s1 !! "PRIORITY" = Some "2"
  /\ process_env s1 !! "EMAIL_BODY" = None.
Proof.
  cbv zeta.
  destruct (automate_sets_env_before_instantiation show_Z body_ticket server0) as [Hloop _].
  destruct (Hloop (Object_keys body_ticket)) as (_ & Hset & _ & Hkeep & _).
  split.
  - destruct Hset as (_ & _ & Hset).
    { intros key Hkey. cbv [Object_keys body_ticket map fst] in Hkey.
      repeat (apply elem_of_cons in Hkey as [->|Hkey]; [by eexists|]).
      by apply elem_of_nil in Hkey. }
    destruct (Hset "PRIORITY") as (str & Hstr & _ & Hentry).
    { cbv [Object_keys body_ticket map fst]. apply elem_of_cons. right.
      apply elem_of_cons. by left. }
    { reflexivity. }
    assert (js_String show_Z (obj_get body_ticket "PRIORITY") = Some "2") as Htwo
      by (vm_compute; reflexivity).
    rewrite Htwo in Hstr. injection Hstr as <-.
    apply (Hentry "PRIORITY"); [reflexivity|intros Hf; discriminate Hf|].
    intros k Hk [_ Hname]. cbv [Object_keys body_ticket map fst] in Hk.
    apply elem_of_cons in Hk as [->|Hk]; [vm_compute in Hname; discriminate Hname|].
    apply elem_of_cons in Hk as [->|Hk]; [reflexivity|].
    apply elem_of_cons in Hk as [->|Hk]; [vm_compute in Hname; discriminate Hname|].
    by apply elem_of_nil in Hk.
  - rewrite (Hkeep "EMAIL_BODY"); [reflexivity|].
    intros k Hk [Hnn Hname]. cbv [Object_keys body_ticket map fst] in Hk.
    apply elem_of_cons in Hk as [->|Hk]; [vm_compute in Hname; discriminate Hname|].
    apply elem_of_cons in Hk as [->|Hk]; [vm_compute in Hname; discriminate Hname|].
    apply elem_of_cons in Hk as [->|Hk]; [vm_compute in Hnn; discriminate Hnn|].
    by apply elem_of_nil in Hk.
Defined.

(** The key [A=B] of a body is given to the loop like any other, and
    [process.env] has no entry of that name afterwards. *)
Lemma odd_key_is_not_in_env : ~ body_is_in_env show_Z body_odd_key server0.
Proof.
  intros Hall. destruct (Hall "A=B") as (str & _ & Hentry).
  - cbv [Object_keys body_odd_key map fst]. apply elem_of_cons. right.
    apply elem_of_cons. by left.
  - reflexivity.
  - assert (process_env (snd (forEach (Object_keys body_odd_key)
                                 (set_from_body show_Z body_odd_key) server0)) !! "A=B"
            = None) as Hnone by (vm_compute; reflexivity).
    rewrite Hnone in Hentry. discriminate Hentry.
Qed.

(** Once a blocking request has replaced [process.env] by its snapshot,
    the same key is kept: a plain object takes any property name. *)
Lemma odd_key_is_kept_by_plain_object :
  let s0 := snd (automate show_Z body_ticket server0) in
  let s1 := snd (forEach (Object_keys body_odd_key) (set_from_body show_Z body_odd_key) s0) in
  env_native s0 = false /\ process_env s1 !! "A=B" = Some "x".
Proof. cbv zeta. split; vm_compute; reflexivity. Qed.

(** [waitForResponse: false] has the string form [false]: the request is
    answered 202. *)
Lemma waitForResponse_selects_mode_witness :
  exists jobId t,
    responses (emitted server0 (snd (automate show_Z body_background server0)))
    = [{| statusCode := 202; json := Body_accepted jobId ("/status/" ++ jobId) t |}].
Proof.
  destruct (waitForResponse_selects_mode show_Z body_background server0)
    as (_ & _ & [_ H202] & _).
  apply H202. split.
  - intros key Hkey. cbv [Object_keys body_background map fst] in Hkey.
    repeat (apply elem_of_cons in Hkey as [->|Hkey]; [by eexists|]).
    by apply elem_of_nil in Hkey.
  - vm_compute. intros [Hv|[Hv|Hv]]; discriminate Hv.
Defined.

(** A body without the flag, one of whose values [String] throws on, is
    not handled in blocking mode: [run()] is never awaited. *)
Lemma absent_flag_is_not_blocking : ~ mode_follows_flag show_Z body_throwing server0.
Proof.
  intros [[_ Hblocking] _].
  destruct Hblocking as (env & cs & outcome & Hin); [by left|].
  assert (List.filter is_run (emitted server0 (snd (automate show_Z body_throwing server0)))
          = []) as Hnone by (vm_compute; reflexivity).
  assert (In (Ev_run env cs outcome)
            (List.filter is_run
               (emitted server0 (snd (automate show_Z body_throwing server0))))) as Hin'
    by (apply filter_In; by split).
  rewrite Hnone in Hin'. destruct Hin'.
Qed.

(** A flag that is an object with an own [toString] property is none of
    absent, [null] and ['true'], and is answered 500, not 202. *)
Lemma flag_object_is_not_accepted : ~ mode_follows_flag show_Z body_flag_object server0.
Proof.
  intros [_ Hother].
  destruct Hother as (jobId & t & Hresp).
  - intros [Hv|[Hv|Hv]]; discriminate Hv.
  - assert (responses (emitted server0 (snd (automate show_Z body_flag_object server0)))
            = [{| statusCode := 500;
                  json := Body_error "Cannot convert object to primitive value" 1000 |}])
      as H500 by (vm_compute; reflexivity).
    rewrite H500 in Hresp. discriminate Hresp.
Qed.

(** A blocking request that runs to its end leaves [process.env] as it
    was; one whose loop throws on its second key leaves the first key
    assigned. *)
Lemma env_restored_only_on_blocking_success_witness :
  process_env (snd (automate show_Z body_ticket server0)) = process_env server0
  /\ process_env (snd (automate show_Z body_throwing server0)) !! "EMAIL_SUBJECT"
     = Some "Pump leaks".
Proof.
  split.
  - destruct (env_restored_only_on_blocking_success show_Z body_ticket server0)
      as [(r & Hr & _ & _ & H200 & _) _].
    assert (responses (emitted server0 (snd (automate show_Z body_ticket server0)))
            = [{| statusCode := 200;
                  json := Body_finished true (Succeeded None) 1000 |}]) as Hresp
      by (vm_compute; reflexivity).
    rewrite Hresp in Hr. injection Hr as <-. apply H200. reflexivity.
  - destruct (env_restored_only_on_blocking_success show_Z body_throwing server0)
      as [(r & Hr & _ & _ & _ & Hnot) _].
    assert (responses (emitted server0 (snd (automate show_Z body_throwing server0)))
            = [{| statusCode := 500;
                  json := Body_error "Cannot convert object to primitive value" 1000 |}])
      as Hresp by (vm_compute; reflexivity).
    rewrite Hresp in Hr. injection Hr as <-.
    destruct Hnot as (_ & -> & _); [discriminate|].
    assert (emitted server0 (snd (automate show_Z body_throwing server0))
            = [Ev_env_assign "EMAIL_SUBJECT" "Pump leaks";
               Ev_respond {| statusCode := 500;
                             json := Body_error "Cannot convert object to primitive value"
                                       1000 |}]) as Hev by (vm_compute; reflexivity).
    rewrite Hev. reflexivity.
Defined.


(** After a background request and the resumption of its closure, the job
    stored under the id is completed. *)
Lemma job_records_well_formed_witness :
  rtc (transition show_Z) (boot ∅ [] calm) server_settled
  /\ jobs_get (script_uuid calm) server_settled = Some job_settled
  /\ In (status job_settled) ["running"; "completed"; "failed"].
Proof.
  assert (rtc (transition show_Z) (boot ∅ [] calm) server_settled) as Hreach.
  { eapply rtc_l; [apply (transition_automate show_Z body_background)|].
    eapply rtc_l; [apply (transition_resume show_Z 0)|]. apply rtc_refl. }
  assert (jobs_get (script_uuid calm) server_settled = Some job_settled) as Hjob
    by (vm_compute; reflexivity).
  split; [exact Hreach|]. split; [exact Hjob|].
  apply (job_records_well_formed show_Z ∅ [] calm server_settled Hreach
           (script_uuid calm) job_settled Hjob).
Defined.

(** A background request on a fresh process, and its job once the closure
    has been resumed. *)
Lemma background_request_is_accepted_witness :
  printable show_Z body_background (Object_keys body_background)
  /\ wants_blocking show_Z body_background = Some false
  /\ responses (emitted server0 server_polling)
     = [{| statusCode := 202;
           json := Body_accepted (script_uuid calm) ("/status/" ++ script_uuid calm) 1001 |}]
  /\ jobs_get (script_uuid calm) server_polling
     = Some {| id := script_uuid calm; status := "running"; createdAt := 1000;
               result := None; completedAt := None |}.
Proof.
  assert (printable show_Z body_background (Object_keys body_background)) as Hprintable.
  { intros key Hkey. cbv [Object_keys body_background map fst] in Hkey.
    repeat (apply elem_of_cons in Hkey as [->|Hkey]; [by eexists|]).
    by apply elem_of_nil in Hkey. }
  assert (wants_blocking show_Z body_background = Some false) as Hmode by reflexivity.
  split; [exact Hprintable|]. split; [exact Hmode|].
  destruct (background_request_is_accepted show_Z body_background server0 Hprintable Hmode)
    as (Hresp & _ & _ & Hjob & _).
  split; [exact Hresp|exact Hjob].
Defined.

(** A request whose flag is [false] and whose body holds a value on which
    [String] throws is answered 500, and no job is stored. *)
Lemma background_flag_is_answered_500 :
  ~ background_is_accepted show_Z body_background_throwing server0.
Proof.
  intros Haccepted. destruct Haccepted as (jobId & t & Hresp & _); [reflexivity|].
  assert (responses (emitted server0
                       (snd (automate show_Z body_background_throwing server0)))
          = [{| statusCode := 500;
                json := Body_error "Cannot convert object to primitive value" 1000 |}])
    as H500 by (vm_compute; reflexivity).
  rewrite H500 in Hresp. discriminate Hresp.
Qed.

(** A run whose login fails resolves to the failure result; a body on
    which [String] throws is answered 500 with the message. *)
Lemma failures_are_surfaced_as_json_witness :
  fst (run_try ∅ [] (fresh ∅ login_fails)) = Throw "Login failed"
  /\ fst (run ∅ [] (fresh ∅ login_fails)) = Normal (Failed "Login failed")
  /\ fst (automate_try show_Z body_throwing server0)
     = Throw "Cannot convert object to primitive value"
  /\ exists t,
       responses (emitted server0 (snd (automate show_Z body_throwing server0)))
       = [{| statusCode := 500;
             json := Body_error "Cannot convert object to primitive value" t |}].
Proof.
  destruct (failures_are_surfaced_as_json show_Z ∅ [] (fresh ∅ login_fails)
              body_throwing server0) as (Hrun & _ & H500).
  split; [reflexivity|]. split.
  - destruct (Hrun "Login failed" eq_refl) as [Hres|(e' & Hrej & _)]; [exact Hres|].
    vm_compute in Hrej. discriminate Hrej.
  - split; [reflexivity|].
    destruct (H500 "Cannot convert object to primitive value" eq_refl) as (t & Hresp & _).
    exists t. exact Hresp.
Defined.

(** [run] rejects although its [try] block threw [Login failed]. *)
Lemma run_rejects_when_close_throws :
  ~ resolves_on_failure ∅ [] (fresh ∅ login_fails_close_throws).
Proof.
  intros Hres. specialize (Hres "Login failed" eq_refl).
  vm_compute in Hres. discriminate Hres.
Qed.

(** A run in which every step succeeds goes through the eight steps. *)
Lemma default_run_order_witness :
  logNoteOnlyMode ∅ = false
  /\ map fst (steps_of (called (fresh ∅ calm) (snd (run ∅ [] (fresh ∅ calm)))))
     = default_sequence.
Proof.
  assert (logNoteOnlyMode ∅ = false) as Hmode by (vm_compute; reflexivity).
  split; [exact Hmode|].
  destruct (default_run_order ∅ [] (fresh ∅ calm) Hmode) as (_ & _ & _ & _ & Hall).
  apply (Hall (Succeeded None)); vm_compute; reflexivity.
Defined.

(** When [login] returns [false] and [browser.close()] throws, the run
    does not resolve to a failure result: it rejects. *)
Lemma failed_login_can_reject :
  ~ fails_with_result ∅ [] (fresh ∅ login_fails_close_throws).
Proof.
  intros Hfails. destruct (Hfails Login eq_refl) as (e & He).
  - vm_compute. left. reflexivity.
  - vm_compute in He. discriminate He.
Qed.

(** With [TICKET_TITLE] and [LOG_NOTE] set and the ticket on the board,
    the run goes through the four steps of log-note-only mode. *)
Lemma logNote_only_mode_witness :
  logNoteOnlyMode env_logNote = true
  /\ exists ticket,
       env_logNote !! "TICKET_TITLE" = Some ticket
       /\ map fst (steps_of (called (fresh env_logNote board_with_ticket)
                               (snd (run env_logNote [] (fresh env_logNote board_with_ticket)))))
          = logNote_sequence.
Proof.
  split; [reflexivity|].
  destruct (logNote_only_mode env_logNote [] (fresh env_logNote board_with_ticket))
    as (_ & Hmode & _).
  destruct (Hmode eq_refl) as (ticket & Hticket & _ & _ & _ & _ & Hok).
  exists ticket. split; [exact Hticket|].
  apply (Hok (Succeeded None)); reflexivity.
Defined.

(** With [TICKET_TITLE] set to the empty string and [LOG_NOTE] set, [run]
    does not enter log-note-only mode. *)
Lemma empty_title_is_set_but_default_mode :
  ~ (logNoteOnlyMode env_empty_title = true <->
     is_set env_empty_title "TICKET_TITLE"
     /\ (is_set env_empty_title "LOG_NOTE" \/ is_set env_empty_title "EMAIL_SUBJECT")).
Proof.
  intros [_ Hback].
  assert (logNoteOnlyMode env_empty_title = true) as Hmode.
  { apply Hback. split; [|left]; eexists; reflexivity. }
  vm_compute in Hmode. discriminate Hmode.
Qed.



(** On a popup whose inputs are all visible and none can be filled, the
    step fails although every pattern matched a visible element. *)
Lemma step_fails_with_visible_matches :
  let r := login_fillEmail "agent@example.com" (fresh ∅ no_input_editable) in
  fst r = Throw "Could not find or fill email field"
  /\ map fst (queries_of (called (fresh ∅ no_input_editable) (snd r))) = emailSelectors
  /\ Forall (fun q => snd q = Normal true)
       (queries_of (called (fresh ∅ no_input_editable) (snd r))).
Proof.
  cbv zeta. split; [reflexivity|]. split; [reflexivity|].
  vm_compute. repeat constructor.
Qed.

(** The chain of [closePopupWithDiscard] is another loop: on a popup
    whose buttons are visible and clickable, on a page where the wait
    after the click throws, it goes on to the next pattern after a
    pattern that was found visible and clicked. *)
Lemma discard_chain_goes_on_after_click :
  let cs := called (fresh ∅ popup_wait_throws)
              (snd (closePopupWithDiscard_body (fresh ∅ popup_wait_throws))) in
  ~ stops_at_first_visible_match cs
  /\ clicks_of cs = discardSelectors.
Proof.
  cbv zeta. split; [|vm_compute; reflexivity].
  intros Hstop.
  specialize (Hstop [] "text=Discard"
                (map (fun sel => (sel, Normal true)) (drop 1 discardSelectors))).
  assert (queries_of (called (fresh ∅ popup_wait_throws)
                        (snd (closePopupWithDiscard_body (fresh ∅ popup_wait_throws))))
          = map (fun sel => (sel, Normal true)) discardSelectors) as Hq
    by (vm_compute; reflexivity).
  rewrite Hq in Hstop. specialize (Hstop eq_refl). discriminate Hstop.
Qed.

(** ** Further worked requests and runs *)

(** With a subject and a body, the description of the new ticket is the
    subject. *)
Lemma constructed_run_config_witness :
  fst (init calm) = InitOk
  /\ description (CONFIG (snd (run env_subject_body []
                                 (constructor env_subject_body CONFIG_ticketDetails calm))))
     = "Pump leaks".
Proof.
  assert (fst (init calm) = InitOk) as Hinit by reflexivity.
  split; [exact Hinit|].
  destruct (constructed_run_config env_subject_body [] CONFIG_ticketDetails calm) as [Hok _].
  rewrite (Hok Hinit). vm_compute. reflexivity.
Defined.

(** A run in which everything succeeds ends with [browser.close()]. *)
Lemma run_closes_what_it_launched_witness :
  this_browser (fresh ∅ calm) = false
  /\ exists pre answer,
       called (fresh ∅ calm) (snd (run ∅ [] (fresh ∅ calm)))
       = (pre ++ [Call_browser_close answer])%list
       /\ List.filter is_close pre = [].
Proof.
  assert (this_browser (fresh ∅ calm) = false) as Hb by reflexivity.
  split; [exact Hb|].
  destruct (run_closes_what_it_launched ∅ [] (fresh ∅ calm) Hb) as [Hclosed _].
  apply Hclosed. vm_compute. reflexivity.
Defined.

(** When the browser cannot be launched, [run] resolves to the failure
    result with the launch error. *)
Lemma run_init_failure_witness :
  fst (init (world (fresh ∅ launch_fails)))
  = InitThrewBeforeLaunch "browserType.launch: Executable does not exist"
  /\ this_browser (fresh ∅ launch_fails) = false
  /\ fst (run ∅ [] (fresh ∅ launch_fails))
     = Normal (Failed "browserType.launch: Executable does not exist").
Proof.
  assert (fst (init (world (fresh ∅ launch_fails)))
          = InitThrewBeforeLaunch "browserType.launch: Executable does not exist") as Hinit
    by reflexivity.
  assert (this_browser (fresh ∅ launch_fails) = false) as Hb by reflexivity.
  split; [exact Hinit|]. split; [exact Hb|].
  destruct (run_init_failure ∅ [] (fresh ∅ launch_fails)
              "browserType.launch: Executable does not exist") as [Hbefore _].
  destruct (Hbefore Hinit Hb) as [Hc _]. exact Hc.
Defined.

(** On a board that shows the ticket, [openTicketByTitle] clicks its card. *)
Lemma openTicketByTitle_never_throws_witness :
  exists rest,
    opened_evidence "Pump leaks" rest
    /\ In (Call_step OpenTicketByTitle true)
         (called (fresh ∅ board_with_ticket)
            (snd (openTicketByTitle "Pump leaks" (fresh ∅ board_with_ticket)))).
Proof.
  destruct (openTicketByTitle_never_throws "Pump leaks" (fresh ∅ board_with_ticket))
    as (opened & answer & rest & Hfst & Hcalls & _ & _ & Hev & _).
  vm_compute in Hfst. injection Hfst as <-.
  exists rest. split; [by apply Hev|].
  rewrite Hcalls. apply in_or_app. right. apply in_or_app. right. by left.
Defined.

(** On a page where no password input is visible, the block throws after
    trying the four patterns. *)
Lemma login_fillPassword_throws_when_none_acted_witness :
  fst (login_fillPassword "secret" (fresh ∅ calm)) <> Normal tt
  /\ map fst (attempts_of (called (fresh ∅ calm)
                             (snd (login_fillPassword "secret" (fresh ∅ calm)))))
     = passwordSelectors.
Proof.
  assert (fst (login_fillPassword "secret" (fresh ∅ calm)) <> Normal tt) as Hthrew.
  { vm_compute. discriminate. }
  split; [exact Hthrew|].
  destruct (login_fillPassword_throws_when_none_acted "secret" (fresh ∅ calm))
    as (_ & _ & Hall).
  by destruct (Hall Hthrew).
Defined.

(** A body with an object that has an own [toString] is answered 500. *)
Lemma body_loop_throws_on_unprintable_witness :
  unprintable (obj_get body_throwing "EMAIL_BODY")
  /\ exists t,
       responses (emitted server0 (snd (automate show_Z body_throwing server0)))
       = [{| statusCode := 500; json := Body_error TypeError_toPrimitive t |}].
Proof.
  assert (unprintable (obj_get body_throwing "EMAIL_BODY")) as Hun.
  { apply unprintable_object. reflexivity. }
  split; [exact Hun|].
  destruct (body_loop_throws_on_unprintable show_Z body_throwing server0) as [_ H500].
  destruct H500 as [Hresp _]; [|exact Hresp].
  exists "EMAIL_BODY". split; [|exact Hun]. vm_compute. right. left.
Defined.

(** After a log note sent as a background request, a request without a
    body creates its automation with the title of that log note. *)
Lemma unrestored_env_reaches_next_request_witness :
  "TICKET_TITLE" ∈ Object_keys body_logNote_background
  /\ process_env server_after_logNote !! "TICKET_TITLE" = Some "Pump leaks"
  /\ forall env_new,
       In (Ev_new env_new)
          (emitted server_after_logNote (snd (automate show_Z [] server_after_logNote))) ->
       env_new !! "TICKET_TITLE" = Some "Pump leaks".
Proof.
  assert ("TICKET_TITLE" ∈ Object_keys body_logNote_background) as Hkey
    by (vm_compute; left).
  assert (fst (forEach (Object_keys body_logNote_background)
                 (set_from_body show_Z body_logNote_background) server0) = Normal tt) as Hloop
    by (vm_compute; reflexivity).
  assert (forall r, In r (responses (emitted server0
                                       (snd (automate show_Z body_logNote_background server0)))) ->
                    statusCode r <> 200%Z) as Hnot200.
  { assert (responses (emitted server0
                         (snd (automate show_Z body_logNote_background server0)))
            = [{| statusCode := 202;
                  json := Body_accepted (script_uuid calm) ("/status/" ++ script_uuid calm)
                            1001 |}]) as Hresp by (vm_compute; reflexivity).
    rewrite Hresp. intros r [<-|[]]. discriminate. }
  assert (forall k, k ∈ Object_keys body_logNote_background ->
                    stores (env_native server0) body_logNote_background k "TICKET_TITLE" ->
                    k = "TICKET_TITLE") as Honly.
  { intros k Hk [_ Hname]. cbv [Object_keys body_logNote_background map fst] in Hk.
    apply elem_of_cons in Hk as [->|Hk]; [reflexivity|].
    apply elem_of_cons in Hk as [->|Hk]; [vm_compute in Hname; discriminate Hname|].
    apply elem_of_cons in Hk as [->|Hk]; [vm_compute in Hname; discriminate Hname|].
    by apply elem_of_nil in Hk. }
  assert (forall k, k ∈ Object_keys ([] : object Z) ->
                    ¬ stores (env_native server0) ([] : object Z) k "TICKET_TITLE") as Hno
    by (intros k Hk; by apply elem_of_nil in Hk).
  split; [exact Hkey|]. unfold server_after_logNote.
  exact (unrestored_env_reaches_next_request show_Z body_logNote_background [] server0
           "TICKET_TITLE" "Pump leaks" "TICKET_TITLE" Hloop Hnot200 Hkey eq_refl eq_refl
           eq_refl ltac:(intros Hf; discriminate Hf) Honly ltac:(discriminate) Hno).
Defined.

(** A blocking request that names a customer leaves that customer in
    [CONFIG.ticketDetails]. *)
Lemma ticket_details_outlive_request_witness :
  In (Ev_new env_customer) (emitted server0 (snd (automate show_Z body_customer server0)))
  /\ process_env (snd (automate show_Z body_customer server0)) = process_env server0
  /\ customer (config (snd (automate show_Z body_customer server0))) = "Acme Steel".
Proof.
  assert (In (Ev_new env_customer)
            (emitted server0 (snd (automate show_Z body_customer server0)))) as Hnew.
  { vm_compute. right. left. reflexivity. }
  split; [exact Hnew|]. split; [vm_compute; reflexivity|].
  destruct (ticket_details_outlive_request show_Z body_customer server0) as [Hcfg _].
  destruct (Hcfg env_customer Hnew) as [-> _]. vm_compute. reflexivity.
Defined.

Lemma server_polling_reachable :
  rtc (transition show_Z) (boot ∅ [] calm) server_polling.
Proof.
  eapply rtc_l; [apply (transition_automate show_Z body_background)|]. apply rtc_refl.
Qed.

Lemma server_settled_reachable :
  rtc (transition show_Z) (boot ∅ [] calm) server_settled.
Proof.
  eapply rtc_r; [apply server_polling_reachable|]. apply (transition_resume show_Z 0).
Qed.

(** The job of a background request is running, and its closure pending. *)
Lemma running_jobs_are_pending_witness :
  rtc (transition show_Z) (boot ∅ [] calm) server_polling
  /\ jobs server_polling !! script_uuid calm = Some 0
  /\ exists automationBg, (0, automationBg) ∈ background server_polling.
Proof.
  assert (jobs server_polling !! script_uuid calm = Some 0) as Hl
    by (vm_compute; reflexivity).
  assert (heap server_polling !! 0
          = Some {| id := script_uuid calm; status := "running"; createdAt := 1000;
                    result := None; completedAt := None |}) as Hjob
    by (vm_compute; reflexivity).
  split; [apply server_polling_reachable|]. split; [exact Hl|].
  apply (running_jobs_are_pending show_Z ∅ [] calm server_polling (script_uuid calm) 0 _
           server_polling_reachable Hl Hjob).
  reflexivity.
Defined.

(** A completed job is reported the same after one more poll. *)
Lemma settled_job_is_final_witness :
  jobs_get (script_uuid calm) server_settled = Some job_settled
  /\ status job_settled <> "running"
  /\ jobs_get (script_uuid calm) (snd (get_status (script_uuid calm) server_settled))
     = Some job_settled.
Proof.
  assert (jobs_get (script_uuid calm) server_settled = Some job_settled) as Hjob
    by (vm_compute; reflexivity).
  assert (status job_settled <> "running") as Hst by discriminate.
  split; [exact Hjob|]. split; [exact Hst|].
  destruct (settled_job_is_final show_Z ∅ [] calm server_settled
              (snd (get_status (script_uuid calm) server_settled))
              (script_uuid calm) job_settled server_settled_reachable
              (transition_status show_Z (script_uuid calm) server_settled) Hjob Hst)
    as [Hsame|(created & Hnew)]; [exact Hsame|].
  vm_compute in Hnew. discriminate Hnew.
Defined.

(** The id of a background request is still known once its job has
    settled. *)
Lemma job_ids_are_never_dropped_witness :
  is_Some (jobs_get (script_uuid calm) server_polling)
  /\ exists job, jobs_get (script_uuid calm) server_settled = Some job
                 /\ id job = script_uuid calm.
Proof.
  assert (is_Some (jobs_get (script_uuid calm) server_polling)) as Hsome.
  { eexists. vm_compute. reflexivity. }
  split; [exact Hsome|].
  apply (job_ids_are_never_dropped show_Z ∅ [] calm server_polling server_settled
           (script_uuid calm) server_polling_reachable); [|exact Hsome].
  apply rtc_once. apply (transition_resume show_Z 0).
Defined.

(** A run whose login fails takes the [error] screenshot. *)
Lemma run_error_screenshot_witness :
  fst (run ∅ [] (fresh ∅ login_fails)) = Normal (Failed "Login failed")
  /\ In (Call_captureScreenshot "error")
       (called (fresh ∅ login_fails) (snd (run ∅ [] (fresh ∅ login_fails)))).
Proof.
  assert (fst (run ∅ [] (fresh ∅ login_fails)) = Normal (Failed "Login failed")) as Hc
    by (vm_compute; reflexivity).
  split; [exact Hc|].
  by apply (run_error_screenshot ∅ [] (fresh ∅ login_fails) (Failed "Login failed") Hc).
Defined.

(** On a popup whose Discard button is visible and cannot be clicked,
    [closePopupWithDiscard] returns [true] after the click has failed. *)
Lemma closePopupWithDiscard_result_witness :
  fst (closePopupWithDiscard_body (fresh ∅ discard_not_clickable)) = Normal true
  /\ In (Call_click (locator_first (page_locator "text=Discard"))
           (Throw "locator.click: Timeout 30000ms exceeded"))
        (called (fresh ∅ discard_not_clickable)
           (snd (closePopupWithDiscard_body (fresh ∅ discard_not_clickable))))
  /\ waited_a_second
       (called (fresh ∅ discard_not_clickable)
          (snd (closePopupWithDiscard_body (fresh ∅ discard_not_clickable)))).
Proof.
  assert (fst (closePopupWithDiscard_body (fresh ∅ discard_not_clickable)) = Normal true)
    as Hc by (vm_compute; reflexivity).
  split; [exact Hc|]. split; [vm_compute; right; right; left; reflexivity|].
  destruct (closePopupWithDiscard_result (fresh ∅ discard_not_clickable))
    as (returned & Hret & _ & _ & Hw & _).
  apply Hw. rewrite Hc in Hret. by injection Hret as <-.
Defined.
